(** * utils_nlp.models.bert.common : the question-answering feature pipeline

    A shallow embedding of [Tokenizer.tokenize_qa] and of its nested helpers
    ([_is_whitespace], [_improve_answer_span], [_check_is_max_context]), with
    the properties of the sliding-window generator, of the max-context
    resolver, of the answer-span aligner and of the feature builder.

    Python integers are [Z]; a Python [str] is the list of its code points;
    exceptions and the non-termination of the [while] loop are explicit in
    the [outcome] type. *)

From Stdlib Require Import ZArith QArith List Bool Lia String Ascii.
From Stdlib Require Import PrimFloat SpecFloat FloatOps FloatAxioms.
From Stdlib Require Import Sorted.
Import ListNotations.
Open Scope Z_scope.

(** ** Python values and built-ins used by the source *)

Module Py.

(** A [str] is a sequence of Unicode code points ([ord c] of each character). *)
Definition str := list N.

Definition ord_ascii (a : ascii) : N := N_of_ascii a.

(** A string literal of the source, read as code points. *)
Fixpoint lit (s : string) : str :=
  match s with
  | EmptyString => []
  | String a s' => ord_ascii a :: lit s'
  end.

Fixpoint str_eqb (s t : str) : bool :=
  match s, t with
  | [], [] => true
  | c :: s', d :: t' => (c =? d)%N && str_eqb s' t'
  | _, _ => false
  end.

(** [len(l)] *)
Definition len {A} (l : list A) : Z := Z.of_nat (List.length l).

(** [l[i]]: a negative index counts from the end; [None] stands for the
    [IndexError] of an index out of range. *)
Definition getitem {A} (l : list A) (i : Z) : option A :=
  let j := if i <? 0 then i + len l else i in
  if (0 <=? j) && (j <? len l) then nth_error l (Z.to_nat j) else None.

(** [l[lo:hi]]: negative bounds count from the end, every bound is clamped
    to [0, len l]; a slice never raises. *)
Definition slice {A} (l : list A) (lo hi : Z) : list A :=
  let n := len l in
  let clamp i := if i <? 0 then Z.max (i + n) 0 else Z.min i n in
  let a := clamp lo in
  let b := clamp hi in
  firstn (Z.to_nat (b - a)) (skipn (Z.to_nat a) l).

(** [sep.join(l)] *)
Fixpoint join (sep : str) (l : list str) : str :=
  match l with
  | [] => []
  | x :: rest =>
      match rest with
      | [] => x
      | _ :: _ => x ++ sep ++ join sep rest
      end
  end.

Fixpoint startswith (s sub : str) : bool :=
  match sub, s with
  | [], _ => true
  | _ :: _, [] => false
  | c :: sub', d :: s' => (c =? d)%N && startswith s' sub'
  end.

Fixpoint find_from (s sub : str) (i : Z) : Z :=
  if startswith s sub then i
  else match s with
       | [] => -1
       | _ :: s' => find_from s' sub (i + 1)
       end.

(** [s.find(sub)]: the lowest index where [sub] occurs in [s], or [-1]. *)
Definition find (s sub : str) : Z := find_from s sub 0.

(** [range(a, b)] *)
Definition range (a b : Z) : list Z :=
  map (fun k => a + Z.of_nat k) (seq 0 (Z.to_nat (b - a))).

(** [range(a, b, -1)] *)
Definition range_down (a b : Z) : list Z :=
  map (fun k => a - Z.of_nat k) (seq 0 (Z.to_nat (a - b))).

(** [enumerate(l)] *)
Definition enumerate {A} (l : list A) : list (Z * A) :=
  combine (map Z.of_nat (seq 0 (List.length l))) l.

(** A [for] loop whose body may [return]: the first returned value, if any. *)
Fixpoint for_return {A R} (l : list A) (body : A -> option R) : option R :=
  match l with
  | [] => None
  | x :: l' =>
      match body x with
      | Some r => Some r
      | None => for_return l' body
      end
  end.

(** The exceptions the modelled code can raise. *)
Inductive exn :=
| Exception (msg : string)
| NameError (name : string)
| IndexError
| TypeError
| AttributeError
| AssertionError.

(** What a call does: it returns, it raises, or it never returns. *)
Inductive outcome (A : Type) :=
| Return (a : A)
| Raise (e : exn)
| Diverge.
Arguments Return {A} a.
Arguments Raise {A} e.
Arguments Diverge {A}.

Definition bind {A B} (m : outcome A) (k : A -> outcome B) : outcome B :=
  match m with
  | Return a => k a
  | Raise e => Raise e
  | Diverge => Diverge
  end.

Definition index {A} (l : list A) (i : Z) : outcome A :=
  match getitem l i with
  | Some x => Return x
  | None => Raise IndexError
  end.

(** A [dict] with integer keys, in insertion order. *)
Definition dict (V : Type) := list (Z * V).

Fixpoint setitem {V} (d : dict V) (k : Z) (v : V) : dict V :=
  match d with
  | [] => [(k, v)]
  | (k', v') :: d' => if k' =? k then (k, v) :: d' else (k', v') :: setitem d' k v
  end.

Fixpoint get {V} (d : dict V) (k : Z) : option V :=
  match d with
  | [] => None
  | (k', v') :: d' => if k' =? k then Some v' else get d' k
  end.

End Py.

Import Py.

Declare Scope py_scope.
Notation "x <- m ;; k" := (bind m (fun x => k))
  (at level 61, m at next level, right associativity) : py_scope.
Notation "' p <- m ;; k" := (bind m (fun p => k))
  (at level 61, p pattern, m at next level, right associativity) : py_scope.
Open Scope py_scope.

(** ** External collaborators *)

(** The names imported from [pytorch_transformers.tokenization_bert]: the
    pretrained tokenizer object ([self.tokenizer]) with its two methods,
    and the module function [whitespace_tokenize]. They are black boxes. *)
Record BertTokenizer := {
  tokenize : str -> list str;
  convert_tokens_to_ids : list str -> list Z;
  whitespace_tokenize : str -> list str
}.

(** [convert_tokens_to_ids] gives one id per token. *)
Definition one_id_per_token (tk : BertTokenizer) : Prop :=
  forall ts, List.length (convert_tokens_to_ids tk ts) = List.length ts.

(** Python [float] arithmetic as the source uses it in the score of a span:
    conversion of an [int], [+], [*], [>] and the literal [0.01]. *)
Class PyFloat := {
  F : Type;
  of_int : Z -> F;
  fadd : F -> F -> F;
  fmul : F -> F -> F;
  fgt : F -> F -> bool;
  f0_01 : F
}.

(** IEEE 754 binary64, which is what CPython's [float] is: an [int] is
    converted by rounding to nearest, ties to even. (An [int] beyond the
    range of a float, at which Python raises [OverflowError], is an infinity
    here; no document has that many tokens.) *)
Definition binary64_of_int (z : Z) : float :=
  SF2Prim (binary_normalize prec emax z 0 false).

Definition binary64 : PyFloat := {|
  F := float;
  of_int := binary64_of_int;
  fadd := PrimFloat.add;
  fmul := PrimFloat.mul;
  fgt := fun x y => PrimFloat.ltb y x;
  f0_01 := 0x1.47ae147ae147bp-7%float
|}.

(** Exact rational arithmetic, where [0.01] is one hundredth. *)
Definition exact : PyFloat := {|
  F := Q;
  of_int := inject_Z;
  fadd := Qplus;
  fmul := Qmult;
  fgt := fun x y => negb (Qle_bool x y);
  f0_01 := (1 # 100)%Q
|}.

(** ** Data model *)

(** [_DocSpan = namedtuple("DocSpan", ["start", "length"])] *)
Module DocSpan.
Record t := mk { start : Z; length : Z }.
End DocSpan.
Abbreviation DocSpan := DocSpan.t.

(** An argument that is either a [str] or a list of [str]: the source
    iterates over it and takes its [len] without looking at which it is. *)
Inductive str_or_list :=
| Str (s : str)
| StrList (l : list str).

(** Iterating over a [str] yields its characters as one-character strings. *)
Definition iter (a : str_or_list) : list str :=
  match a with
  | Str s => map (fun c => [c]) s
  | StrList l => l
  end.

Definition len_of (a : str_or_list) : Z :=
  match a with
  | Str s => len s
  | StrList l => len l
  end.

(** One entry of [answer_start]: a single offset or a list of offsets. *)
Inductive int_or_list :=
| Int (z : Z)
| IntList (l : list Z).

(** Modelled from the spec: [QAExample] is imported from
    [utils_nlp.models.bert.qa_utils]; the fields follow the keyword
    arguments of its constructor call and the spec's description of an Example. *)
Record QAExample := {
  qa_id : Z;
  doc_tokens : list str;
  question_text : str;
  orig_answer_text : str_or_list;
  start_position : option Z;
  end_position : option Z;
  is_impossible : bool
}.

(** Modelled from the spec: [QAFeatures] is imported from
    [utils_nlp.models.bert.qa_utils]; the fields follow the keyword
    arguments of its constructor call and the spec's description of a Feature. *)
Record QAFeatures := {
  unique_id : Z;
  example_index : Z;
  tokens : list str;
  token_to_orig_map : dict Z;
  token_is_max_context : dict bool;
  input_ids : list Z;
  input_mask : list Z;
  segment_ids : list Z;
  paragraph_len : Z;
  f_start_position : option Z;
  f_end_position : option Z
}.

(** [BERT_MAX_LEN]: max supported sequence length. *)
Definition BERT_MAX_LEN : Z := 512.

(** The names bound in the module's global namespace: its imports, its
    constant, its classes and its function. A name that is neither here nor
    a built-in raises [NameError] when it is evaluated. *)
Definition module_globals : list string :=
  ["Enum"; "warnings"; "Iterable"; "namedtuple"; "torch"; "tqdm";
   "BertTokenizer"; "whitespace_tokenize"; "DataLoader"; "RandomSampler";
   "SequentialSampler"; "TensorDataset"; "QAFeatures"; "QAExample";
   "BERT_MAX_LEN"; "Language"; "Tokenizer"; "create_data_loader"]%string.

Definition global (name : string) : outcome unit :=
  if existsb (String.eqb name) module_globals then Return tt
  else Raise (NameError name).

(** ** The nested helpers of [tokenize_qa] *)

Definition _is_whitespace (c : N) : bool :=
  ((c =? 32) || (c =? 9) || (c =? 13) || (c =? 10) || (c =? 0x202F))%N.

Section Helpers.

Context (tokenizer : BertTokenizer) {fl : PyFloat}.

Definition space : str := lit " ".

(** Lines 364-398. *)
Definition _improve_answer_span (doc_tokens : list str)
    (input_start input_end : Z) (orig_answer_text : str) : Z * Z :=
  let tok_answer_text := join space (tokenize tokenizer orig_answer_text) in
  match
    for_return (range input_start (input_end + 1)) (fun new_start =>
      for_return (range_down input_end (new_start - 1)) (fun new_end =>
        let text_span := join space (slice doc_tokens new_start (new_end + 1)) in
        if str_eqb text_span tok_answer_text
        then Some (new_start, new_end)
        else None))
  with
  | Some r => r
  | None => (input_start, input_end)
  end.

(** [score = min(num_left_context, num_right_context) + 0.01 * doc_span.length] *)
Definition span_score (doc_span : DocSpan) (position : Z) : F :=
  let end_ := DocSpan.start doc_span + DocSpan.length doc_span - 1 in
  let num_left_context := position - DocSpan.start doc_span in
  let num_right_context := end_ - position in
  fadd (of_int (Z.min num_left_context num_right_context))
       (fmul f0_01 (of_int (DocSpan.length doc_span))).

(** One iteration of the loop of [_check_is_max_context] over
    [(best_score, best_span_index)]. *)
Definition max_context_step (position : Z)
    (best : option F * option Z) (item : Z * DocSpan) : option F * option Z :=
  let '(span_index, doc_span) := item in
  let end_ := DocSpan.start doc_span + DocSpan.length doc_span - 1 in
  if position <? DocSpan.start doc_span then best
  else if position >? end_ then best
  else
    let score := span_score doc_span position in
    match fst best with
    | None => (Some score, Some span_index)
    | Some best_score =>
        if fgt score best_score then (Some score, Some span_index) else best
    end.

Definition best_span_index (doc_spans : list DocSpan) (position : Z) : option Z :=
  snd (fold_left (max_context_step position) (enumerate doc_spans) (None, None)).

(** Lines 400-434. *)
Definition _check_is_max_context (doc_spans : list DocSpan)
    (cur_span_index position : Z) : bool :=
  match best_span_index doc_spans position with
  | Some b => cur_span_index =? b
  | None => false
  end.

End Helpers.

(** ** The sliding-window loop (lines 553-562) *)

Section Window.

Variables (n max_tokens_for_doc doc_stride : Z).

(** The state of the [while] loop: [start_offset] and [doc_spans]. One
    iteration either leaves the loop with the final [doc_spans] or goes on. *)
Definition window_step (st : Z * list DocSpan) : (Z * list DocSpan) + list DocSpan :=
  let '(start_offset, doc_spans) := st in
  if start_offset <? n then
    let length := n - start_offset in
    let length := if length >? max_tokens_for_doc then max_tokens_for_doc else length in
    let doc_spans := doc_spans ++ [DocSpan.mk start_offset length] in
    if start_offset + length =? n then inr doc_spans
    else inl (start_offset + Z.min length doc_stride, doc_spans)
  else inr doc_spans.

(** The loop run for at most [fuel] evaluations of its condition. *)
Fixpoint window_loop (fuel : nat) (st : Z * list DocSpan) : option (list DocSpan) :=
  match fuel with
  | O => None
  | S fuel' =>
      match window_step st with
      | inr doc_spans => Some doc_spans
      | inl st' => window_loop fuel' st'
      end
  end.

(** The state after [k] iterations, while the loop is still running. *)
Fixpoint window_state (k : nat) (st : Z * list DocSpan) : option (Z * list DocSpan) :=
  match k with
  | O => Some st
  | S k' =>
      match window_step st with
      | inr _ => None
      | inl st' => window_state k' st'
      end
  end.

(** A loop that has not left after [n + 1] evaluations of its condition
    never leaves ([window_loop_complete] below): the outcome of the loop. *)
Definition doc_spans_of : outcome (list DocSpan) :=
  match window_loop (S (Z.to_nat n)) (0, []) with
  | Some doc_spans => Return doc_spans
  | None => Diverge
  end.

End Window.

(** ** [tokenize_qa] *)

Section TokenizeQA.

Context (tokenizer : BertTokenizer) {fl : PyFloat}.

(** *** Building the examples (lines 437-501) *)

(** [d_tokens[-1] += c] *)
Definition append_to_last (d_tokens : list str) (c : N) : list str :=
  match rev d_tokens with
  | [] => []
  | w :: ws => rev ws ++ [w ++ [c]]
  end.

(** One iteration of [for c in d_text] over
    [(d_tokens, char_to_word_offset, prev_is_whitespace)]. The first
    character that is not a whitespace finds [prev_is_whitespace] true, so
    [d_tokens[-1]] is only reached on a list that is not empty. *)
Definition whitespace_step (st : list str * list Z * bool) (c : N)
    : list str * list Z * bool :=
  let '(d_tokens, char_to_word_offset, prev_is_whitespace) := st in
  let '(d_tokens, prev_is_whitespace) :=
    if _is_whitespace c then (d_tokens, true)
    else if prev_is_whitespace then (d_tokens ++ [[c]], false)
    else (append_to_last d_tokens c, false) in
  (d_tokens, char_to_word_offset ++ [len d_tokens - 1], prev_is_whitespace).

Definition whitespace_split (d_text : str) : list str * list Z :=
  fst (fold_left whitespace_step d_text ([], [], true)).

(** The answers of one question as the loop [for s, t in zip(a_start, a_text)]
    sees them (lines 460-467). *)
Definition answers_of (a_start : int_or_list) (a_text : str_or_list)
    (is_training impossible : bool) : outcome (list (Z * str_or_list)) :=
  match a_start with
  | IntList starts =>
      if negb (len starts =? len_of a_text) then
        Raise (Exception "The lengths of answer starts and answer texts are different.")
      else if (len starts >? 1) && is_training && negb impossible then
        Raise (Exception "For training, each question should have exactly 1 answer.")
      else Return (combine starts (map Str (iter a_text)))
  | Int z => Return [(z, a_text)]
  end.

(** The body of [for s, t in zip(a_start, a_text)] (lines 470-501): the
    example to append, or [None] when the iteration ends in [continue]. *)
Definition example_of (d_tokens : list str) (char_to_word_offset : list Z)
    (q_text : str) (q_id : Z) (impossible is_training : bool)
    (s : Z) (t : str_or_list) : outcome (option QAExample) :=
  let mk sp ep :=
    {| qa_id := q_id; doc_tokens := d_tokens; question_text := q_text;
       orig_answer_text := t; start_position := sp; end_position := ep;
       is_impossible := impossible |} in
  if is_training then
    if negb impossible then
      let answer_length := len_of t in
      start_position <- index char_to_word_offset s ;;
      end_position <- index char_to_word_offset (s + answer_length - 1) ;;
      let actual_text := join space (slice d_tokens start_position (end_position + 1)) in
      words <- match t with
               | Str t => Return (whitespace_tokenize tokenizer t)
               | StrList _ => Raise AttributeError
               end ;;
      let cleaned_answer_text := join space words in
      if find actual_text cleaned_answer_text =? -1 then
        _ <- global "logger" ;;
        Return None
      else Return (Some (mk (Some start_position) (Some end_position)))
    else Return (Some (mk (Some (-1)) (Some (-1))))
  else Return (Some (mk None None)).

(** A [for] loop that appends to a list and may raise. *)
Fixpoint for_append {A B} (l : list A) (body : A -> outcome (list B))
    (acc : list B) : outcome (list B) :=
  match l with
  | [] => Return acc
  | x :: l' => ys <- body x ;; for_append l' body (acc ++ ys)
  end.

Definition option_to_list {A} (o : option A) : list A :=
  match o with
  | Some a => [a]
  | None => []
  end.

(** The body of the loop over the questions (lines 446-501). *)
Definition examples_of_question (is_training : bool)
    (q : str * str * int_or_list * str_or_list * Z * bool)
    : outcome (list QAExample) :=
  let '(d_text, q_text, a_start, a_text, q_id, impossible) := q in
  let '(d_tokens, char_to_word_offset) := whitespace_split d_text in
  answers <- answers_of a_start a_text is_training impossible ;;
  for_append answers (fun '(s, t) =>
    e <- example_of d_tokens char_to_word_offset q_text q_id impossible
           is_training s t ;;
    Return (option_to_list e)) [].

(** [zip] of six sequences: as long as the shortest. *)
Fixpoint zip6 {A B C D E G} (a : list A) (b : list B) (c : list C)
    (d : list D) (e : list E) (g : list G) : list (A * B * C * D * E * G) :=
  match a, b, c, d, e, g with
  | x1 :: a', x2 :: b', x3 :: c', x4 :: d', x5 :: e', x6 :: g' =>
      (x1, x2, x3, x4, x5, x6) :: zip6 a' b' c' d' e' g'
  | _, _, _, _, _, _ => []
  end.

Definition qa_examples_of (doc_text question_text : str_or_list)
    (answer_start : list int_or_list) (answer_text : list str_or_list)
    (is_training : bool) (qa_id : option (list Z))
    (is_impossible : option (list bool)) : outcome (list QAExample) :=
  let qa_id :=
    match qa_id with
    | None => range 0 (len_of question_text)
    | Some ids => ids
    end in
  let is_impossible :=
    match is_impossible with
    | None => repeat false (Z.to_nat (len_of question_text))
    | Some flags => flags
    end in
  for_append
    (zip6 (iter doc_text) (iter question_text) answer_start answer_text
          qa_id is_impossible)
    (examples_of_question is_training) [].

(** *** Building the features (lines 503-674) *)

Definition cls_token : str := lit "[CLS]".
Definition sep_token : str := lit "[SEP]".
Definition pad_token : Z := 0.
Definition sequence_a_segment_id : Z := 0.
Definition sequence_b_segment_id : Z := 1.
Definition cls_token_segment_id : Z := 0.
Definition pad_token_segment_id : Z := 0.
Definition cls_token_at_end : bool := false.
Definition mask_padding_with_zero : bool := true.

(** A [for] loop over a state that may raise. *)
Fixpoint for_each {A S} (l : list A) (body : S -> A -> outcome S) (s : S)
    : outcome S :=
  match l with
  | [] => Return s
  | x :: l' => s' <- body s x ;; for_each l' body s'
  end.

(** Lines 516-519. *)
Definition query_tokens_of (question_text : str) (max_query_length : Z)
    : list str :=
  let query_tokens := tokenize tokenizer question_text in
  if len query_tokens >? max_query_length
  then slice query_tokens 0 max_query_length
  else query_tokens.

(** One iteration of [for (i, token) in enumerate(example.doc_tokens)] over
    [(tok_to_orig_index, orig_to_tok_index, all_doc_tokens)] (lines 524-529). *)
Definition subtoken_step (st : list Z * list Z * list str) (item : Z * str)
    : list Z * list Z * list str :=
  let '(tok_to_orig_index, orig_to_tok_index, all_doc_tokens) := st in
  let '(i, token) := item in
  let orig_to_tok_index := orig_to_tok_index ++ [len all_doc_tokens] in
  let sub_tokens := tokenize tokenizer token in
  (tok_to_orig_index ++ map (fun _ => i) sub_tokens,
   orig_to_tok_index,
   all_doc_tokens ++ sub_tokens).

Definition subtokens_of (doc_tokens : list str) : list Z * list Z * list str :=
  fold_left subtoken_step (enumerate doc_tokens) ([], [], []).

(** An operand that has to be an [int]: [None] raises [TypeError]. *)
Definition as_int (o : option Z) : outcome Z :=
  match o with
  | Some z => Return z
  | None => Raise TypeError
  end.

(** Lines 531-544: [(tok_start_position, tok_end_position)]. *)
Definition tok_positions_of (example : QAExample) (is_training : bool)
    (orig_to_tok_index : list Z) (all_doc_tokens : list str)
    : outcome (option Z * option Z) :=
  if is_training && is_impossible example then Return (Some (-1), Some (-1))
  else if is_training && negb (is_impossible example) then
    start_position <- as_int (start_position example) ;;
    tok_start_position <- index orig_to_tok_index start_position ;;
    end_position <- as_int (end_position example) ;;
    tok_end_position <-
      (if end_position <? len (doc_tokens example) - 1
       then (v <- index orig_to_tok_index (end_position + 1) ;; Return (v - 1))
       else Return (len all_doc_tokens - 1)) ;;
    answer <- match orig_answer_text example with
              | Str t => Return t
              | StrList _ => Raise TypeError
              end ;;
    let '(tok_start_position, tok_end_position) :=
      _improve_answer_span tokenizer all_doc_tokens tok_start_position
        tok_end_position answer in
    Return (Some tok_start_position, Some tok_end_position)
  else Return (None, None).

(** One iteration of [for i in range(doc_span.length)] over
    [(tokens, token_to_orig_map, token_is_max_context, segment_ids)]
    (lines 593-602). *)
Definition paragraph_step (doc_spans : list DocSpan) (doc_span_index : Z)
    (doc_span : DocSpan) (tok_to_orig_index : list Z) (all_doc_tokens : list str)
    (st : list str * dict Z * dict bool * list Z) (i : Z)
    : outcome (list str * dict Z * dict bool * list Z) :=
  let '(tokens, token_to_orig_map, token_is_max_context, segment_ids) := st in
  let split_token_index := DocSpan.start doc_span + i in
  orig <- index tok_to_orig_index split_token_index ;;
  let token_to_orig_map := setitem token_to_orig_map (len tokens) orig in
  let is_max_context :=
    _check_is_max_context doc_spans doc_span_index split_token_index in
  let token_is_max_context :=
    setitem token_is_max_context (len tokens) is_max_context in
  token <- index all_doc_tokens split_token_index ;;
  Return (tokens ++ [token], token_to_orig_map, token_is_max_context,
          segment_ids ++ [sequence_b_segment_id]).

(** The loop [while len(input_ids) < max_len] (lines 624-628), which runs
    [max_len - len(input_ids)] times when that is positive and not at all
    otherwise, over [(input_ids, input_mask, segment_ids)]. *)
Fixpoint pad_loop (k : nat) (st : list Z * list Z * list Z)
    : list Z * list Z * list Z :=
  match k with
  | O => st
  | S k' =>
      let '(input_ids, input_mask, segment_ids) := st in
      pad_loop k' (input_ids ++ [pad_token],
                   input_mask ++ [if mask_padding_with_zero then 0 else 1],
                   segment_ids ++ [pad_token_segment_id])
  end.

Definition assert (b : bool) : outcome unit :=
  if b then Return tt else Raise AssertionError.

(** Lines 634-657: [(start_position, end_position)] of a feature. *)
Definition labels_of (example : QAExample) (is_training : bool)
    (doc_span : DocSpan) (query_tokens : list str)
    (tok_start_position tok_end_position : option Z) (cls_index : Z)
    : outcome (option Z * option Z) :=
  let span_is_impossible := is_impossible example in
  '(start_position, end_position, span_is_impossible) <-
    (if is_training && negb span_is_impossible then
       let doc_start := DocSpan.start doc_span in
       let doc_end := DocSpan.start doc_span + DocSpan.length doc_span - 1 in
       tok_start_position <- as_int tok_start_position ;;
       let in_span_start := doc_start <=? tok_start_position in
       in_span <-
         (if in_span_start
          then (tok_end_position <- as_int tok_end_position ;;
                Return (tok_end_position <=? doc_end))
          else Return false) ;;
       let out_of_span := negb in_span in
       if out_of_span then Return (Some 0, Some 0, true)
       else
         tok_end_position <- as_int tok_end_position ;;
         let doc_offset := len query_tokens + 2 in
         Return (Some (tok_start_position - doc_start + doc_offset),
                 Some (tok_end_position - doc_start + doc_offset),
                 span_is_impossible)
     else Return (None, None, span_is_impossible)) ;;
  if is_training && span_is_impossible
  then Return (Some cls_index, Some cls_index)
  else Return (start_position, end_position).

(** The body of [for (doc_span_index, doc_span) in enumerate(doc_spans)]
    (lines 565-672) over [(unique_id, features)]. The list [p_mask] is
    built by the source and never read; it is left out. *)
Definition feature_step (example_index : Z) (example : QAExample)
    (is_training : bool) (max_len : Z) (query_tokens : list str)
    (tok_to_orig_index : list Z) (all_doc_tokens : list str)
    (tok_start_position tok_end_position : option Z)
    (doc_spans : list DocSpan)
    (st : Z * list QAFeatures) (item : Z * DocSpan)
    : outcome (Z * list QAFeatures) :=
  let '(unique_id, features) := st in
  let '(doc_span_index, doc_span) := item in
  (* CLS token at the beginning, query, SEP token *)
  let tokens := [cls_token] ++ query_tokens ++ [sep_token] in
  let segment_ids :=
    [cls_token_segment_id] ++ map (fun _ => sequence_a_segment_id) query_tokens
      ++ [sequence_a_segment_id] in
  let cls_index := 0 in
  (* Paragraph *)
  '(tokens, token_to_orig_map, token_is_max_context, segment_ids) <-
    for_each (range 0 (DocSpan.length doc_span))
      (paragraph_step doc_spans doc_span_index doc_span tok_to_orig_index
         all_doc_tokens)
      (tokens, [], [], segment_ids) ;;
  let paragraph_len := DocSpan.length doc_span in
  (* SEP token *)
  let tokens := tokens ++ [sep_token] in
  let segment_ids := segment_ids ++ [sequence_b_segment_id] in
  let input_ids := convert_tokens_to_ids tokenizer tokens in
  let input_mask :=
    repeat (if mask_padding_with_zero then 1 else 0) (List.length input_ids) in
  let '(input_ids, input_mask, segment_ids) :=
    pad_loop (Z.to_nat (max_len - len input_ids))
      (input_ids, input_mask, segment_ids) in
  _ <- assert (len input_ids =? max_len) ;;
  _ <- assert (len input_mask =? max_len) ;;
  _ <- assert (len segment_ids =? max_len) ;;
  '(start_position, end_position) <-
    labels_of example is_training doc_span query_tokens
      tok_start_position tok_end_position cls_index ;;
  Return (unique_id + 1,
          features ++ [
            {| unique_id := unique_id;
               example_index := example_index;
               tokens := tokens;
               token_to_orig_map := token_to_orig_map;
               token_is_max_context := token_is_max_context;
               input_ids := input_ids;
               input_mask := input_mask;
               segment_ids := segment_ids;
               paragraph_len := paragraph_len;
               f_start_position := start_position;
               f_end_position := end_position |}]).

(** The body of [for (example_index, example) in enumerate(qa_examples)]
    (lines 516-672) over [(unique_id, features)]. *)
Definition example_step (is_training : bool)
    (max_query_length max_len doc_stride : Z)
    (st : Z * list QAFeatures) (item : Z * QAExample)
    : outcome (Z * list QAFeatures) :=
  let '(example_index, example) := item in
  let query_tokens := query_tokens_of (question_text example) max_query_length in
  let '(tok_to_orig_index, orig_to_tok_index, all_doc_tokens) :=
    subtokens_of (doc_tokens example) in
  '(tok_start_position, tok_end_position) <-
    tok_positions_of example is_training orig_to_tok_index all_doc_tokens ;;
  (* The -3 accounts for [CLS], [SEP] and [SEP] *)
  let max_tokens_for_doc := max_len - len query_tokens - 3 in
  doc_spans <- doc_spans_of (len all_doc_tokens) max_tokens_for_doc doc_stride ;;
  for_each (enumerate doc_spans)
    (feature_step example_index example is_training max_len query_tokens
       tok_to_orig_index all_doc_tokens tok_start_position tok_end_position
       doc_spans)
    st.

(** Lines 341-674. *)
Definition tokenize_qa (doc_text question_text : str_or_list)
    (answer_start : list int_or_list) (answer_text : list str_or_list)
    (is_training : bool) (max_query_length max_len doc_stride : Z)
    (qa_id : option (list Z)) (is_impossible : option (list bool))
    : outcome (list QAFeatures * list QAExample) :=
  qa_examples <-
    qa_examples_of doc_text question_text answer_start answer_text
      is_training qa_id is_impossible ;;
  let unique_id := 1000000000 in
  '(_, features) <-
    for_each (enumerate qa_examples)
      (example_step is_training max_query_length max_len doc_stride)
      (unique_id, []) ;;
  Return (features, qa_examples).

End TokenizeQA.

(** ** A small tokenizer to run the pipeline on concrete inputs

    Words are separated at blanks and every punctuation character is a token
    of its own, as BERT's basic tokenizer does; the id of a token is the
    code point of its first character. *)

Module Toy.

Definition is_blank (c : N) : bool :=
  ((c =? 32) || (c =? 9) || (c =? 10) || (c =? 13))%N.

Definition is_punct (c : N) : bool :=
  ((33 <=? c) && (c <=? 47) || (58 <=? c) && (c <=? 64)
   || (91 <=? c) && (c <=? 96) || (123 <=? c) && (c <=? 126))%N.

Definition flush (cur : str) (acc : list str) : list str :=
  match cur with
  | [] => acc
  | _ :: _ => acc ++ [cur]
  end.

Fixpoint split_with (punct : bool) (s : str) (cur : str) (acc : list str)
    : list str :=
  match s with
  | [] => flush cur acc
  | c :: s' =>
      if is_blank c then split_with punct s' [] (flush cur acc)
      else if punct && is_punct c then split_with punct s' [] (flush cur acc ++ [[c]])
      else split_with punct s' (cur ++ [c]) acc
  end.

Definition token_id (t : str) : Z :=
  match t with
  | [] => 0
  | c :: _ => Z.of_N c
  end.

Definition tokenizer : BertTokenizer := {|
  tokenize := fun s => split_with true s [] [];
  convert_tokens_to_ids := map token_id;
  whitespace_tokenize := fun s => split_with false s [] []
|}.

End Toy.

(** ** The methods of [Tokenizer] for classification (lines 61-166) *)

(** A message built by [str.format]: the format string and its arguments. *)
Definition message : Type := string * list Z.

Section Classification.

Context (tokenizer : BertTokenizer).

(** The argument [text] of [Tokenizer.tokenize]: a list of strings (one
    sequence per document) or a list of tuples of strings. *)
Inductive documents :=
| Texts (text : list str)
| TextTuples (text : list (list str)).

(** Token lists, as [Tokenizer.tokenize] returns them and as
    [preprocess_classification_tokens] takes them: one list of tokens per
    document, or one list of sentences per document. *)
Inductive token_lists :=
| Sentences (tokens : list (list str))
| SentenceTuples (tokens : list (list (list str))).

(** Lines 61-78. [tqdm] iterates over its argument. *)
Definition Tokenizer_tokenize (text : documents) : outcome token_lists :=
  match text with
  | Texts text =>
      _ <- index text 0 ;;
      Return (Sentences (map (tokenize tokenizer) text))
  | TextTuples text =>
      _ <- index text 0 ;;
      Return (SentenceTuples (map (map (tokenize tokenizer)) text))
  end.

(** [l.pop()] *)
Definition pop {A} (l : list A) : outcome (list A) :=
  match l with
  | [] => Raise IndexError
  | _ :: _ => Return (removelast l)
  end.

(** The loop [while True] of [_truncate_seq_pair] (lines 87-94), run for at
    most [fuel] iterations. *)
Fixpoint truncate_loop (fuel : nat) (tokens_a tokens_b : list str)
    (max_length : Z) : outcome (list str * list str) :=
  match fuel with
  | O => Diverge
  | S fuel' =>
      let total_length := len tokens_a + len tokens_b in
      if total_length <=? max_length then Return (tokens_a, tokens_b)
      else if len tokens_a >? len tokens_b then
        tokens_a <- pop tokens_a ;;
        truncate_loop fuel' tokens_a tokens_b max_length
      else
        tokens_b <- pop tokens_b ;;
        truncate_loop fuel' tokens_a tokens_b max_length
  end.

(** Lines 80-99. The two lists are modified in place and returned; the
    model gives their new values, for two lists that are distinct objects.
    Every iteration that goes on removes a token, so the loop has ended
    after [len(tokens_a) + len(tokens_b) + 1] iterations
    ([truncate_loop_ends] below). *)
Definition _truncate_seq_pair (tokens_a tokens_b : list str) (max_length : Z)
    : outcome (list str * list str) :=
  '(tokens_a, tokens_b) <-
    truncate_loop (S (List.length tokens_a + List.length tokens_b))
      tokens_a tokens_b max_length ;;
  Return (tokens_a ++ [lit "[SEP]"], tokens_b ++ [lit "[SEP]"]).

(** A list comprehension whose element may raise. *)
Fixpoint for_list {A B} (l : list A) (body : A -> outcome B)
    : outcome (list B) :=
  match l with
  | [] => Return []
  | x :: l' => y <- body x ;; ys <- for_list l' body ;; Return (y :: ys)
  end.

(** [x + [0] * (max_len - len(x))]: a list times a negative number is
    empty. *)
Definition pad_to (max_len : Z) (x : list Z) : list Z :=
  x ++ repeat 0 (Z.to_nat (max_len - len x)).

(** Lines 101-166: what is printed, and the outcome
    [(tokens, input_mask, token_type_ids)]. *)
Definition preprocess_classification_tokens (tokens : token_lists)
    (max_len : Z)
    : list message
      * outcome (list (list Z) * list (list Z) * option (list (list Z))) :=
  let '(printed, max_len) :=
    if max_len >? BERT_MAX_LEN
    then ([("setting max_len to max allowed tokens: {}"%string,
            [BERT_MAX_LEN])],
          BERT_MAX_LEN)
    else ([], max_len) in
  (printed,
   '(tokens, token_type_ids) <-
     match tokens with
     | Sentences tokens =>
         (* isinstance(tokens[0][0], str) *)
         first <- index tokens 0 ;;
         _ <- index first 0 ;;
         Return (map (fun x => slice x 0 (max_len - 2) ++ [lit "[SEP]"])
                     tokens,
                 None)
     | SentenceTuples tokens =>
         first <- index tokens 0 ;;
         _ <- index first 0 ;;
         (* get tokens for each sentence *)
         tokens <-
           for_list tokens (fun sentence =>
             tokens_a <- index sentence 0 ;;
             tokens_b <- index sentence 1 ;;
             '(tokens_a, tokens_b) <-
               _truncate_seq_pair tokens_a tokens_b (max_len - 3) ;;
             Return [tokens_a; tokens_b]) ;;
         (* construct token_type_ids *)
         let token_type_ids :=
           map (fun example =>
                  map (fun '(i, sentence) => repeat i (List.length sentence))
                      (enumerate example))
               tokens in
         (* merge sentences *)
         let tokens := map (@List.concat str) tokens in
         (* prefix with [0] for [CLS] *)
         let token_type_ids :=
           map (fun example => [0] ++ List.concat example) token_type_ids in
         (* pad sequence *)
         let token_type_ids := map (pad_to max_len) token_type_ids in
         Return (tokens, Some token_type_ids)
     end ;;
   let tokens := map (fun x => [lit "[CLS]"] ++ x) tokens in
   (* convert tokens to indices *)
   let tokens := map (convert_tokens_to_ids tokenizer) tokens in
   (* pad sequence *)
   let tokens := map (pad_to max_len) tokens in
   (* create input mask *)
   let input_mask := map (map (Z.min 1)) tokens in
   Return (tokens, input_mask, token_type_ids)).

End Classification.

(** ** [tokenize_ner] (lines 168-339) *)

(** What [tokenize_ner] can raise: [ValueError] with its message,
    [KeyError] with the missing key, or an exception of [exn]. *)
Inductive exception :=
| ValueError (msg : message)
| KeyError (key : str)
| Other (e : exn).

(** [tokenize_ner] has no [while] loop: a call returns or raises. *)
Inductive result (A : Type) :=
| Returned (a : A)
| Raised (e : exception).
Arguments Returned {A} a.
Arguments Raised {A} e.

Definition result_bind {A B} (m : result A) (k : A -> result B) : result B :=
  match m with
  | Returned a => k a
  | Raised e => Raised e
  end.

Declare Scope result_scope.
Notation "x <- m ;; k" := (result_bind m (fun x => k))
  (at level 61, m at next level, right associativity) : result_scope.
Notation "' p <- m ;; k" := (result_bind m (fun p => k))
  (at level 61, p pattern, m at next level, right associativity)
  : result_scope.

(** The argument [text], and the argument [labels] when it is given: a
    string, one list of strings, or a list of lists of strings. *)
Inductive word_lists :=
| OneString (s : str)
| OneList (l : list str)
| Lists (l : list (list str)).

(** A number of Python: an [int] or a [float]. *)
Inductive number :=
| IntNum (z : Z)
| FloatNum (q : Q).

(** The labels of a row: ids when a [label_map] is given, tags otherwise. *)
Inductive label_row :=
| LabelIds (ids : list Z)
| LabelTags (tags : list str).

(** A [dict] with string keys, in insertion order. *)
Definition str_dict (V : Type) := list (str * V).

Fixpoint str_get {V} (d : str_dict V) (k : str) : option V :=
  match d with
  | [] => None
  | (k', v) :: d' => if str_eqb k' k then Some v else str_get d' k
  end.

Section TokenizeNER.

Context (tokenizer : BertTokenizer).

Local Open Scope result_scope.

(** Lines 239-248 for [text] and 249-256 for [labels]: a string is
    refused with [ValueError], and a single list of words, whose first
    item is a string, is wrapped in a list. Reading the first item of an
    empty list raises [IndexError]. *)
Definition as_lists (refusal : string) (x : word_lists)
    : result (list (list str)) :=
  match x with
  | OneString _ => Raised (ValueError (refusal, []))
  | OneList l =>
      match getitem l 0 with
      | Some _ => Returned [l]
      | None => Raised (Other IndexError)
      end
  | Lists l =>
      match getitem l 0 with
      | Some _ => Returned l
      | None => Raised (Other IndexError)
      end
  end.

(** One iteration of [for count, sub_word in enumerate(sub_words)] over
    [(tag, new_labels, new_tokens)], when labels are given (lines 282-286). *)
Definition piece_step (trailing_piece_tag : str)
    (st : str * list str * list str) (item : Z * str)
    : str * list str * list str :=
  let '(tag, new_labels, new_tokens) := st in
  let '(count, sub_word) := item in
  let tag := if count >? 0 then trailing_piece_tag else tag in
  (tag, new_labels ++ [tag], new_tokens ++ [sub_word]).

(** One iteration of [for word, tag in zip(t, t_labels)] over
    [(new_labels, new_tokens)] (lines 280-286). *)
Definition labelled_word_step (trailing_piece_tag : str)
    (st : list str * list str) (item : str * str) : list str * list str :=
  let '(new_labels, new_tokens) := st in
  let '(word, tag) := item in
  let sub_words := tokenize tokenizer word in
  let '(_, new_labels, new_tokens) :=
    fold_left (piece_step trailing_piece_tag) (enumerate sub_words)
      (tag, new_labels, new_tokens) in
  (new_labels, new_tokens).

(** The same two loops when no labels are given (lines 288-296). *)
Definition unlabelled_piece_step (trailing_piece_tag : str)
    (st : list str * list str) (item : Z * str) : list str * list str :=
  let '(new_labels, new_tokens) := st in
  let '(count, sub_word) := item in
  let tag := if count >? 0 then trailing_piece_tag else lit "O" in
  (new_labels ++ [tag], new_tokens ++ [sub_word]).

Definition unlabelled_word_step (trailing_piece_tag : str)
    (st : list str * list str) (word : str) : list str * list str :=
  fold_left (unlabelled_piece_step trailing_piece_tag)
    (enumerate (tokenize tokenizer word)) st.

(** [[label_map[label] for label in new_labels]] (line 323) *)
Fixpoint label_ids_of (label_map : str_dict Z) (new_labels : list str)
    : result (list Z) :=
  match new_labels with
  | [] => Returned []
  | label :: rest =>
      match str_get label_map label with
      | Some id => ids <- label_ids_of label_map rest ;; Returned (id :: ids)
      | None => Raised (KeyError label)
      end
  end.

(** [if label_map:] (line 322): a dict that is [None] or empty is false. *)
Definition truthy {V} (label_map : option (str_dict V)) : option (str_dict V) :=
  match label_map with
  | Some (_ :: _) => label_map
  | _ => None
  end.

(** The body of [for t, t_labels in zip(text, labels)] (lines 268-329) over
    [(input_ids_all, input_mask_all, label_ids_all,
    trailing_token_mask_all)]. *)
Definition sentence_step (max_len : Z) (label_available : bool)
    (label_map : option (str_dict Z)) (trailing_piece_tag : str)
    (st : list (list number) * list (list number) * list label_row
          * list (list bool))
    (item : list str * list str)
    : result (list (list number) * list (list number) * list label_row
              * list (list bool)) :=
  let '(input_ids_all, input_mask_all, label_ids_all,
        trailing_token_mask_all) := st in
  let '(t, t_labels) := item in
  if negb (len t =? len t_labels) then
    Raised (ValueError
              ("The number of words is {0}, but the number of labels is {1}."%string,
               [len t; len t_labels]))
  else
    let '(new_labels, new_tokens) :=
      if label_available
      then fold_left (labelled_word_step trailing_piece_tag)
             (combine t t_labels) ([], [])
      else fold_left (unlabelled_word_step trailing_piece_tag) t ([], []) in
    let '(new_tokens, new_labels) :=
      if len new_tokens >? max_len
      then (slice new_tokens 0 max_len, slice new_labels 0 max_len)
      else (new_tokens, new_labels) in
    let input_ids := map IntNum (convert_tokens_to_ids tokenizer new_tokens) in
    (* The mask has 1 for real tokens and 0 for padding tokens. *)
    let input_mask := repeat (FloatNum 1) (List.length input_ids) in
    (* Zero-pad up to the max sequence length. *)
    let padding := repeat (FloatNum 0) (Z.to_nat (max_len - len input_ids)) in
    let label_padding :=
      repeat (lit "O") (Z.to_nat (max_len - len input_ids)) in
    let input_ids := input_ids ++ padding in
    let input_mask := input_mask ++ padding in
    let new_labels := new_labels ++ label_padding in
    let trailing_token_mask_all :=
      trailing_token_mask_all
        ++ [map (fun label => negb (str_eqb label trailing_piece_tag))
                new_labels] in
    label_ids <-
      match truthy label_map with
      | Some label_map =>
          ids <- label_ids_of label_map new_labels ;; Returned (LabelIds ids)
      | None => Returned (LabelTags new_labels)
      end ;;
    Returned (input_ids_all ++ [input_ids], input_mask_all ++ [input_mask],
              label_ids_all ++ [label_ids], trailing_token_mask_all).

(** A [for] loop over a state that may raise. *)
Fixpoint for_each_result {A S} (l : list A) (body : S -> A -> result S)
    (s : S) : result S :=
  match l with
  | [] => Returned s
  | x :: l' => s' <- body s x ;; for_each_result l' body s'
  end.

(** Lines 168-339: what [warnings.warn] is given, and the outcome
    [(input_ids_all, input_mask_all, trailing_token_mask_all,
    label_ids_all)]. *)
Definition tokenize_ner (text : word_lists) (max_len : Z)
    (labels : option word_lists) (label_map : option (str_dict Z))
    (trailing_piece_tag : str)
    : list message
      * result (list (list number) * list (list number) * list (list bool)
                * option (list label_row)) :=
  let '(warned, max_len) :=
    if max_len >? BERT_MAX_LEN
    then ([("setting max_len to max allowed tokens: {}"%string,
            [BERT_MAX_LEN])],
          BERT_MAX_LEN)
    else ([], max_len) in
  (warned,
   text <- as_lists "Input text must be an iterable and not a string." text ;;
   labels <-
     match labels with
     | Some labels =>
         labels <-
           as_lists "labels must be an iterable and not a string." labels ;;
         Returned (Some labels)
     | None => Returned None
     end ;;
   let label_available :=
     match labels with Some _ => true | None => false end in
   let labels :=
     match labels with
     | Some labels => labels
     | None =>
         (* an artificial label list for the trailing token mask *)
         map (fun t => repeat (lit "O") (List.length t)) text
     end in
   '(input_ids_all, input_mask_all, label_ids_all, trailing_token_mask_all) <-
     for_each_result (combine text labels)
       (sentence_step max_len label_available label_map trailing_piece_tag)
       ([], [], [], []) ;;
   if label_available
   then Returned (input_ids_all, input_mask_all, trailing_token_mask_all,
                  Some label_ids_all)
   else Returned (input_ids_all, input_mask_all, trailing_token_mask_all,
                  None)).

End TokenizeNER.

(** * Properties *)

(** ** The sliding-window loop *)

(** [position] lies inside [doc_span]. *)
Definition in_span (doc_span : DocSpan) (position : Z) : Prop :=
  DocSpan.start doc_span <= position
  <= DocSpan.start doc_span + DocSpan.length doc_span - 1.

(** What the sliding-window generator promises for a document of [n]
    tokens: the first span starts at 0, every span is as long as what
    remains, up to [max_tokens_for_doc], consecutive starts advance by
    [min(span_length, doc_stride)], only the final span reaches [n], it
    ends at [n], and the spans cover exactly [0, n). *)
Definition window_spec (n max_tokens_for_doc doc_stride : Z)
    (doc_spans : list DocSpan) : Prop :=
  (exists first rest, doc_spans = first :: rest /\ DocSpan.start first = 0)
  /\ (forall sp, In sp doc_spans ->
        DocSpan.length sp = Z.min (n - DocSpan.start sp) max_tokens_for_doc)
  /\ (forall i a b,
        nth_error doc_spans i = Some a -> nth_error doc_spans (S i) = Some b ->
        DocSpan.start b = DocSpan.start a + Z.min (DocSpan.length a) doc_stride)
  /\ (exists front final,
        doc_spans = front ++ [final]
        /\ DocSpan.start final + DocSpan.length final = n
        /\ forall sp, In sp front -> DocSpan.start sp + DocSpan.length sp < n)
  /\ (forall p, 0 <= p < n <-> exists sp, In sp doc_spans /\ in_span sp p).

Section WindowFacts.

Variables (n mtd stride : Z).

Lemma window_step_unfold (s : Z) (acc : list DocSpan) :
  window_step n mtd stride (s, acc) =
    if s <? n then
      if s + Z.min (n - s) mtd =? n
      then inr (acc ++ [DocSpan.mk s (Z.min (n - s) mtd)])
      else inl (s + Z.min (Z.min (n - s) mtd) stride,
                acc ++ [DocSpan.mk s (Z.min (n - s) mtd)])
    else inr acc.
Proof.
  unfold window_step.
  destruct (s <? n); [|reflexivity].
  assert (E : (if n - s >? mtd then mtd else n - s) = Z.min (n - s) mtd).
  { destruct (Z.gtb_spec (n - s) mtd); lia. }
  rewrite E. reflexivity.
Qed.

Lemma window_loop_more_fuel (fuel : nat) :
  forall st spans extra,
    window_loop n mtd stride fuel st = Some spans ->
    window_loop n mtd stride (fuel + extra) st = Some spans.
Proof.
  induction fuel as [|fuel IH]; intros st spans extra H; simpl in *.
  - discriminate.
  - destruct (window_step n mtd stride st) as [st'|r]; auto.
Qed.

(** The spans emitted from [start_offset = s] on, when the window and the
    stride are positive. *)
Inductive window_chain : Z -> list DocSpan -> Prop :=
| chain_last s :
    0 <= s < n -> n - s <= mtd -> window_chain s [DocSpan.mk s (n - s)]
| chain_more s rest :
    0 <= s -> mtd < n - s ->
    window_chain (s + Z.min mtd stride) rest ->
    window_chain s (DocSpan.mk s mtd :: rest).

Lemma window_loop_chain (Hm : 0 < mtd) (Hs : 0 < stride) (fuel : nat) :
  forall s acc,
    0 <= s < n -> (Z.to_nat (n - s) <= fuel)%nat ->
    exists spans,
      window_loop n mtd stride fuel (s, acc) = Some (acc ++ spans)
      /\ window_chain s spans.
Proof.
  induction fuel as [|fuel IH]; intros s acc Hr Hf.
  - lia.
  - cbn [window_loop]. rewrite window_step_unfold.
    destruct (Z.ltb_spec s n); [|lia].
    destruct (Z.eqb_spec (s + Z.min (n - s) mtd) n) as [E|E].
    + exists [DocSpan.mk s (n - s)].
      replace (Z.min (n - s) mtd) with (n - s) by lia.
      split; [reflexivity|]. constructor; lia.
    + assert (Hlt : mtd < n - s) by lia.
      replace (Z.min (n - s) mtd) with mtd by lia.
      destruct (IH (s + Z.min mtd stride) (acc ++ [DocSpan.mk s mtd]))
        as (spans & Hl & Hc); [lia|lia|].
      exists (DocSpan.mk s mtd :: spans). rewrite Hl, <- app_assoc. simpl.
      split; [reflexivity|]. constructor; [lia|lia|exact Hc].
Qed.

(** With no room for a document token the loop never leaves: every span it
    appends has the length [max_tokens_for_doc], and [start_offset] does not
    grow. *)
Lemma window_loop_stuck_window (Hm : mtd <= 0) (fuel : nat) :
  forall s acc, s < n -> window_loop n mtd stride fuel (s, acc) = None.
Proof.
  induction fuel as [|fuel IH]; intros s acc Hs; [reflexivity|].
  cbn [window_loop]. rewrite window_step_unfold.
  destruct (Z.ltb_spec s n); [|lia].
  destruct (Z.eqb_spec (s + Z.min (n - s) mtd) n); [lia|].
  apply IH. lia.
Qed.

(** With a stride that is not positive and a document longer than the
    window, the loop never leaves either. *)
Lemma window_loop_stuck_stride (Hm : 0 < mtd) (Hs : stride <= 0)
    (Hn : mtd < n) (fuel : nat) :
  forall s acc, s <= 0 -> window_loop n mtd stride fuel (s, acc) = None.
Proof.
  induction fuel as [|fuel IH]; intros s acc Hs0; [reflexivity|].
  cbn [window_loop]. rewrite window_step_unfold.
  destruct (Z.ltb_spec s n); [|lia].
  destruct (Z.eqb_spec (s + Z.min (n - s) mtd) n); [lia|].
  apply IH. lia.
Qed.

(** [n + 1] evaluations of the loop condition decide whether the loop
    leaves: [doc_spans_of] says [Diverge] only for a loop that never leaves. *)
Lemma window_loop_complete :
  window_loop n mtd stride (S (Z.to_nat n)) (0, []) = None ->
  forall fuel, window_loop n mtd stride fuel (0, []) = None.
Proof.
  intros H fuel.
  destruct (Z_le_gt_dec n 0) as [Hn|Hn].
  { cbn [window_loop] in H. rewrite window_step_unfold in H.
    destruct (Z.ltb_spec 0 n); [lia|discriminate]. }
  destruct (Z_le_gt_dec mtd 0) as [Hm|Hm].
  { apply window_loop_stuck_window; lia. }
  destruct (Z_le_gt_dec stride 0) as [Hs|Hs].
  - destruct (Z_le_gt_dec n mtd) as [Hnm|Hnm].
    + cbn [window_loop] in H. rewrite window_step_unfold in H.
      destruct (Z.ltb_spec 0 n); [|lia].
      destruct (Z.eqb_spec (0 + Z.min (n - 0) mtd) n); [discriminate|lia].
    + apply window_loop_stuck_stride; lia.
  - destruct (window_loop_chain ltac:(lia) ltac:(lia) (S (Z.to_nat n)) 0 [])
      as (spans & Hl & _); [lia|lia|].
    rewrite Hl in H. discriminate.
Qed.

Lemma doc_spans_of_return (spans : list DocSpan) :
  doc_spans_of n mtd stride = Return spans <->
  exists fuel, window_loop n mtd stride fuel (0, []) = Some spans.
Proof.
  unfold doc_spans_of. split.
  - destruct (window_loop n mtd stride (S (Z.to_nat n)) (0, [])) eqn:E;
      [|discriminate].
    intros [= ->]. eauto.
  - intros [fuel Hf].
    destruct (window_loop n mtd stride (S (Z.to_nat n)) (0, [])) eqn:E.
    + apply window_loop_more_fuel with (extra := fuel) in E.
      apply window_loop_more_fuel with (extra := S (Z.to_nat n)) in Hf.
      rewrite Nat.add_comm in Hf. congruence.
    + rewrite (window_loop_complete E fuel) in Hf. discriminate.
Qed.

Lemma doc_spans_of_diverge :
  doc_spans_of n mtd stride = Diverge <->
  forall fuel, window_loop n mtd stride fuel (0, []) = None.
Proof.
  unfold doc_spans_of. split.
  - destruct (window_loop n mtd stride (S (Z.to_nat n)) (0, [])) eqn:E;
      [discriminate|].
    intros _. now apply window_loop_complete.
  - intros H. now rewrite H.
Qed.

Lemma chain_head s spans :
  window_chain s spans -> exists sp rest, spans = sp :: rest /\ DocSpan.start sp = s.
Proof. destruct 1; eauto. Qed.

Lemma chain_lengths s spans :
  window_chain s spans ->
  forall sp, In sp spans -> DocSpan.length sp = Z.min (n - DocSpan.start sp) mtd.
Proof.
  induction 1 as [s Hs Hn|s rest Hs Hn Hc IH]; intros sp [<-|Hin]; simpl;
    try lia; try contradiction; auto.
Qed.

Lemma chain_steps s spans :
  window_chain s spans ->
  forall i a b,
    nth_error spans i = Some a -> nth_error spans (S i) = Some b ->
    DocSpan.start b = DocSpan.start a + Z.min (DocSpan.length a) stride.
Proof.
  induction 1 as [s Hs Hn|s rest Hs Hn Hc IH]; intros i a b Ha Hb.
  - destruct i as [|[|i]]; discriminate.
  - destruct i as [|i].
    + injection Ha as <-. simpl in Hb |- *.
      destruct (chain_head _ _ Hc) as (sp & rest' & -> & E).
      injection Hb as <-. exact E.
    + simpl in Ha, Hb. eauto.
Qed.

Lemma chain_final s spans :
  window_chain s spans ->
  exists front final,
    spans = front ++ [final]
    /\ DocSpan.start final + DocSpan.length final = n
    /\ forall sp, In sp front -> DocSpan.start sp + DocSpan.length sp < n.
Proof.
  induction 1 as [s Hs Hn|s rest Hs Hn Hc (front & final & -> & Hf & Hlt)].
  - exists [], (DocSpan.mk s (n - s)). simpl. repeat split; [lia|tauto].
  - exists (DocSpan.mk s mtd :: front), final. repeat split; [exact Hf|].
    intros sp [<-|Hin]; [simpl; lia|auto].
Qed.

Lemma chain_cover (Hm : 0 < mtd) (Hs : 0 < stride) s spans :
  window_chain s spans ->
  forall p, s <= p < n <-> exists sp, In sp spans /\ in_span sp p.
Proof.
  unfold in_span.
  induction 1 as [s Hr Hn|s rest Hr Hn Hc IH]; intros p; split.
  - intros Hp. exists (DocSpan.mk s (n - s)). simpl. split; [auto|lia].
  - intros (sp & [<-|[]] & Hin). simpl in Hin. lia.
  - intros Hp. destruct (Z_lt_ge_dec p (s + Z.min mtd stride)) as [Hlt|Hge].
    + exists (DocSpan.mk s mtd). simpl. split; [auto|lia].
    + destruct (proj1 (IH p)) as (sp & Hin & Hsp); [lia|].
      exists sp. simpl. auto.
  - intros (sp & [<-|Hin] & Hsp).
    + simpl in Hsp. lia.
    + assert (s + Z.min mtd stride <= p < n) by (apply IH; eauto). lia.
Qed.

Lemma chain_spec (Hm : 0 < mtd) (Hs : 0 < stride) spans :
  window_chain 0 spans -> window_spec n mtd stride spans.
Proof.
  intros Hc. unfold window_spec. split; [|split; [|split; [|split]]].
  - destruct (chain_head _ _ Hc) as (sp & rest & -> & E); eauto.
  - now apply chain_lengths with (s := 0).
  - now apply chain_steps with (s := 0).
  - now apply chain_final with (s := 0).
  - apply (chain_cover Hm Hs _ _ Hc).
Qed.

End WindowFacts.

(** C2 (as amended): for every document length [n > 0], every
    [max_tokens_for_doc > 0] and every [doc_stride > 0], the sliding-window
    loop leaves, and the spans it returns start at offset 0, have the length
    [min(remaining, max_tokens_for_doc)] each, advance by
    [min(span_length, doc_stride)], cover exactly [0, n), and end at [n]
    with the final span and with no span before it. *)
Theorem sliding_window_covers (n max_tokens_for_doc doc_stride : Z) :
  0 < n -> 0 < max_tokens_for_doc -> 0 < doc_stride ->
  exists doc_spans,
    doc_spans_of n max_tokens_for_doc doc_stride = Return doc_spans
    /\ window_spec n max_tokens_for_doc doc_stride doc_spans.
Proof.
  intros Hn Hm Hs.
  destruct (window_loop_chain n _ _ Hm Hs (S (Z.to_nat n)) 0 [])
    as (spans & Hl & Hc); [lia|lia|].
  exists spans. split.
  - unfold doc_spans_of. now rewrite Hl.
  - now apply chain_spec.
Qed.

Lemma sliding_window_covers_witness :
  exists doc_spans,
    doc_spans_of 10 4 3 = Return doc_spans
    /\ window_spec 10 4 3 doc_spans.
Proof. apply (sliding_window_covers 10 4 3); lia. Defined.

(** C2 (as stated) fails when [doc_stride] is 0: on a document of two
    tokens with one token per window, [start_offset] stays at 0 and the
    loop never leaves, so there is no final span. *)
Lemma sliding_window_zero_stride_never_returns :
  ~ (exists fuel doc_spans,
       window_loop 2 1 0 fuel (0, []) = Some doc_spans
       /\ window_spec 2 1 0 doc_spans).
Proof.
  intros (fuel & spans & H & _).
  rewrite window_loop_stuck_stride in H; [discriminate|lia..].
Qed.

(** With no room for a document token ([max_tokens_for_doc <= 0]) and a
    document that is not empty, the loop never leaves, and the first span
    it appends has the length [max_tokens_for_doc]. *)
Lemma window_overflow_diverges (n max_tokens_for_doc doc_stride : Z) :
  0 < n -> max_tokens_for_doc <= 0 ->
  doc_spans_of n max_tokens_for_doc doc_stride = Diverge
  /\ window_state n max_tokens_for_doc doc_stride 1 (0, [])
     = Some (Z.min max_tokens_for_doc doc_stride,
             [DocSpan.mk 0 max_tokens_for_doc]).
Proof.
  intros Hn Hm. split.
  - apply doc_spans_of_diverge. intros fuel.
    apply window_loop_stuck_window; lia.
  - cbn [window_state]. rewrite window_step_unfold.
    destruct (Z.ltb_spec 0 n); [|lia].
    destruct (Z.eqb_spec (0 + Z.min (n - 0) max_tokens_for_doc) n); [lia|].
    replace (Z.min (n - 0) max_tokens_for_doc) with max_tokens_for_doc by lia.
    reflexivity.
Qed.

(** ** The max-context resolver *)

(** The span at an index of [doc_spans], for an index in range. *)
Definition span_at (doc_spans : list DocSpan) (i : Z) : option DocSpan :=
  if i <? 0 then None else nth_error doc_spans (Z.to_nat i).

Lemma combine_app_eq_length {A B} (l1 l2 : list A) (k1 k2 : list B) :
  List.length l1 = List.length k1 ->
  combine (l1 ++ l2) (k1 ++ k2) = combine l1 k1 ++ combine l2 k2.
Proof.
  revert k1. induction l1 as [|a l1 IH]; intros [|b k1] H; try discriminate.
  - reflexivity.
  - simpl. f_equal. apply IH. now injection H.
Qed.

Lemma enumerate_snoc {A} (l : list A) (x : A) :
  enumerate (l ++ [x]) = enumerate l ++ [(len l, x)].
Proof.
  unfold enumerate, len.
  rewrite length_app, Nat.add_comm. simpl List.length. rewrite seq_S, map_app.
  rewrite combine_app_eq_length by now rewrite length_map, length_seq.
  reflexivity.
Qed.

Lemma span_at_snoc (l : list DocSpan) (x : DocSpan) (j : Z) :
  span_at (l ++ [x]) j =
    if j =? len l then Some x else span_at l j.
Proof.
  unfold span_at, len.
  destruct (Z.ltb_spec j 0).
  - destruct (Z.eqb_spec j (Z.of_nat (List.length l))); [lia|reflexivity].
  - destruct (Z.eqb_spec j (Z.of_nat (List.length l))) as [->|Hne].
    + rewrite Nat2Z.id, nth_error_app2, Nat.sub_diag by lia. reflexivity.
    + destruct (Nat.lt_ge_cases (Z.to_nat j) (List.length l)).
      * now rewrite nth_error_app1.
      * rewrite (proj2 (nth_error_None l _)) by lia.
        apply nth_error_None. rewrite length_app. simpl. lia.
Qed.

Lemma span_at_range (l : list DocSpan) (j : Z) (sp : DocSpan) :
  span_at l j = Some sp -> 0 <= j < len l /\ In sp l.
Proof.
  unfold span_at, len. destruct (Z.ltb_spec j 0); [discriminate|].
  intros Hnth. split.
  - assert (Z.to_nat j < List.length l)%nat
      by (apply nth_error_Some; congruence). lia.
  - eapply nth_error_In; eauto.
Qed.

Section MaxContext.

Context {fl : PyFloat}.
Variable position : Z.

(** The state of the loop of [_check_is_max_context] after the spans [l]. *)
Definition best_after (l : list DocSpan) : option F * option Z :=
  fold_left (max_context_step position) (enumerate l) (None, None).

Lemma best_after_snoc (l : list DocSpan) (x : DocSpan) :
  best_after (l ++ [x]) = max_context_step position (best_after l) (len l, x).
Proof.
  unfold best_after. now rewrite enumerate_snoc, fold_left_app.
Qed.

Lemma max_context_step_unfold (best : option F * option Z) (i : Z)
    (x : DocSpan) :
  max_context_step position best (i, x) =
    if (DocSpan.start x <=? position)
       && (position <=? DocSpan.start x + DocSpan.length x - 1)
    then match fst best with
         | None => (Some (span_score x position), Some i)
         | Some best_score =>
             if fgt (span_score x position) best_score
             then (Some (span_score x position), Some i)
             else best
         end
    else best.
Proof.
  unfold max_context_step.
  destruct (Z.ltb_spec position (DocSpan.start x)),
           (Z.leb_spec (DocSpan.start x) position); try lia; [reflexivity|].
  destruct (Z.gtb_spec position (DocSpan.start x + DocSpan.length x - 1)),
           (Z.leb_spec position (DocSpan.start x + DocSpan.length x - 1));
    try lia; reflexivity.
Qed.

Lemma in_span_dec (x : DocSpan) :
  (DocSpan.start x <=? position)
  && (position <=? DocSpan.start x + DocSpan.length x - 1) = true
  <-> in_span x position.
Proof. unfold in_span. rewrite andb_true_iff, !Z.leb_le. tauto. Qed.

(** What the loop holds after the spans [l]: nothing when no span contains
    the position, and otherwise the index and the score of one that does. *)
Definition best_is (l : list DocSpan) (best : option F * option Z) : Prop :=
  match best with
  | (None, None) =>
      forall j sp, span_at l j = Some sp -> ~ in_span sp position
  | (Some s, Some b) =>
      exists sp, span_at l b = Some sp /\ in_span sp position
                 /\ s = span_score sp position
  | _ => False
  end.

Lemma best_after_is (l : list DocSpan) : best_is l (best_after l).
Proof.
  induction l as [|x l IH] using rev_ind.
  - intros j sp. unfold span_at. destruct (j <? 0); [discriminate|].
    now rewrite nth_error_nil.
  - rewrite best_after_snoc, max_context_step_unfold.
    destruct ((DocSpan.start x <=? position)
              && (position <=? DocSpan.start x + DocSpan.length x - 1)) eqn:Ein.
    + apply in_span_dec in Ein.
      assert (Hnew : best_is (l ++ [x]) (Some (span_score x position), Some (len l))).
      { exists x. rewrite span_at_snoc, Z.eqb_refl. auto. }
      destruct (best_after l) as [[s|] [b|]]; simpl in IH |- *;
        try contradiction; auto.
      destruct (fgt (span_score x position) s); [exact Hnew|].
      destruct IH as (sp & Hat & Hin & Hs). exists sp.
      rewrite span_at_snoc.
      destruct (Z.eqb_spec b (len l)); [|auto].
      apply span_at_range in Hat. lia.
    + assert (Hout : ~ in_span x position).
      { rewrite <- in_span_dec, Ein. discriminate. }
      destruct (best_after l) as [[s|] [b|]]; simpl in IH |- *;
        try contradiction.
      * destruct IH as (sp & Hat & Hin & Hs). exists sp.
        rewrite span_at_snoc.
        destruct (Z.eqb_spec b (len l)); [|auto].
        apply span_at_range in Hat. lia.
      * intros j sp. rewrite span_at_snoc.
        destruct (j =? len l); [intros [= <-]; exact Hout|apply IH].
Qed.

Lemma check_is_max_context_best (l : list DocSpan) (cur : Z) :
  _check_is_max_context l cur position = true <->
  snd (best_after l) = Some cur.
Proof.
  unfold _check_is_max_context, best_span_index. fold (best_after l).
  destruct (snd (best_after l)) as [b|].
  - rewrite Z.eqb_eq. split; [now intros ->|now intros [= ->]].
  - split; discriminate.
Qed.



(** The comparison [>] orders the scores of the spans that contain the
    position: it is transitive, and a score strictly above another is
    strictly above, or strictly below, any third one. This is so for
    floats that are numbers. *)
Definition score_order (l : list DocSpan) : Prop :=
  forall a b c,
    In a l -> In b l -> In c l ->
    in_span a position -> in_span b position -> in_span c position ->
    let sa := span_score a position in
    let sb := span_score b position in
    let sc := span_score c position in
    (fgt sa sb = true -> fgt sb sc = true -> fgt sa sc = true)
    /\ (fgt sa sc = true -> fgt sa sb = true \/ fgt sb sc = true).

Lemma score_order_prefix (l : list DocSpan) (x : DocSpan) :
  score_order (l ++ [x]) -> score_order l.
Proof.
  intros H a b c Ha Hb Hc. apply H; apply in_or_app; auto.
Qed.

(** The span at [cur] contains the position, its score is strictly greater
    than the score of every earlier span that contains the position, and no
    later span that contains the position has a strictly greater score: it
    is the first of the spans with the best score. *)
Definition first_best (l : list DocSpan) (cur : Z) : Prop :=
  exists sp,
    span_at l cur = Some sp /\ in_span sp position
    /\ forall j sp', span_at l j = Some sp' -> in_span sp' position ->
         (j < cur -> fgt (span_score sp position) (span_score sp' position) = true)
         /\ (cur < j -> fgt (span_score sp' position) (span_score sp position) = false).

(** The span at [cur] has a score strictly greater than the score of every
    other span that contains the position. *)
Definition strictly_best (l : list DocSpan) (cur : Z) : Prop :=
  exists sp,
    span_at l cur = Some sp
    /\ forall j sp', j <> cur -> span_at l j = Some sp' -> in_span sp' position ->
         fgt (span_score sp position) (span_score sp' position) = true.

Lemma best_after_first (l : list DocSpan) :
  score_order l ->
  forall b, snd (best_after l) = Some b -> first_best l b.
Proof.
  induction l as [|x l IH] using rev_ind; intros Hord b.
  - discriminate.
  - pose proof (best_after_is l) as Hl.
    specialize (IH (score_order_prefix _ _ Hord)).
    assert (Hx : In x (l ++ [x])) by (apply in_or_app; simpl; auto).
    rewrite best_after_snoc, max_context_step_unfold.
    destruct ((DocSpan.start x <=? position)
              && (position <=? DocSpan.start x + DocSpan.length x - 1)) eqn:Ein.
    + apply in_span_dec in Ein.
      destruct (best_after l) as [[s|] [b0|]] eqn:E; simpl in Hl |- *;
        try contradiction.
      * destruct Hl as (sp0 & Hat0 & Hin0 & ->).
        destruct (IH b0 eq_refl) as (sp0' & Hat0' & _ & Hfirst).
        assert (sp0' = sp0) by congruence. subst sp0'.
        pose proof (span_at_range _ _ _ Hat0) as [Hb0 Hin0l].
        assert (H0l : In sp0 (l ++ [x])) by (apply in_or_app; auto).
        destruct (fgt (span_score x position) (span_score sp0 position)) eqn:Egt;
          simpl; intros [= <-].
        -- exists x. rewrite span_at_snoc, Z.eqb_refl.
           split; [reflexivity|split; [exact Ein|]].
           intros j sp' Hj Hjin. rewrite span_at_snoc in Hj.
           destruct (Z.eqb_spec j (len l)) as [->|Hne]; [split; lia|].
           pose proof (span_at_range _ _ _ Hj) as [Hjr Hinl].
           split; [intros _|lia].
           assert (Hjl : In sp' (l ++ [x])) by (apply in_or_app; auto).
           destruct (Hfirst j sp' Hj Hjin) as [Hlt Hgt].
           destruct (Z.lt_total j b0) as [Hjb|[Hjb|Hjb]].
           ++ apply (proj1 (Hord x sp0 sp' Hx H0l Hjl Ein Hin0 Hjin)); auto.
           ++ subst j. congruence.
           ++ destruct (proj2 (Hord x sp' sp0 Hx Hjl H0l Ein Hjin Hin0) Egt)
                as [Hok|Hbad]; [exact Hok|].
              rewrite (Hgt Hjb) in Hbad. discriminate.
        -- exists sp0. rewrite span_at_snoc.
           destruct (Z.eqb_spec b0 (len l)); [lia|].
           split; [exact Hat0|split; [exact Hin0|]].
           intros j sp' Hj Hjin. rewrite span_at_snoc in Hj.
           destruct (Z.eqb_spec j (len l)) as [->|Hne].
           ++ injection Hj as <-. split; [lia|intros _; exact Egt].
           ++ now apply Hfirst.
      * simpl. intros [= <-].
        exists x. rewrite span_at_snoc, Z.eqb_refl.
        split; [reflexivity|split; [exact Ein|]].
        intros j sp' Hj Hjin. rewrite span_at_snoc in Hj.
        destruct (Z.eqb_spec j (len l)) as [->|Hne]; [split; lia|].
        exfalso. eapply Hl; eauto.
    + assert (Hout : ~ in_span x position).
      { rewrite <- in_span_dec, Ein. discriminate. }
      intros Hb. destruct (IH b Hb) as (sp & Hat & Hin & Hfirst).
      pose proof (span_at_range _ _ _ Hat) as [Hbr _].
      exists sp. rewrite span_at_snoc.
      destruct (Z.eqb_spec b (len l)); [lia|].
      split; [exact Hat|split; [exact Hin|]].
      intros j sp' Hj Hjin. rewrite span_at_snoc in Hj.
      destruct (Z.eqb_spec j (len l)); [|now apply Hfirst].
      injection Hj as <-. contradiction.
Qed.

Lemma first_best_unique (l : list DocSpan) (b cur : Z) :
  first_best l b -> first_best l cur -> cur = b.
Proof.
  intros (spb & Hatb & Hinb & Hb) (spc & Hatc & Hinc & Hc).
  destruct (Z.lt_total cur b) as [Hlt|[Heq|Hgt]]; [|exact Heq|].
  - pose proof (proj1 (Hb cur spc Hatc Hinc) Hlt) as H1.
    pose proof (proj2 (Hc b spb Hatb Hinb) Hlt) as H2. congruence.
  - pose proof (proj2 (Hb cur spc Hatc Hinc) Hgt) as H1.
    pose proof (proj1 (Hc b spb Hatb Hinb) Hgt) as H2. congruence.
Qed.

End MaxContext.

(** Exact arithmetic orders all scores. *)
Lemma exact_fgt (x y : Q) : fgt (PyFloat := exact) x y = true <-> (y < x)%Q.
Proof.
  simpl. rewrite negb_true_iff. split.
  - intros H. apply Qnot_le_lt. intros Hle.
    apply Qle_bool_iff in Hle. congruence.
  - intros H. destruct (Qle_bool x y) eqn:E; [|reflexivity].
    apply Qle_bool_iff in E. destruct (Qlt_not_le _ _ H E).
Qed.

Lemma exact_score_order (position : Z) (l : list DocSpan) :
  score_order (fl := exact) position l.
Proof.
  intros a b c _ _ _ _ _ _ sa sb sc. rewrite !exact_fgt. split.
  - intros H1 H2. exact (Qlt_trans _ _ _ H2 H1).
  - intros H. destruct (Qlt_le_dec sb sa) as [Hlt|Hle]; [now left|right].
    exact (Qlt_le_trans _ _ _ H Hle).
Qed.

(** The comparison of binary64 floats orders the scores that are numbers. *)
Ltac compare_cases :=
  repeat match goal with
  | |- context [Pos.compare_cont ?c ?a ?b] =>
      change (Pos.compare_cont c a b) with (Pos.compare a b)
  | H : context [Pos.compare_cont ?c ?a ?b] |- _ =>
      change (Pos.compare_cont c a b) with (Pos.compare a b) in H
  | |- context [Z.compare ?a ?b] => destruct (Z.compare_spec a b)
  | H : context [Z.compare ?a ?b] |- _ => destruct (Z.compare_spec a b)
  | |- context [Pos.compare ?a ?b] => destruct (Pos.compare_spec a b)
  | H : context [Pos.compare ?a ?b] |- _ => destruct (Pos.compare_spec a b)
  end.

Lemma SFltb_trans (x y z : spec_float) :
  SFltb x y = true -> SFltb y z = true -> SFltb x z = true.
Proof.
  unfold SFltb, SFcompare.
  destruct x as [[]|[]| |[] mx ex], y as [[]|[]| |[] my ey],
           z as [[]|[]| |[] mz ez];
    simpl; try discriminate; try reflexivity; compare_cases; simpl; subst;
    try discriminate; try reflexivity; try lia.
Qed.

Lemma SFltb_total (x y z : spec_float) :
  y <> S754_nan -> SFltb x z = true -> SFltb x y = true \/ SFltb y z = true.
Proof.
  unfold SFltb, SFcompare.
  destruct x as [[]|[]| |[] mx ex], y as [[]|[]| |[] my ey],
           z as [[]|[]| |[] mz ez];
    simpl; intros Hy; try congruence; try discriminate; auto; compare_cases;
    simpl; subst; try discriminate; auto; try lia.
Qed.

Lemma is_nan_false (x : float) :
  PrimFloat.is_nan x = false -> Prim2SF x <> S754_nan.
Proof.
  unfold PrimFloat.is_nan. rewrite eqb_spec. intros H E.
  rewrite E in H. discriminate.
Qed.

Lemma binary64_score_order (position : Z) (l : list DocSpan) :
  (forall sp, In sp l -> in_span sp position ->
     PrimFloat.is_nan (span_score (fl := binary64) sp position) = false) ->
  score_order (fl := binary64) position l.
Proof.
  intros Hnum a b c Ha Hb Hc Hina Hinb Hinc sa sb sc.
  cbn [fgt binary64]. rewrite !ltb_spec. split.
  - intros H1 H2. exact (SFltb_trans _ _ _ H2 H1).
  - intros H. destruct (SFltb_total (Prim2SF sc) (Prim2SF sb) (Prim2SF sa))
      as [H1|H1]; auto.
    apply is_nan_false. now apply Hnum.
Qed.



(** C3 (as amended): [_check_is_max_context] returns true exactly for the
    first of the spans with the best score among those that contain the
    position: the score of the current span is strictly greater than that
    of every earlier such span, and no later such span has a strictly
    greater score. The comparison is taken to order the scores of these
    spans, as it does for floats that are numbers. *)
Theorem check_is_max_context_first {fl : PyFloat} (doc_spans : list DocSpan)
    (cur_span_index position : Z) :
  score_order position doc_spans ->
  (_check_is_max_context doc_spans cur_span_index position = true
   <-> first_best position doc_spans cur_span_index).
Proof.
  intros Hord. rewrite check_is_max_context_best. split.
  - now apply best_after_first.
  - intros Hcur. pose proof Hcur as (sp & Hat & Hin & _).
    pose proof (best_after_is position doc_spans) as Hl.
    destruct (best_after position doc_spans) as [[s|] [b|]] eqn:E;
      simpl in Hl; try contradiction.
    + simpl. f_equal. symmetry.
      apply first_best_unique with (position := position) (l := doc_spans);
        auto.
      apply best_after_first; auto. now rewrite E.
    + exfalso. eapply Hl; eauto.
Qed.

Lemma binary64_score_order_example :
  score_order (fl := binary64) 3 [DocSpan.mk 0 5; DocSpan.mk 2 5].
Proof.
  intros a b c Ha Hb Hc _ _ _.
  destruct Ha as [<-|[<-|[]]], Hb as [<-|[<-|[]]], Hc as [<-|[<-|[]]];
    vm_compute; split; intros; try discriminate; auto.
Defined.

Lemma check_is_max_context_first_witness :
  _check_is_max_context (fl := binary64) [DocSpan.mk 0 5; DocSpan.mk 2 5] 0 3 = true
  <-> first_best (fl := binary64) 3 [DocSpan.mk 0 5; DocSpan.mk 2 5] 0.
Proof.
  apply (check_is_max_context_first (fl := binary64)).
  exact binary64_score_order_example.
Defined.

(** C3 (as stated) fails on a tie. The spans [0, 5) and [2, 7) both contain
    position 3 with the score [min(3, 1) + 0.01 * 5 = min(1, 3) + 0.01 * 5]:
    the first one is reported as the max-context span although its score is
    not strictly the best. *)
Lemma check_is_max_context_tie :
  ~ (forall doc_spans cur_span_index position,
       (exists sp, span_at doc_spans cur_span_index = Some sp
                   /\ in_span sp position) ->
       (_check_is_max_context (fl := binary64) doc_spans cur_span_index position
          = true
        <-> strictly_best (fl := binary64) position doc_spans cur_span_index)).
Proof.
  intros H.
  specialize (H [DocSpan.mk 0 5; DocSpan.mk 2 5] 0 3).
  destruct H as [H _].
  - exists (DocSpan.mk 0 5). unfold in_span. simpl. split; [reflexivity|lia].
  - destruct (H eq_refl) as (sp & Hat & Hbest).
    injection Hat as <-.
    specialize (Hbest 1 (DocSpan.mk 2 5)).
    assert (Hf : fgt (PyFloat := binary64)
                   (span_score (DocSpan.mk 0 5) 3)
                   (span_score (DocSpan.mk 2 5) 3) = false)
      by (vm_compute; reflexivity).
    rewrite Hbest in Hf; [discriminate|lia|reflexivity|].
    unfold in_span. simpl. lia.
Qed.

(** ** The answer span aligner *)

Lemma str_eqb_eq (s t : str) : str_eqb s t = true <-> s = t.
Proof.
  revert t. induction s as [|c s IH]; intros [|d t]; simpl;
    try (split; [discriminate|discriminate]); [tauto|].
  rewrite andb_true_iff, N.eqb_eq, IH. split.
  - intros [-> ->]; reflexivity.
  - intros [= -> ->]; auto.
Qed.

Lemma range_cons (a b : Z) : a < b -> range a b = a :: range (a + 1) b.
Proof.
  intros H. unfold range.
  replace (Z.to_nat (b - a)) with (S (Z.to_nat (b - (a + 1)))) by lia.
  cbn [seq map]. f_equal; [lia|].
  rewrite <- seq_shift, map_map. apply map_ext. intros k. lia.
Qed.

Lemma range_nil (a b : Z) : b <= a -> range a b = [].
Proof.
  intros H. unfold range. replace (Z.to_nat (b - a)) with O by lia. reflexivity.
Qed.

Lemma range_down_cons (a b : Z) :
  b < a -> range_down a b = a :: range_down (a - 1) b.
Proof.
  intros H. unfold range_down.
  replace (Z.to_nat (a - b)) with (S (Z.to_nat (a - 1 - b))) by lia.
  cbn [seq map]. f_equal; [lia|].
  rewrite <- seq_shift, map_map. apply map_ext. intros k. lia.
Qed.

Lemma range_down_nil (a b : Z) : a <= b -> range_down a b = [].
Proof.
  intros H. unfold range_down.
  replace (Z.to_nat (a - b)) with O by lia. reflexivity.
Qed.

Lemma range_nth (a b : Z) (k : nat) :
  nth_error (range a b) k =
    if (Z.of_nat k <? b - a) then Some (a + Z.of_nat k) else None.
Proof.
  unfold range. rewrite nth_error_map.
  destruct (Z.ltb_spec (Z.of_nat k) (b - a)).
  - rewrite nth_error_seq.
    destruct (Nat.ltb_spec k (Z.to_nat (b - a))); [reflexivity|lia].
  - rewrite (proj2 (nth_error_None _ _)); [reflexivity|].
    rewrite length_seq. lia.
Qed.

Lemma range_down_nth (a b : Z) (k : nat) :
  nth_error (range_down a b) k =
    if (Z.of_nat k <? a - b) then Some (a - Z.of_nat k) else None.
Proof.
  unfold range_down. rewrite nth_error_map.
  destruct (Z.ltb_spec (Z.of_nat k) (a - b)).
  - rewrite nth_error_seq.
    destruct (Nat.ltb_spec k (Z.to_nat (a - b))); [reflexivity|lia].
  - rewrite (proj2 (nth_error_None _ _)); [reflexivity|].
    rewrite length_seq. lia.
Qed.

Lemma in_range (a b x : Z) : In x (range a b) <-> a <= x < b.
Proof.
  unfold range. rewrite in_map_iff. split.
  - intros (k & <- & Hk). apply in_seq in Hk. lia.
  - intros H. exists (Z.to_nat (x - a)). split; [lia|]. apply in_seq. lia.
Qed.

Lemma in_range_down (a b x : Z) : In x (range_down a b) <-> b < x <= a.
Proof.
  unfold range_down. rewrite in_map_iff. split.
  - intros (k & <- & Hk). apply in_seq in Hk. lia.
  - intros H. exists (Z.to_nat (a - x)). split; [lia|]. apply in_seq. lia.
Qed.

Lemma for_return_find {A} (l : list A) (test : A -> bool) :
  for_return l (fun x => if test x then Some x else None) = List.find test l.
Proof.
  induction l as [|x l IH]; simpl; [reflexivity|].
  destruct (test x); auto.
Qed.

Lemma for_return_flat_map {A B R} (l : list A) (inner : A -> list B)
    (body : B -> option R) :
  for_return l (fun x => for_return (inner x) body)
  = for_return (flat_map inner l) body.
Proof.
  induction l as [|x l IH]; simpl; [reflexivity|].
  rewrite IH. clear IH.
  induction (inner x) as [|y ys IHy]; simpl; [reflexivity|].
  destruct (body y); auto.
Qed.

Lemma for_return_map {A B R} (l : list A) (f : A -> B) (body : B -> option R) :
  for_return (map f l) body = for_return l (fun x => body (f x)).
Proof.
  induction l as [|x l IH]; simpl; [reflexivity|].
  destruct (body (f x)); auto.
Qed.

Lemma for_return_ext {A R} (l : list A) (f g : A -> option R) :
  (forall x, f x = g x) -> for_return l f = for_return l g.
Proof.
  intros H. induction l as [|x l IH]; simpl; [reflexivity|].
  rewrite H, IH. reflexivity.
Qed.

Section Aligner.

Variables (tokenizer : BertTokenizer) (doc_tokens : list str)
          (input_start input_end : Z) (orig_answer_text : str).

(** The candidate [(new_start, new_end)] is a match: its slice of the
    document tokens, joined with spaces, equals the tokenized answer text
    joined with spaces. *)
Definition span_matches (candidate : Z * Z) : bool :=
  str_eqb (join space (slice doc_tokens (fst candidate) (snd candidate + 1)))
          (join space (tokenize tokenizer orig_answer_text)).

(** The candidates in the order of the search as the spec words it:
    [new_start] ascending over [start, end] and, for each [new_start],
    [new_end] descending from [end] to [new_start]. *)
Definition candidates : list (Z * Z) :=
  flat_map (fun new_start =>
              map (fun new_end => (new_start, new_end))
                  (range_down input_end (new_start - 1)))
           (range input_start (input_end + 1)).

(** The result as the spec words it: the first candidate that matches, and
    the provisional pair when none does. *)
Definition first_match_or_input : Z * Z :=
  match List.find span_matches candidates with
  | Some candidate => candidate
  | None => (input_start, input_end)
  end.

Lemma in_candidates (s e : Z) :
  In (s, e) candidates <-> input_start <= s <= e /\ e <= input_end.
Proof.
  unfold candidates. rewrite in_flat_map. split.
  - intros (s' & Hs & Hin). apply in_map_iff in Hin.
    destruct Hin as (e' & [= -> ->] & He).
    apply in_range in Hs. apply in_range_down in He. lia.
  - intros H. exists s. split; [apply in_range; lia|].
    apply in_map_iff. exists e. split; [reflexivity|].
    apply in_range_down. lia.
Qed.

Lemma improve_answer_span_refines :
  _improve_answer_span tokenizer doc_tokens input_start input_end
    orig_answer_text
  = first_match_or_input.
Proof.
  unfold _improve_answer_span, first_match_or_input, candidates.
  rewrite <- for_return_find, <- for_return_flat_map.
  erewrite for_return_ext; [reflexivity|].
  intros new_start. cbv beta. rewrite for_return_map. reflexivity.
Qed.

Lemma find_app {A} (test : A -> bool) (l1 l2 : list A) :
  List.find test (l1 ++ l2) =
    match List.find test l1 with
    | Some x => Some x
    | None => List.find test l2
    end.
Proof.
  induction l1 as [|x l1 IH]; simpl; [reflexivity|].
  destruct (test x); auto.
Qed.

(** The search of one [new_start]: the greatest matching [new_end]. *)
Lemma find_row (test : Z * Z -> bool) (s lo : Z) (k : nat) :
  forall hi, Z.to_nat (hi - lo) = k ->
  match List.find test (map (fun e => (s, e)) (range_down hi lo)) with
  | Some (s', e) =>
      s' = s /\ lo < e <= hi /\ test (s, e) = true
      /\ forall e', e < e' <= hi -> test (s, e') = false
  | None => forall e', lo < e' <= hi -> test (s, e') = false
  end.
Proof.
  induction k as [|k IH]; intros hi Hk.
  - rewrite range_down_nil by lia. simpl. intros e' He'. lia.
  - rewrite range_down_cons by lia. simpl.
    destruct (test (s, hi)) eqn:Et.
    + repeat split; auto; lia.
    + specialize (IH (hi - 1) ltac:(lia)).
      destruct (List.find test (map (fun e => (s, e)) (range_down (hi - 1) lo)))
        as [[s' e]|].
      * destruct IH as (-> & He & Hte & Hnone).
        repeat split; auto; try lia.
        intros e' He'. destruct (Z.eq_dec e' hi) as [->|Hne]; [exact Et|].
        apply Hnone. lia.
      * intros e' He'. destruct (Z.eq_dec e' hi) as [->|Hne]; [exact Et|].
        apply IH. lia.
Qed.

(** The whole search: the match with the least [new_start] and, for it,
    the greatest [new_end]. *)
Lemma find_rows (test : Z * Z -> bool) (k : nat) :
  forall a, Z.to_nat (input_end + 1 - a) = k ->
  match List.find test
          (flat_map (fun new_start =>
                       map (fun new_end => (new_start, new_end))
                           (range_down input_end (new_start - 1)))
                    (range a (input_end + 1))) with
  | Some (s, e) =>
      a <= s <= e /\ e <= input_end /\ test (s, e) = true
      /\ forall s' e', a <= s' <= e' -> e' <= input_end ->
           s' < s \/ (s' = s /\ e < e') -> test (s', e') = false
  | None =>
      forall s' e', a <= s' <= e' -> e' <= input_end -> test (s', e') = false
  end.
Proof.
  induction k as [|k IH]; intros a Hk.
  - rewrite range_nil by lia. simpl. intros s' e' H1 H2. lia.
  - rewrite range_cons by lia. cbn [flat_map]. rewrite find_app.
    pose proof (find_row test a (a - 1) (Z.to_nat (input_end - (a - 1)))
                  input_end eq_refl) as Hrow.
    destruct (List.find test
                (map (fun e => (a, e)) (range_down input_end (a - 1))))
      as [[s e]|].
    + destruct Hrow as (-> & He & Hte & Hnone).
      repeat split; auto; try lia.
      intros s' e' H1 H2 [Hlt|[-> Hgt]]; [lia|]. apply Hnone. lia.
    + specialize (IH (a + 1) ltac:(lia)).
      destruct (List.find test _) as [[s e]|].
      * destruct IH as (Hs & He & Hte & Hnone).
        repeat split; auto; try lia.
        intros s' e' H1 H2 Hprec.
        destruct (Z.eq_dec s' a) as [->|Hne]; [apply Hrow; lia|].
        apply Hnone; lia.
      * intros s' e' H1 H2.
        destruct (Z.eq_dec s' a) as [->|Hne]; [apply Hrow; lia|].
        apply IH; lia.
Qed.

(** The candidate [(s, e)] is tried before [(s', e')]. *)
Definition tried_before (c c' : Z * Z) : Prop :=
  fst c < fst c' \/ (fst c = fst c' /\ snd c' < snd c).

Lemma first_match_or_input_spec :
  (span_matches first_match_or_input = true
   /\ In first_match_or_input candidates
   /\ forall c, In c candidates -> tried_before c first_match_or_input ->
        span_matches c = false)
  \/ (first_match_or_input = (input_start, input_end)
      /\ forall c, In c candidates -> span_matches c = false).
Proof.
  unfold first_match_or_input.
  pose proof (find_rows span_matches (Z.to_nat (input_end + 1 - input_start))
                input_start eq_refl) as H.
  fold candidates in H.
  destruct (List.find span_matches candidates) as [[s e]|].
  - left. destruct H as (Hs & He & Hm & Hnone).
    split; [exact Hm|split; [apply in_candidates; lia|]].
    intros [s' e'] Hin Hbefore. apply in_candidates in Hin.
    unfold tried_before in Hbefore. simpl in Hbefore.
    apply Hnone; lia.
  - right. split; [reflexivity|].
    intros [s' e'] Hin. apply in_candidates in Hin. apply H; lia.
Qed.

End Aligner.

(** C4: [_improve_answer_span] returns the first candidate, in the order
    [new_start] ascending over [start, end] and [new_end] descending from
    [end] to [new_start], whose space-joined slice of the document tokens
    equals the space-joined tokenization of the answer text, and the
    provisional pair unchanged when no candidate matches; it is a total
    function, so it never fails. *)
Theorem improve_answer_span_first_match (tokenizer : BertTokenizer)
    (doc_tokens : list str) (input_start input_end : Z)
    (orig_answer_text : str) :
  let matches := span_matches tokenizer doc_tokens orig_answer_text in
  let result :=
    _improve_answer_span tokenizer doc_tokens input_start input_end
      orig_answer_text in
  result = first_match_or_input tokenizer doc_tokens input_start input_end
             orig_answer_text
  /\ ((matches result = true
       /\ (input_start <= fst result <= snd result /\ snd result <= input_end)
       /\ forall s e, input_start <= s <= e -> e <= input_end ->
            s < fst result \/ (s = fst result /\ snd result < e) ->
            matches (s, e) = false)
      \/ (result = (input_start, input_end)
          /\ forall s e, input_start <= s <= e -> e <= input_end ->
               matches (s, e) = false)).
Proof.
  intros matches result. subst result.
  rewrite improve_answer_span_refines. split; [reflexivity|].
  destruct (first_match_or_input_spec tokenizer doc_tokens input_start
              input_end orig_answer_text) as [(Hm & Hin & Hfirst)|(Heq & Hnone)].
  - left. split; [exact Hm|].
    destruct (first_match_or_input _ _ _ _ _) as [s' e'].
    apply in_candidates in Hin. split; [simpl; lia|].
    intros s e H1 H2 Hb. apply Hfirst; [apply in_candidates; lia|exact Hb].
  - right. split; [exact Heq|].
    intros s e H1 H2. apply Hnone. apply in_candidates. lia.
Qed.

(** ** The pipeline *)

Lemma bind_return {A B} (m : outcome A) (k : A -> outcome B) (b : B) :
  bind m k = Return b -> exists a, m = Return a /\ k a = Return b.
Proof. destruct m; simpl; [eauto|discriminate..]. Qed.

Lemma for_each_invariant {A S} (P : S -> Prop) (l : list A)
    (body : S -> A -> outcome S) :
  (forall s x s1, In x l -> P s -> body s x = Return s1 -> P s1) ->
  forall s s', for_each l body s = Return s' -> P s -> P s'.
Proof.
  induction l as [|x l IH]; intros Hbody s s' H Hs.
  - now injection H as <-.
  - simpl in H. apply bind_return in H. destruct H as (s1 & H1 & H2).
    apply (IH (fun s0 y s2 Hy => Hbody s0 y s2 (or_intror Hy)) s1 s' H2).
    apply (Hbody s x s1); simpl; auto.
Qed.

Lemma for_append_invariant {A B} (P : B -> Prop) (l : list A)
    (body : A -> outcome (list B)) :
  (forall x ys, In x l -> body x = Return ys -> Forall P ys) ->
  forall acc res, for_append l body acc = Return res ->
                  Forall P acc -> Forall P res.
Proof.
  induction l as [|x l IH]; intros Hbody acc res H Hacc.
  - now injection H as <-.
  - simpl in H. apply bind_return in H. destruct H as (ys & H1 & H2).
    apply (IH (fun y zs Hy => Hbody y zs (or_intror Hy)) _ _ H2).
    apply Forall_app. split; [exact Hacc|].
    apply (Hbody x); simpl; auto.
Qed.

Lemma pad_loop_eq (k : nat) (a b c : list Z) :
  pad_loop k (a, b, c) = (a ++ repeat 0 k, b ++ repeat 0 k, c ++ repeat 0 k).
Proof.
  revert a b c. induction k as [|k IH]; intros a b c; simpl.
  - now rewrite !app_nil_r.
  - rewrite IH, <- !app_assoc. reflexivity.
Qed.

Section Pipeline.

Context (tokenizer : BertTokenizer) {fl : PyFloat}.

Lemma feature_step_inv (example_index : Z) (example : QAExample)
    (is_training : bool) (max_len : Z) (query_tokens : list str)
    (tok_to_orig_index : list Z) (all_doc_tokens : list str)
    (tok_start_position tok_end_position : option Z)
    (doc_spans : list DocSpan) (uid : Z) (features : list QAFeatures)
    (doc_span_index : Z) (doc_span : DocSpan) (st' : Z * list QAFeatures) :
  feature_step tokenizer example_index example is_training max_len
    query_tokens tok_to_orig_index all_doc_tokens tok_start_position
    tok_end_position doc_spans (uid, features) (doc_span_index, doc_span)
  = Return st' ->
  exists toks tmap tctx segs sp ep,
    for_each (range 0 (DocSpan.length doc_span))
      (paragraph_step doc_spans doc_span_index doc_span tok_to_orig_index
         all_doc_tokens)
      ([cls_token] ++ query_tokens ++ [sep_token], [], [],
       [cls_token_segment_id]
         ++ map (fun _ => sequence_a_segment_id) query_tokens
         ++ [sequence_a_segment_id])
    = Return (toks, tmap, tctx, segs)
    /\ labels_of example is_training doc_span query_tokens
         tok_start_position tok_end_position 0 = Return (sp, ep)
    /\ let ids := convert_tokens_to_ids tokenizer (toks ++ [sep_token]) in
       let k := Z.to_nat (max_len - len ids) in
       len (ids ++ repeat 0 k) = max_len
       /\ len (repeat 1 (List.length ids) ++ repeat 0 k) = max_len
       /\ len ((segs ++ [sequence_b_segment_id]) ++ repeat 0 k) = max_len
       /\ st' = (uid + 1,
                 features ++ [
                   {| unique_id := uid;
                      example_index := example_index;
                      tokens := toks ++ [sep_token];
                      token_to_orig_map := tmap;
                      token_is_max_context := tctx;
                      input_ids := ids ++ repeat 0 k;
                      input_mask := repeat 1 (List.length ids) ++ repeat 0 k;
                      segment_ids :=
                        (segs ++ [sequence_b_segment_id]) ++ repeat 0 k;
                      paragraph_len := DocSpan.length doc_span;
                      f_start_position := sp;
                      f_end_position := ep |}]).
Proof.
  unfold feature_step. intros H.
  apply bind_return in H. destruct H as ([[[toks tmap] tctx] segs] & Hpar & H).
  rewrite pad_loop_eq in H.
  apply bind_return in H. destruct H as ([] & Ha1 & H).
  apply bind_return in H. destruct H as ([] & Ha2 & H).
  apply bind_return in H. destruct H as ([] & Ha3 & H).
  apply bind_return in H. destruct H as ([sp ep] & Hlab & H).
  injection H as <-.
  unfold assert in Ha1, Ha2, Ha3.
  destruct (Z.eqb_spec
              (len (convert_tokens_to_ids tokenizer (toks ++ [sep_token])
                    ++ repeat 0
                         (Z.to_nat
                            (max_len
                             - len (convert_tokens_to_ids tokenizer
                                      (toks ++ [sep_token]))))))
              max_len) as [E1|]; [|discriminate].
  match type of Ha2 with
  | (if ?c then _ else _) = _ => destruct c eqn:E2; [|discriminate]
  end.
  match type of Ha3 with
  | (if ?c then _ else _) = _ => destruct c eqn:E3; [|discriminate]
  end.
  apply Z.eqb_eq in E2, E3.
  exists toks, tmap, tctx, segs, sp, ep.
  split; [exact Hpar|split; [exact Hlab|]].
  cbv zeta. repeat split; assumption.
Qed.

Lemma example_step_inv (is_training : bool)
    (max_query_length max_len doc_stride : Z) (st st' : Z * list QAFeatures)
    (example_index : Z) (example : QAExample) :
  example_step tokenizer is_training max_query_length max_len doc_stride st
    (example_index, example) = Return st' ->
  exists tok_to_orig_index orig_to_tok_index all_doc_tokens
         tok_start_position tok_end_position doc_spans,
    let query_tokens :=
      query_tokens_of tokenizer (question_text example) max_query_length in
    subtokens_of tokenizer (doc_tokens example)
    = (tok_to_orig_index, orig_to_tok_index, all_doc_tokens)
    /\ tok_positions_of tokenizer example is_training orig_to_tok_index
         all_doc_tokens = Return (tok_start_position, tok_end_position)
    /\ doc_spans_of (len all_doc_tokens) (max_len - len query_tokens - 3)
         doc_stride = Return doc_spans
    /\ for_each (enumerate doc_spans)
         (feature_step tokenizer example_index example is_training max_len
            query_tokens tok_to_orig_index all_doc_tokens tok_start_position
            tok_end_position doc_spans)
         st = Return st'.
Proof.
  unfold example_step. intros H.
  destruct (subtokens_of tokenizer (doc_tokens example))
    as [[tok_to_orig_index orig_to_tok_index] all_doc_tokens].
  apply bind_return in H. destruct H as ([tsp tep] & Hpos & H).
  apply bind_return in H. destruct H as (doc_spans & Hspans & H).
  exists tok_to_orig_index, orig_to_tok_index, all_doc_tokens, tsp, tep,
    doc_spans.
  cbv zeta. auto.
Qed.

(** Every feature of a returned result comes out of one iteration of the
    loop over the spans of an example. *)
Lemma tokenize_qa_features (Q : QAFeatures -> Prop)
    (doc_text question_text : str_or_list)
    (answer_start : list int_or_list) (answer_text : list str_or_list)
    (is_training : bool) (max_query_length max_len doc_stride : Z)
    (qa_id : option (list Z)) (is_impossible : option (list bool))
    (features : list QAFeatures) (qa_examples : list QAExample) :
  (forall example_index example query_tokens tok_to_orig_index
          all_doc_tokens tok_start_position tok_end_position doc_spans
          uid feats doc_span_index doc_span st',
      feature_step tokenizer example_index example is_training max_len
        query_tokens tok_to_orig_index all_doc_tokens tok_start_position
        tok_end_position doc_spans (uid, feats) (doc_span_index, doc_span)
      = Return st' ->
      Forall Q feats -> Forall Q (snd st')) ->
  tokenize_qa tokenizer doc_text question_text answer_start answer_text
    is_training max_query_length max_len doc_stride qa_id is_impossible
  = Return (features, qa_examples) ->
  Forall Q features.
Proof.
  intros Hstep H. unfold tokenize_qa in H.
  apply bind_return in H. destruct H as (examples & _ & H).
  apply bind_return in H. destruct H as ([uid feats] & Hloop & H).
  injection H as <- <-.
  change feats with (snd (uid, feats)).
  refine (for_each_invariant (fun st => Forall Q (snd st)) _ _ _ _ _ Hloop _);
    [|constructor].
  intros st [example_index example] st1 _ Hst Hex.
  apply example_step_inv in Hex.
  destruct Hex as (toi & oti & adt & tsp & tep & spans & _ & _ & _ & Hfeat).
  refine (for_each_invariant (fun st => Forall Q (snd st)) _ _ _ _ _ Hfeat Hst).
  intros [uid0 feats0] [i sp] st2 _ Hst0 Hf.
  eapply Hstep; eauto.
Qed.

Lemma labels_of_not_training (example : QAExample) (doc_span : DocSpan)
    (query_tokens : list str) (tok_start_position tok_end_position : option Z)
    (cls_index : Z) :
  labels_of example false doc_span query_tokens tok_start_position
    tok_end_position cls_index = Return (None, None).
Proof. reflexivity. Qed.

Lemma example_of_not_training (d_tokens : list str)
    (char_to_word_offset : list Z) (q_text : str) (q_id : Z)
    (impossible : bool) (s : Z) (t : str_or_list) :
  example_of tokenizer d_tokens char_to_word_offset q_text q_id impossible
    false s t
  = Return (Some {| qa_id := q_id; doc_tokens := d_tokens;
                    question_text := q_text; orig_answer_text := t;
                    start_position := None; end_position := None;
                    is_impossible := impossible |}).
Proof. reflexivity. Qed.

Lemma qa_examples_not_training (doc_text question_text : str_or_list)
    (answer_start : list int_or_list) (answer_text : list str_or_list)
    (qa_id : option (list Z)) (is_impossible : option (list bool))
    (qa_examples : list QAExample) :
  qa_examples_of tokenizer doc_text question_text answer_start answer_text
    false qa_id is_impossible = Return qa_examples ->
  Forall (fun e => start_position e = None /\ end_position e = None)
    qa_examples.
Proof.
  unfold qa_examples_of. intros H.
  refine (for_append_invariant _ _ _ _ _ _ H (Forall_nil _)).
  intros [[[[[d_text q_text] a_start] a_text] q_id] impossible] ys _ Hq.
  unfold examples_of_question in Hq.
  destruct (whitespace_split d_text) as [d_tokens char_to_word_offset].
  apply bind_return in Hq. destruct Hq as (answers & _ & Hq).
  refine (for_append_invariant _ _ _ _ _ _ Hq (Forall_nil _)).
  intros [s t] es _ He. rewrite example_of_not_training in He.
  simpl in He. injection He as <-. constructor; [simpl; auto|constructor].
Qed.

End Pipeline.

(** C10: when [is_training] is false, every feature and every example that
    [tokenize_qa] returns has [start_position = None] and
    [end_position = None], impossible questions included. *)
Theorem inference_positions_none (tokenizer : BertTokenizer) {fl : PyFloat}
    (doc_text question_text : str_or_list)
    (answer_start : list int_or_list) (answer_text : list str_or_list)
    (max_query_length max_len doc_stride : Z)
    (qa_id : option (list Z)) (is_impossible : option (list bool))
    (features : list QAFeatures) (qa_examples : list QAExample) :
  tokenize_qa tokenizer doc_text question_text answer_start answer_text
    false max_query_length max_len doc_stride qa_id is_impossible
  = Return (features, qa_examples) ->
  Forall (fun f => f_start_position f = None /\ f_end_position f = None)
    features
  /\ Forall (fun e => start_position e = None /\ end_position e = None)
      qa_examples.
Proof.
  intros H. split.
  - refine (tokenize_qa_features tokenizer _ _ _ _ _ _ _ _ _ _ _ _ _ _ H).
    intros example_index example query_tokens toi adt tsp tep spans uid
      feats i sp st' Hf Hfeats.
    apply feature_step_inv in Hf.
    destruct Hf as (toks & tmap & tctx & segs & s & e & _ & Hlab & Hst).
    rewrite labels_of_not_training in Hlab. injection Hlab as <- <-.
    destruct Hst as (_ & _ & _ & ->). simpl.
    apply Forall_app. split; [exact Hfeats|].
    constructor; [simpl; auto|constructor].
  - unfold tokenize_qa in H.
    apply bind_return in H. destruct H as (examples & Hex & H).
    apply bind_return in H. destruct H as ([uid feats] & _ & H).
    injection H as _ <-.
    now apply qa_examples_not_training in Hex.
Qed.

(** A feature has the fixed width [max_len]: its three sequences have that
    length, [input_ids] is the ids of its tokens followed by 0s,
    [input_mask] is 1 on the positions of its tokens and 0 after them, and
    [segment_ids] is one segment id per token followed by 0s. *)
Definition fixed_width (tokenizer : BertTokenizer) (max_len : Z)
    (f : QAFeatures) : Prop :=
  let real := List.length (tokens f) in
  let pad := (Z.to_nat max_len - real)%nat in
  len (input_ids f) = max_len
  /\ len (input_mask f) = max_len
  /\ len (segment_ids f) = max_len
  /\ input_ids f = convert_tokens_to_ids tokenizer (tokens f) ++ repeat 0 pad
  /\ input_mask f = repeat 1 real ++ repeat 0 pad
  /\ exists real_segment_ids,
       List.length real_segment_ids = real
       /\ segment_ids f = real_segment_ids ++ repeat 0 pad.

Section Paragraph.

Context {fl : PyFloat}.
Variables (doc_spans : list DocSpan) (doc_span_index : Z)
          (doc_span : DocSpan) (tok_to_orig_index : list Z)
          (all_doc_tokens : list str).

Lemma paragraph_step_inv (toks : list str) (tmap : dict Z)
    (tctx : dict bool) (segs : list Z) (i : Z)
    (st' : list str * dict Z * dict bool * list Z) :
  paragraph_step doc_spans doc_span_index doc_span tok_to_orig_index
    all_doc_tokens (toks, tmap, tctx, segs) i = Return st' ->
  exists orig token,
    getitem tok_to_orig_index (DocSpan.start doc_span + i) = Some orig
    /\ getitem all_doc_tokens (DocSpan.start doc_span + i) = Some token
    /\ st' = (toks ++ [token],
              setitem tmap (len toks) orig,
              setitem tctx (len toks)
                (_check_is_max_context doc_spans doc_span_index
                   (DocSpan.start doc_span + i)),
              segs ++ [sequence_b_segment_id]).
Proof.
  unfold paragraph_step, index. intros H.
  destruct (getitem tok_to_orig_index (DocSpan.start doc_span + i))
    as [orig|]; [|discriminate].
  destruct (getitem all_doc_tokens (DocSpan.start doc_span + i))
    as [token|]; [|discriminate].
  simpl in H. injection H as <-. eauto.
Qed.

(** The paragraph loop appends one token and one segment id per index. *)
Lemma paragraph_loop_lengths (indices : list Z) :
  forall toks tmap tctx segs toks' tmap' tctx' segs',
    for_each indices
      (paragraph_step doc_spans doc_span_index doc_span tok_to_orig_index
         all_doc_tokens)
      (toks, tmap, tctx, segs) = Return (toks', tmap', tctx', segs') ->
    List.length toks' = (List.length toks + List.length indices)%nat
    /\ List.length segs' = (List.length segs + List.length indices)%nat.
Proof.
  induction indices as [|i indices IH]; intros toks tmap tctx segs toks' tmap'
    tctx' segs' H.
  - injection H as <- _ _ <-. simpl. lia.
  - simpl in H. apply bind_return in H. destruct H as (st1 & H1 & H2).
    apply paragraph_step_inv in H1. destruct H1 as (orig & token & _ & _ & ->).
    apply IH in H2. rewrite !length_app in H2. simpl in *. lia.
Qed.

End Paragraph.

Lemma feature_step_fixed_width (tokenizer : BertTokenizer) {fl : PyFloat}
    (example_index : Z) (example : QAExample)
    (is_training : bool) (max_len : Z) (query_tokens : list str)
    (tok_to_orig_index : list Z) (all_doc_tokens : list str)
    (tok_start_position tok_end_position : option Z)
    (doc_spans : list DocSpan) (uid : Z) (features : list QAFeatures)
    (doc_span_index : Z) (doc_span : DocSpan) (st' : Z * list QAFeatures) :
  feature_step tokenizer example_index example is_training max_len
    query_tokens tok_to_orig_index all_doc_tokens tok_start_position
    tok_end_position doc_spans (uid, features) (doc_span_index, doc_span)
  = Return st' ->
  exists f, st' = (uid + 1, features ++ [f])
            /\ fixed_width tokenizer max_len f.
Proof.
  intros H. apply feature_step_inv in H.
  destruct H as (toks & tmap & tctx & segs & sp & ep & Hpar & _ & Hst).
  cbv zeta in Hst. destruct Hst as (E1 & E2 & E3 & ->).
  eexists. split; [reflexivity|].
  apply paragraph_loop_lengths in Hpar. destruct Hpar as [Htoks Hsegs].
  assert (Hsegs' : List.length (segs ++ [sequence_b_segment_id])
                   = List.length (toks ++ [sep_token])).
  { rewrite !length_app, Htoks, Hsegs. simpl.
    rewrite !length_app, length_map. simpl. reflexivity. }
  (* the assertions on [input_ids] and [segment_ids] give one id per token *)
  assert (Hlen : List.length
                   (convert_tokens_to_ids tokenizer (toks ++ [sep_token]))
                 = List.length (toks ++ [sep_token])).
  { unfold len in E1, E3. rewrite length_app, repeat_length in E1, E3.
    rewrite <- Hsegs'. lia. }
  assert (Hpad : Z.to_nat
                   (max_len
                    - len (convert_tokens_to_ids tokenizer (toks ++ [sep_token])))
                 = (Z.to_nat max_len - List.length (toks ++ [sep_token]))%nat)
    by (unfold len; lia).
  unfold fixed_width. simpl. rewrite <- Hpad, <- Hlen.
  repeat split; auto.
  exists (segs ++ [sequence_b_segment_id]). split; [|reflexivity].
  now rewrite Hlen.
Qed.

(** Every feature of a call that returns has passed the three assertions:
    its three sequences are [max_len] long, whatever the tokenizer is. *)
Lemma returned_features_fixed_width (tokenizer : BertTokenizer) {fl : PyFloat}
    (doc_text question_text : str_or_list)
    (answer_start : list int_or_list) (answer_text : list str_or_list)
    (is_training : bool) (max_query_length max_len doc_stride : Z)
    (qa_id : option (list Z)) (is_impossible : option (list bool))
    (features : list QAFeatures) (qa_examples : list QAExample) :
  tokenize_qa tokenizer doc_text question_text answer_start answer_text
    is_training max_query_length max_len doc_stride qa_id is_impossible
  = Return (features, qa_examples) ->
  Forall (fixed_width tokenizer max_len) features.
Proof.
  intros H.
  refine (tokenize_qa_features tokenizer _ _ _ _ _ _ _ _ _ _ _ _ _ _ H).
  intros example_index example query_tokens toi adt tsp tep spans uid
    feats i sp st' Hf Hfeats.
  destruct (feature_step_fixed_width tokenizer _ _ _ _ _ _ _ _ _ _ _ _ _ _ _
              Hf) as (f & -> & Hw).
  simpl. apply Forall_app. split; [exact Hfeats|]. now constructor.
Qed.

(** ** The whitespace tokenizer *)

(** [d_tokens[-1] += c] is only reached with a word to append to: while
    [prev_is_whitespace] is false, [d_tokens] is not empty. *)
Lemma whitespace_loop_has_word (d_text : str) :
  forall st,
    (snd st = false -> fst (fst st) <> []) ->
    snd (fold_left whitespace_step d_text st) = false ->
    fst (fst (fold_left whitespace_step d_text st)) <> [].
Proof.
  induction d_text as [|c d_text IH]; intros [[d_tokens offsets] prev] Hst;
    [exact Hst|].
  simpl. apply IH. unfold whitespace_step.
  destruct (_is_whitespace c); [discriminate|].
  destruct prev; simpl; intros _.
  - now destruct d_tokens.
  - specialize (Hst eq_refl). simpl in Hst. unfold append_to_last.
    destruct (rev d_tokens) as [|w ws] eqn:E.
    + apply (f_equal (@rev str)) in E. rewrite rev_involutive in E.
      contradiction.
    + now destruct (rev ws).
Qed.

(** One offset per character of the document. *)
Lemma whitespace_split_offsets (d_text : str) :
  List.length (snd (whitespace_split d_text)) = List.length d_text.
Proof.
  unfold whitespace_split.
  assert (Hgen : forall st,
             List.length (snd (fst (fold_left whitespace_step d_text st)))
             = (List.length (snd (fst st)) + List.length d_text)%nat).
  { induction d_text as [|c d_text IH]; intros [[d_tokens offsets] prev];
      simpl; [lia|].
    rewrite IH. unfold whitespace_step.
    destruct (_is_whitespace c); [|destruct prev]; simpl;
      rewrite length_app; simpl; lia. }
  apply Hgen.
Qed.

(** ** When the pipeline returns *)

Lemma chain_bounds (n mtd stride : Z) (Hm : 0 < mtd) (Hs : 0 < stride)
    (s : Z) (spans : list DocSpan) :
  window_chain n mtd stride s spans ->
  forall sp, In sp spans ->
    s <= DocSpan.start sp /\ 0 < DocSpan.length sp <= mtd
    /\ DocSpan.start sp + DocSpan.length sp <= n.
Proof.
  induction 1 as [s Hr Hn|s rest Hr Hn Hc IH]; intros sp [<-|Hin]; simpl;
    try lia; try contradiction.
  specialize (IH sp Hin). lia.
Qed.

(** The spans of a loop that leaves lie inside the document, are not empty
    and fit the window. *)
Lemma doc_spans_of_bounds (n mtd stride : Z) (spans : list DocSpan) :
  doc_spans_of n mtd stride = Return spans ->
  forall sp, In sp spans ->
    0 <= DocSpan.start sp /\ 0 < DocSpan.length sp <= mtd
    /\ DocSpan.start sp + DocSpan.length sp <= n.
Proof.
  intros H. unfold doc_spans_of in H.
  destruct (window_loop n mtd stride (S (Z.to_nat n)) (0, [])) as [r|] eqn:E;
    [injection H as ->|discriminate].
  destruct (Z_le_gt_dec n 0) as [Hn|Hn].
  { cbn [window_loop] in E. rewrite window_step_unfold in E.
    destruct (Z.ltb_spec 0 n); [lia|]. injection E as <-. intros sp []. }
  destruct (Z_le_gt_dec mtd 0) as [Hm|Hm].
  { rewrite window_loop_stuck_window in E; [discriminate|lia..]. }
  destruct (Z_le_gt_dec stride 0) as [Hs|Hs].
  - destruct (Z_le_gt_dec n mtd) as [Hnm|Hnm].
    + cbn [window_loop] in E. rewrite window_step_unfold in E.
      destruct (Z.ltb_spec 0 n); [|lia].
      destruct (Z.eqb_spec (0 + Z.min (n - 0) mtd) n); [|lia].
      injection E as <-. intros sp [<-|[]]. simpl. lia.
    + rewrite window_loop_stuck_stride in E; [discriminate|lia..].
  - destruct (window_loop_chain n mtd stride ltac:(lia) ltac:(lia)
                (S (Z.to_nat n)) 0 []) as (spans' & Hl & Hc); [lia|lia|].
    rewrite Hl in E. injection E as <-. simpl.
    apply (chain_bounds n mtd stride ltac:(lia) ltac:(lia) 0 spans' Hc).
Qed.

Lemma doc_spans_of_returns (n mtd stride : Z) :
  n <= 0 \/ (0 < mtd /\ 0 < stride) ->
  exists spans, doc_spans_of n mtd stride = Return spans.
Proof.
  intros [Hn|[Hm Hs]].
  - exists []. unfold doc_spans_of. cbn [window_loop].
    rewrite window_step_unfold. destruct (Z.ltb_spec 0 n); [lia|reflexivity].
  - destruct (Z_le_gt_dec n 0) as [Hn|Hn].
    + exists []. unfold doc_spans_of. cbn [window_loop].
      rewrite window_step_unfold. destruct (Z.ltb_spec 0 n); [lia|reflexivity].
    + destruct (window_loop_chain n mtd stride Hm Hs (S (Z.to_nat n)) 0 [])
        as (spans & Hl & _); [lia|lia|].
      exists spans. unfold doc_spans_of. now rewrite Hl.
Qed.

Lemma getitem_in_range {A} (l : list A) (j : Z) :
  0 <= j < len l -> exists x, getitem l j = Some x.
Proof.
  intros H. unfold getitem.
  destruct (Z.ltb_spec j 0); [lia|].
  destruct (Z.leb_spec 0 j); [|lia].
  destruct (Z.ltb_spec j (len l)); [|lia]. simpl.
  destruct (nth_error l (Z.to_nat j)) eqn:E; [eauto|].
  apply nth_error_None in E. unfold len in H. lia.
Qed.

Lemma length_range (a b : Z) : List.length (range a b) = Z.to_nat (b - a).
Proof. unfold range. now rewrite length_map, length_seq. Qed.

Lemma for_each_returns {A S} (P : S -> Prop) (l : list A)
    (body : S -> A -> outcome S) :
  (forall s x, In x l -> P s -> exists s', body s x = Return s' /\ P s') ->
  forall s, P s -> exists s', for_each l body s = Return s' /\ P s'.
Proof.
  induction l as [|x l IH]; intros Hbody s Hs.
  - exists s. auto.
  - destruct (Hbody s x (or_introl eq_refl) Hs) as (s1 & H1 & Hs1).
    destruct (IH (fun s0 y Hy => Hbody s0 y (or_intror Hy)) s1 Hs1)
      as (s' & H' & Hs').
    exists s'. simpl. rewrite H1. auto.
Qed.

Lemma for_append_returns {A B} (P : B -> Prop) (l : list A)
    (body : A -> outcome (list B)) :
  (forall x, In x l -> exists ys, body x = Return ys /\ Forall P ys) ->
  forall acc, Forall P acc ->
  exists res, for_append l body acc = Return res /\ Forall P res.
Proof.
  induction l as [|x l IH]; intros Hbody acc Hacc.
  - exists acc. auto.
  - destruct (Hbody x (or_introl eq_refl)) as (ys & H1 & Hys).
    destruct (IH (fun y Hy => Hbody y (or_intror Hy)) (acc ++ ys))
      as (res & H' & Hres); [apply Forall_app; auto|].
    exists res. simpl. rewrite H1. auto.
Qed.

Lemma zip6_in {A B C D E G} (a : list A) (b : list B) (c : list C)
    (d : list D) (e : list E) (g : list G) x1 x2 x3 x4 x5 x6 :
  In (x1, x2, x3, x4, x5, x6) (zip6 a b c d e g) ->
  In x2 b /\ In (x3, x4) (combine c d).
Proof.
  revert b c d e g.
  induction a as [|y1 a IH]; intros [|y2 b] [|y3 c] [|y4 d] [|y5 e] [|y6 g];
    simpl; try contradiction.
  intros [[= <- <- <- <- <- <-]|Hin]; [auto|].
  apply IH in Hin. tauto.
Qed.

Section Returns.

Context (tokenizer : BertTokenizer) {fl : PyFloat}.

Lemma subtokens_of_lengths (doc_tokens : list str) :
  let '(tok_to_orig_index, _, all_doc_tokens) :=
    subtokens_of tokenizer doc_tokens in
  List.length tok_to_orig_index = List.length all_doc_tokens.
Proof.
  unfold subtokens_of.
  assert (Hgen : forall items st,
             (let '(a, _, c) := st in List.length a = List.length c) ->
             let '(a, _, c) := fold_left (subtoken_step tokenizer) items st in
             List.length a = List.length c).
  { induction items as [|[i token] items IH]; intros [[a b] c] Hst;
      [exact Hst|].
    simpl. apply IH. rewrite !length_app, length_map. lia. }
  apply Hgen. reflexivity.
Qed.

Lemma paragraph_loop_returns (doc_spans : list DocSpan) (doc_span_index : Z)
    (doc_span : DocSpan) (tok_to_orig_index : list Z)
    (all_doc_tokens : list str) (indices : list Z) :
  (forall i, In i indices ->
     0 <= DocSpan.start doc_span + i < len tok_to_orig_index
     /\ DocSpan.start doc_span + i < len all_doc_tokens) ->
  forall st, exists st',
    for_each indices
      (paragraph_step doc_spans doc_span_index doc_span tok_to_orig_index
         all_doc_tokens) st = Return st'.
Proof.
  intros Hin st.
  destruct (for_each_returns (fun _ => True) indices
              (paragraph_step doc_spans doc_span_index doc_span
                 tok_to_orig_index all_doc_tokens)) with (s := st)
    as (st' & H & _); auto; [|eauto].
  intros [[[toks tmap] tctx] segs] i Hi _.
  destruct (Hin i Hi) as [H1 H2].
  destruct (getitem_in_range tok_to_orig_index _ H1) as (orig & Horig).
  destruct (getitem_in_range all_doc_tokens (DocSpan.start doc_span + i))
    as (token & Htoken); [lia|].
  unfold paragraph_step, index. rewrite Horig, Htoken. simpl. eauto.
Qed.

(** One feature is built, with no [IndexError] and no [AssertionError],
    from a span that lies inside the document and fits the window. *)
Lemma feature_step_returns (example_index : Z) (example : QAExample)
    (max_len : Z) (query_tokens : list str)
    (tok_to_orig_index : list Z) (all_doc_tokens : list str)
    (tok_start_position tok_end_position : option Z)
    (doc_spans : list DocSpan) (st : Z * list QAFeatures)
    (doc_span_index : Z) (doc_span : DocSpan) :
  one_id_per_token tokenizer ->
  List.length tok_to_orig_index = List.length all_doc_tokens ->
  0 <= DocSpan.start doc_span ->
  0 <= DocSpan.length doc_span <= max_len - len query_tokens - 3 ->
  DocSpan.start doc_span + DocSpan.length doc_span <= len all_doc_tokens ->
  exists st',
    feature_step tokenizer example_index example false max_len
      query_tokens tok_to_orig_index all_doc_tokens tok_start_position
      tok_end_position doc_spans st (doc_span_index, doc_span)
    = Return st'.
Proof.
  intros Hids Hlen Hstart Hfit Hin. destruct st as [uid features].
  destruct (paragraph_loop_returns doc_spans doc_span_index doc_span
              tok_to_orig_index all_doc_tokens
              (range 0 (DocSpan.length doc_span)))
    with (st := ([cls_token] ++ query_tokens ++ [sep_token],
                 @nil (Z * Z), @nil (Z * bool),
                 [cls_token_segment_id]
                   ++ map (fun _ => sequence_a_segment_id) query_tokens
                   ++ [sequence_a_segment_id]))
    as ([[[toks tmap] tctx] segs] & Hpar).
  { intros i Hi. apply in_range in Hi. unfold len in *. lia. }
  pose proof (paragraph_loop_lengths _ _ _ _ _ _ _ _ _ _ _ _ _ _ Hpar)
    as [Htoks Hsegs].
  rewrite length_range in Htoks, Hsegs.
  rewrite !length_app in Htoks. rewrite !length_app, length_map in Hsegs.
  simpl in Htoks, Hsegs.
  pose proof (Hids (toks ++ [sep_token])) as Hn.
  rewrite length_app in Hn. simpl in Hn.
  unfold feature_step. rewrite Hpar. simpl bind. rewrite pad_loop_eq.
  unfold assert, len in *.
  rewrite !length_app, !repeat_length, Hn. simpl List.length.
  repeat match goal with
  | |- context [Z.eqb ?a ?b] =>
      replace (Z.eqb a b) with true by (symmetry; apply Z.eqb_eq; lia)
  end.
  simpl. eauto.
Qed.

Lemma enumerate_in {A} (l : list A) (i : Z) (x : A) :
  In (i, x) (enumerate l) -> In x l.
Proof. unfold enumerate. apply in_combine_r. Qed.

Lemma example_step_returns (max_query_length max_len doc_stride : Z)
    (st : Z * list QAFeatures) (example_index : Z) (example : QAExample) :
  one_id_per_token tokenizer ->
  0 < doc_stride ->
  len (query_tokens_of tokenizer (question_text example) max_query_length) + 3
  < max_len ->
  exists st',
    example_step tokenizer false max_query_length max_len doc_stride st
      (example_index, example) = Return st'.
Proof.
  intros Hids Hstride Hroom. unfold example_step.
  pose proof (subtokens_of_lengths (doc_tokens example)) as Hlen.
  destruct (subtokens_of tokenizer (doc_tokens example))
    as [[tok_to_orig_index orig_to_tok_index] all_doc_tokens].
  set (query_tokens :=
         query_tokens_of tokenizer (question_text example) max_query_length)
    in *.
  change (tok_positions_of tokenizer example false orig_to_tok_index
            all_doc_tokens) with (Return (@None Z, @None Z)).
  simpl bind.
  destruct (doc_spans_of_returns (len all_doc_tokens)
              (max_len - len query_tokens - 3) doc_stride)
    as (doc_spans & Hspans); [right; lia|].
  rewrite Hspans. simpl bind.
  destruct (for_each_returns (fun _ => True) (enumerate doc_spans)
              (feature_step tokenizer example_index example false max_len
                 query_tokens tok_to_orig_index all_doc_tokens None None
                 doc_spans)) with (s := st) as (st' & H & _); auto; [|eauto].
  intros s [i sp] Hin _.
  apply enumerate_in in Hin.
  destruct (doc_spans_of_bounds _ _ _ _ Hspans sp Hin) as (H1 & H2 & H3).
  destruct (feature_step_returns example_index example max_len query_tokens
              tok_to_orig_index all_doc_tokens None None doc_spans s i sp)
    as (s' & Hs'); auto; try lia.
  eauto.
Qed.

Definition asks_one_of (questions : list str) (e : QAExample) : Prop :=
  In (question_text e) questions.

(** In inference mode the call returns, provided that every question
    leaves room for a document token, that the stride is positive, and
    that the lists of answer starts and of answer texts of a question have
    the same length. *)
Lemma tokenize_qa_inference_returns (doc_text question_text : str_or_list)
    (answer_start : list int_or_list) (answer_text : list str_or_list)
    (max_query_length max_len doc_stride : Z)
    (qa_id : option (list Z)) (is_impossible : option (list bool)) :
  one_id_per_token tokenizer ->
  0 < doc_stride ->
  (forall q, In q (iter question_text) ->
     len (query_tokens_of tokenizer q max_query_length) + 3 < max_len) ->
  (forall a t, In (a, t) (combine answer_start answer_text) ->
     match a with
     | IntList starts => len starts = len_of t
     | Int _ => True
     end) ->
  exists features qa_examples,
    tokenize_qa tokenizer doc_text question_text answer_start answer_text
      false max_query_length max_len doc_stride qa_id is_impossible
    = Return (features, qa_examples).
Proof.
  intros Hids Hstride Hroom Hanswers. unfold tokenize_qa.
  set (P := asks_one_of (iter question_text)).
  assert (Hex : exists qa_examples,
             qa_examples_of tokenizer doc_text question_text answer_start
               answer_text false qa_id is_impossible = Return qa_examples
             /\ Forall P qa_examples).
  { unfold qa_examples_of. apply for_append_returns; [|constructor].
    intros [[[[[d_text q_text] a_start] a_text] q_id] impossible] Hin.
    apply zip6_in in Hin. destruct Hin as [Hq Hat].
    specialize (Hanswers _ _ Hat).
    unfold examples_of_question.
    destruct (whitespace_split d_text) as [d_tokens char_to_word_offset].
    assert (Hans : exists answers,
               answers_of a_start a_text false impossible = Return answers).
    { destruct a_start as [z|starts]; simpl; [eauto|].
      rewrite Hanswers, Z.eqb_refl, andb_false_r. simpl. eauto. }
    destruct Hans as (answers & ->). simpl bind.
    apply for_append_returns; [|constructor].
    intros [s0 t0] _. cbn.
    eexists. split; [reflexivity|]. constructor; [exact Hq|constructor]. }
  destruct Hex as (qa_examples & -> & Hall). simpl bind.
  destruct (for_each_returns (fun _ => True) (enumerate qa_examples)
              (example_step tokenizer false max_query_length max_len
                 doc_stride)) with (s := (1000000000, @nil QAFeatures))
    as ([uid features] & -> & _); auto; [|simpl; eauto].
  intros st [i example] Hin _. apply enumerate_in in Hin.
  rewrite Forall_forall in Hall. specialize (Hall _ Hin).
  destruct (example_step_returns max_query_length max_len doc_stride st i
              example) as (st' & Hst'); auto.
  eauto.
Qed.

End Returns.

(** ** What a feature records in [token_is_max_context] *)

Lemma setitem_fresh {V} (d : dict V) (k : Z) (v : V) :
  (forall k' v', In (k', v') d -> k' <> k) ->
  setitem d k v = d ++ [(k, v)].
Proof.
  induction d as [|[k' v'] d IH]; intros Hfresh; simpl; [reflexivity|].
  destruct (Z.eqb_spec k' k) as [->|_].
  - exfalso. apply (Hfresh k v'); simpl; auto.
  - f_equal. apply IH. intros k0 v0 Hin. apply (Hfresh k0 v0). simpl; auto.
Qed.

Lemma get_map_key {A V} (key : A -> Z) (value : A -> V) (l : list A) (x : A) :
  (forall y, In y l -> key y = key x -> y = x) ->
  In x l ->
  get (map (fun y => (key y, value y)) l) (key x) = Some (value x).
Proof.
  induction l as [|y l IH]; intros Hinj Hin; [contradiction|].
  simpl. destruct (Z.eqb_spec (key y) (key x)) as [E|Hne].
  - now rewrite (Hinj y (or_introl eq_refl) E).
  - destruct Hin as [->|Hin]; [contradiction|].
    apply IH; auto. intros z Hz. apply Hinj. simpl; auto.
Qed.

Section Recorded.

Context (tokenizer : BertTokenizer) {fl : PyFloat}.
Variables (doc_spans : list DocSpan) (doc_span_index : Z)
          (doc_span : DocSpan) (tok_to_orig_index : list Z)
          (all_doc_tokens : list str).

Lemma paragraph_loop_max_context (indices : list Z) :
  forall toks tmap tctx segs toks' tmap' tctx' segs',
    for_each indices
      (paragraph_step doc_spans doc_span_index doc_span tok_to_orig_index
         all_doc_tokens)
      (toks, tmap, tctx, segs) = Return (toks', tmap', tctx', segs') ->
    (forall k v, In (k, v) tctx -> k < len toks) ->
    tctx' =
      tctx ++ combine
                (map (fun j => len toks + Z.of_nat j)
                     (seq 0 (List.length indices)))
                (map (fun i =>
                        _check_is_max_context doc_spans doc_span_index
                          (DocSpan.start doc_span + i))
                     indices).
Proof.
  induction indices as [|i indices IH]; intros toks tmap tctx segs toks' tmap'
    tctx' segs' H Hkeys.
  - injection H as _ _ <- _. simpl. now rewrite app_nil_r.
  - simpl in H. apply bind_return in H. destruct H as (st1 & H1 & H2).
    apply paragraph_step_inv in H1. destruct H1 as (orig & token & _ & _ & ->).
    rewrite (setitem_fresh tctx) in H2
      by (intros k' v' Hin; apply Hkeys in Hin; lia).
    apply IH in H2.
    + rewrite H2, <- app_assoc. f_equal. cbn [List.length seq map combine app].
      rewrite Z.add_0_r. f_equal.
      rewrite <- seq_shift, map_map. f_equal. apply map_ext.
      intros j. unfold len. rewrite length_app. simpl. lia.
    + intros k v Hin. unfold len. rewrite length_app. simpl.
      apply in_app_or in Hin. destruct Hin as [Hin|[[= <- _]|[]]].
      * apply Hkeys in Hin. unfold len in Hin. lia.
      * unfold len. lia.
Qed.

Lemma combine_map_same {A B C} (f : A -> B) (g : A -> C) (l : list A) :
  combine (map f l) (map g l) = map (fun x => (f x, g x)) l.
Proof. induction l as [|x l IH]; simpl; [reflexivity|now rewrite IH]. Qed.

(** The entry of [token_is_max_context] for the [k]-th document token of
    the window, at the key [len(query_tokens) + 2 + k], is what
    [_check_is_max_context] says of its position in the document. *)
Lemma feature_records_max_context (example_index : Z) (example : QAExample)
    (is_training : bool) (max_len : Z) (query_tokens : list str)
    (tok_start_position tok_end_position : option Z)
    (uid : Z) (features : list QAFeatures) (st' : Z * list QAFeatures) :
  feature_step tokenizer example_index example is_training max_len
    query_tokens tok_to_orig_index all_doc_tokens tok_start_position
    tok_end_position doc_spans (uid, features) (doc_span_index, doc_span)
  = Return st' ->
  exists f,
    st' = (uid + 1, features ++ [f])
    /\ forall k, 0 <= k < DocSpan.length doc_span ->
         get (token_is_max_context f) (len query_tokens + 2 + k)
         = Some (_check_is_max_context doc_spans doc_span_index
                   (DocSpan.start doc_span + k)).
Proof.
  intros H. apply feature_step_inv in H.
  destruct H as (toks & tmap & tctx & segs & sp & ep & Hpar & _ & Hst).
  cbv zeta in Hst. destruct Hst as (_ & _ & _ & ->).
  eexists. split; [reflexivity|]. cbn [token_is_max_context].
  apply paragraph_loop_max_context in Hpar; [|intros k v []].
  intros k Hk. subst tctx. rewrite app_nil_l.
  assert (Hkeys : map (fun j => len ([cls_token] ++ query_tokens ++ [sep_token])
                                + Z.of_nat j)
                      (seq 0 (List.length (range 0 (DocSpan.length doc_span))))
                  = map (fun i => len query_tokens + 2 + i)
                        (range 0 (DocSpan.length doc_span))).
  { rewrite length_range. unfold range. rewrite map_map. apply map_ext.
    intros j. unfold len. rewrite !length_app. cbn [List.length]. lia. }
  rewrite Hkeys, combine_map_same.
  apply (get_map_key (fun i => len query_tokens + 2 + i)
           (fun i => _check_is_max_context doc_spans doc_span_index
                       (DocSpan.start doc_span + i))).
  - intros y _ Hy. lia.
  - apply in_range. lia.
Qed.

End Recorded.

(** ** Where the pipeline does not return *)

(** The name [logger] is not bound: evaluating it raises. *)
Lemma logger_is_unbound : global "logger" = Raise (NameError "logger").
Proof. reflexivity. Qed.

(** In training mode, an answer whose text is not found in the document at
    its offset ends the call in [NameError], whatever the tokenizer is. *)
Lemma example_of_mismatch (tokenizer : BertTokenizer) (d_tokens : list str)
    (char_to_word_offset : list Z) (q_text : str) (q_id s : Z) (t : str)
    (start_position end_position : Z) :
  getitem char_to_word_offset s = Some start_position ->
  getitem char_to_word_offset (s + len t - 1) = Some end_position ->
  find (join space (slice d_tokens start_position (end_position + 1)))
       (join space (whitespace_tokenize tokenizer t)) = -1 ->
  example_of tokenizer d_tokens char_to_word_offset q_text q_id false true
    s (Str t)
  = Raise (NameError "logger").
Proof.
  intros Hs He Hfind. unfold example_of, index. simpl.
  rewrite Hs. simpl. rewrite He. simpl. rewrite Hfind. reflexivity.
Qed.

(** In inference mode, an example whose question leaves no room for a
    document token, and whose document is not empty, never gets out of the
    sliding-window loop. *)
Lemma example_step_window_overflow (tokenizer : BertTokenizer) {fl : PyFloat}
    (max_query_length max_len doc_stride : Z) (st : Z * list QAFeatures)
    (example_index : Z) (example : QAExample) :
  max_len
  - len (query_tokens_of tokenizer (question_text example) max_query_length)
  - 3 <= 0 ->
  0 < len (snd (subtokens_of tokenizer (doc_tokens example))) ->
  example_step tokenizer false max_query_length max_len doc_stride st
    (example_index, example) = Diverge.
Proof.
  intros Hroom Hdoc. unfold example_step.
  destruct (subtokens_of tokenizer (doc_tokens example))
    as [[tok_to_orig_index orig_to_tok_index] all_doc_tokens].
  simpl in Hdoc.
  change (tok_positions_of tokenizer example false orig_to_tok_index
            all_doc_tokens) with (Return (@None Z, @None Z)).
  simpl bind.
  destruct (window_overflow_diverges (len all_doc_tokens) _ doc_stride
              Hdoc Hroom) as [-> _].
  reflexivity.
Qed.

(** ** The pipeline on concrete inputs *)

Module Samples.

Definition document : str := lit "The leader was John Smith (1895-1943).".
Definition question : str := lit "What year was John Smith born?".

(** The pair a call returned, for a call that returns. *)
Definition returned {A B} (o : outcome (list A * list B)) : list A * list B :=
  match o with
  | Return r => r
  | _ => ([], [])
  end.

(** One question in inference mode, windows of [max_len = 20] with a stride
    of 3 tokens: two features. *)
Definition inference : outcome (list QAFeatures * list QAExample) :=
  tokenize_qa Toy.tokenizer (fl := binary64)
    (StrList [document]) (StrList [question]) [IntList [27]]
    [StrList [lit "1895"]] false 64 20 3 None None.

End Samples.

Lemma toy_one_id_per_token : one_id_per_token Toy.tokenizer.
Proof. intros ts. apply length_map. Qed.

Lemma inference_positions_none_witness :
  Forall (fun f => f_start_position f = None /\ f_end_position f = None)
    (fst (Samples.returned Samples.inference))
  /\ Forall (fun e => start_position e = None /\ end_position e = None)
       (snd (Samples.returned Samples.inference)).
Proof.
  apply (inference_positions_none Toy.tokenizer (fl := binary64)
           (StrList [Samples.document]) (StrList [Samples.question])
           [IntList [27]] [StrList [lit "1895"]] 64 20 3 None None).
  vm_compute. reflexivity.
Defined.

(** The example of the source: the provisional span is the word
    "(1895-1943)." (tokens 5 to 10), and the aligner narrows it to the
    token "1895". *)
Example improve_answer_span_1895 :
  _improve_answer_span Toy.tokenizer
    (tokenize Toy.tokenizer Samples.document) 5 10 (lit "1895") = (6, 6).
Proof. vm_compute. reflexivity. Qed.

(** C1 (the code at a failing input): the question has 7 tokens and
    [max_len] is 10, so [max_tokens_for_doc] is 0. There is no
    [WindowOverflowError]: the call never returns, the sliding-window loop
    appends the empty span [(0, 0)] at every iteration, and it never leaves. *)
Theorem question_too_long_never_returns :
  tokenize_qa Toy.tokenizer (fl := binary64)
    (StrList [lit "a b"]) (StrList [Samples.question]) [Int 0] [Str (lit "a")]
    false 64 10 128 None None = Diverge
  /\ window_state 2 0 128 3 (0, [])
     = Some (0, [DocSpan.mk 0 0; DocSpan.mk 0 0; DocSpan.mk 0 0])
  /\ ~ (exists fuel doc_spans, window_loop 2 0 128 fuel (0, []) = Some doc_spans).
Proof.
  split; [vm_compute; reflexivity|split; [vm_compute; reflexivity|]].
  intros (fuel & spans & H).
  rewrite window_loop_stuck_window in H; [discriminate|lia..].
Qed.

(** C5 (the code at a failing input): in training mode the answer text
    "1985" of the first question is not found in the document at its
    offset. The name [logger] is not bound in the module, so the warning
    raises [NameError] and the whole call fails, the second question with
    it. *)
Theorem answer_mismatch_raises_name_error :
  tokenize_qa Toy.tokenizer (fl := binary64)
    (StrList [Samples.document; Samples.document])
    (StrList [Samples.question; Samples.question])
    [IntList [27]; IntList [27]] [StrList [lit "1985"]; StrList [lit "1895"]]
    true 64 20 3 None None
  = Raise (NameError "logger").
Proof. vm_compute. reflexivity. Qed.

(** C8 (the code at a failing input): a bare string as [doc_text] raises
    nothing. Its characters are taken as the documents, one per question. *)
Theorem bare_string_is_accepted :
  exists features qa_examples,
    tokenize_qa Toy.tokenizer (fl := binary64)
      (Str (lit "ab")) (StrList [Samples.question; Samples.question])
      [Int 0; Int 0] [Str (lit "a"); Str (lit "b")]
      false 64 12 3 None None
    = Return (features, qa_examples)
    /\ List.length features = 2%nat
    /\ map doc_tokens qa_examples = [[lit "a"]; [lit "b"]].
Proof. do 2 eexists. vm_compute. repeat split. Qed.

(** C9 (the code at a failing input): [max_len = 513] is not clamped to
    [BERT_MAX_LEN]; the sequences of the feature have 513 entries. *)
Theorem max_len_is_not_clamped :
  exists f qa_examples,
    tokenize_qa Toy.tokenizer (fl := binary64)
      (StrList [Samples.document]) (StrList [Samples.question])
      [IntList [27]] [StrList [lit "1895"]] false 64 513 128 None None
    = Return ([f], qa_examples)
    /\ len (input_ids f) = 513 /\ len (input_mask f) = 513
    /\ len (segment_ids f) = 513 /\ BERT_MAX_LEN < len (input_ids f).
Proof. do 2 eexists. vm_compute. repeat split. Qed.

(** * Further properties of the pipeline *)

(** ** The whitespace tokenizer (lines 446-458) *)

Definition not_whitespace (c : N) : bool := negb (_is_whitespace c).

(** The state of the loop over the characters after the text [s]. *)
Definition whitespace_state (s : str) : list str * list Z * bool :=
  fold_left whitespace_step s ([], [], true).

Lemma whitespace_state_snoc (s : str) (c : N) :
  whitespace_state (s ++ [c]) = whitespace_step (whitespace_state s) c.
Proof. unfold whitespace_state. now rewrite fold_left_app. Qed.

Lemma append_to_last_snoc (ws : list str) (w : str) (c : N) :
  append_to_last (ws ++ [w]) c = ws ++ [w ++ [c]].
Proof.
  unfold append_to_last. rewrite rev_app_distr. simpl.
  now rewrite rev_involutive.
Qed.

(** What the loop holds after [s]: the words are the maximal runs of
    characters that are not whitespace, [prev_is_whitespace] says whether
    [s] ends in whitespace (or is empty), and there is one offset per
    character. *)
Lemma whitespace_state_spec (s : str) :
  let '(d_tokens, char_to_word_offset, prev_is_whitespace) :=
    whitespace_state s in
  List.concat d_tokens = filter not_whitespace s
  /\ Forall (fun w => w <> [] /\ forallb not_whitespace w = true) d_tokens
  /\ (prev_is_whitespace = false -> d_tokens <> [])
  /\ List.length char_to_word_offset = List.length s.
Proof.
  induction s as [|c s IH] using rev_ind.
  { simpl. split; [reflexivity|split; [constructor|split; [discriminate|reflexivity]]]. }
  rewrite whitespace_state_snoc.
  destruct (whitespace_state s) as [[d_tokens offsets] prev].
  destruct IH as (Hcat & Hgood & Hprev & Hlen).
  unfold whitespace_step. rewrite filter_app. simpl filter.
  unfold not_whitespace at 2.
  destruct (_is_whitespace c) eqn:Ews; simpl negb; cbv iota.
  - rewrite app_nil_r, !length_app. simpl.
    split; [exact Hcat|split; [exact Hgood|split; [discriminate|lia]]].
  - destruct prev.
    + rewrite concat_app, !length_app. simpl. rewrite Hcat.
      split; [reflexivity|split; [|split; [now destruct d_tokens|lia]]].
      apply Forall_app. split; [exact Hgood|].
      constructor; [|constructor]. split; [discriminate|].
      simpl. unfold not_whitespace. now rewrite Ews.
    + specialize (Hprev eq_refl).
      destruct (exists_last Hprev) as (ws & w & ->).
      rewrite append_to_last_snoc, !length_app. simpl.
      rewrite concat_app in Hcat |- *. simpl in Hcat |- *.
      rewrite app_nil_r in Hcat |- *.
      rewrite app_assoc, Hcat.
      apply Forall_app in Hgood. destruct Hgood as [Hws Hw].
      inversion Hw as [|? ? [Hne Hall] _]; subst.
      split; [reflexivity|split; [|split; [now destruct ws|lia]]].
      apply Forall_app. split; [exact Hws|].
      constructor; [|constructor]. split; [now destruct w|].
      rewrite forallb_app, Hall. simpl. unfold not_whitespace. now rewrite Ews.
Qed.

(** X1: the words of the whitespace tokenizer are not empty, contain no
    whitespace character, and put end to end they are the characters of the
    document that are not whitespace, in order. *)
Theorem whitespace_split_words (d_text : str) :
  let d_tokens := fst (whitespace_split d_text) in
  List.concat d_tokens = filter not_whitespace d_text
  /\ Forall (fun w => w <> [] /\ forallb not_whitespace w = true) d_tokens.
Proof.
  pose proof (whitespace_state_spec d_text) as H.
  unfold whitespace_split. fold (whitespace_state d_text).
  destruct (whitespace_state d_text) as [[d_tokens offsets] prev].
  simpl. tauto.
Qed.

(** The number of words of a text. *)
Definition word_count (s : str) : Z := len (fst (whitespace_split s)).

Lemma whitespace_split_snoc (s : str) (c : N) :
  snd (whitespace_split (s ++ [c]))
  = snd (whitespace_split s) ++ [word_count (s ++ [c]) - 1].
Proof.
  unfold word_count, whitespace_split. fold (whitespace_state (s ++ [c])).
  fold (whitespace_state s). rewrite whitespace_state_snoc.
  destruct (whitespace_state s) as [[d_tokens offsets] prev].
  unfold whitespace_step.
  destruct (_is_whitespace c); [reflexivity|]. destruct prev; reflexivity.
Qed.

Lemma word_count_snoc (s : str) (c : N) :
  word_count s <= word_count (s ++ [c]) <= word_count s + 1
  /\ (_is_whitespace c = false -> 1 <= word_count (s ++ [c])).
Proof.
  pose proof (whitespace_state_spec s) as Hs.
  unfold word_count, whitespace_split. fold (whitespace_state (s ++ [c])).
  fold (whitespace_state s). rewrite whitespace_state_snoc.
  destruct (whitespace_state s) as [[d_tokens offsets] prev].
  destruct Hs as (_ & _ & Hprev & _).
  unfold whitespace_step.
  destruct (_is_whitespace c); simpl; [split; [lia|discriminate]|].
  destruct prev; simpl; unfold len.
  - rewrite length_app. simpl. lia.
  - specialize (Hprev eq_refl).
    destruct (exists_last Hprev) as (ws & w & ->).
    rewrite append_to_last_snoc, !length_app. simpl. lia.
Qed.

Lemma word_count_nil : word_count [] = 0.
Proof. reflexivity. Qed.

Lemma word_count_prefix (s : str) (k : nat) :
  0 <= word_count (firstn k s) <= word_count s.
Proof.
  revert k. induction s as [|c s IH] using rev_ind; intros k.
  - rewrite firstn_nil, word_count_nil. lia.
  - destruct (Nat.le_gt_cases k (List.length s)) as [Hk|Hk].
    + rewrite firstn_app. replace (k - List.length s)%nat with O by lia.
      simpl. rewrite app_nil_r.
      pose proof (IH k). pose proof (word_count_snoc s c). lia.
    + rewrite firstn_all2 by (rewrite length_app; simpl; lia).
      pose proof (IH (List.length s)) as H. rewrite firstn_all in H.
      pose proof (word_count_snoc s c). lia.
Qed.

Lemma firstn_upto {A} (l1 l2 : list A) :
  firstn (List.length l1) (l1 ++ l2) = l1.
Proof. induction l1 as [|x l1 IH]; simpl; [now destruct l2|now rewrite IH]. Qed.

Lemma firstn_through {A} (l1 l2 : list A) (c : A) :
  firstn (S (List.length l1)) (l1 ++ c :: l2) = l1 ++ [c].
Proof.
  induction l1 as [|x l1 IH]; [reflexivity|].
  cbn [List.length app firstn] in *. now rewrite IH.
Qed.

Lemma char_to_word_offset_eq (s : str) :
  snd (whitespace_split s)
  = map (fun i => word_count (firstn (S i) s) - 1) (seq 0 (List.length s)).
Proof.
  induction s as [|c s IH] using rev_ind; [reflexivity|].
  rewrite whitespace_split_snoc, IH, length_app, Nat.add_comm. simpl List.length.
  rewrite seq_S, map_app. cbn [map Nat.add]. f_equal.
  - apply map_ext_in. intros i Hi. apply in_seq in Hi.
    rewrite firstn_app. replace (S i - List.length s)%nat with O by lia.
    rewrite firstn_O, app_nil_r. reflexivity.
  - rewrite firstn_all2 by (rewrite length_app; simpl; lia). reflexivity.
Qed.

(** X2: [char_to_word_offset] has one entry per character of the document.
    The entry of a character is the index of the last word that has started
    at or before it (the number of words of the text up to and including
    the character, minus 1): it lies between -1 and the index of the last
    word, it is at least 0 for a character that is not whitespace, and from
    one character to the next it stays or grows by 1. *)
Theorem char_to_word_offset_spec (d_text : str) :
  let d_tokens := fst (whitespace_split d_text) in
  let char_to_word_offset := snd (whitespace_split d_text) in
  List.length char_to_word_offset = List.length d_text
  /\ (forall i o, nth_error char_to_word_offset i = Some o ->
        o = len (fst (whitespace_split (firstn (S i) d_text))) - 1
        /\ -1 <= o <= len d_tokens - 1)
  /\ (forall i c o, nth_error d_text i = Some c -> _is_whitespace c = false ->
        nth_error char_to_word_offset i = Some o -> 0 <= o)
  /\ (forall i o o', nth_error char_to_word_offset i = Some o ->
        nth_error char_to_word_offset (S i) = Some o' -> o <= o' <= o + 1).
Proof.
  cbv zeta. rewrite char_to_word_offset_eq.
  assert (Hnth : forall i o,
             nth_error
               (map (fun i => word_count (firstn (S i) d_text) - 1)
                    (seq 0 (List.length d_text))) i = Some o ->
             (i < List.length d_text)%nat
             /\ o = word_count (firstn (S i) d_text) - 1).
  { intros i o H. rewrite nth_error_map in H.
    destruct (nth_error (seq 0 (List.length d_text)) i) as [j|] eqn:E;
      [|discriminate].
    assert (Hi : (i < List.length d_text)%nat).
    { rewrite <- (length_seq (List.length d_text) 0). apply nth_error_Some.
      congruence. }
    rewrite nth_error_seq in E.
    destruct (Nat.ltb_spec i (List.length d_text)); [|lia].
    injection E as <-. simpl in H. injection H as <-. auto. }
  split; [now rewrite length_map, length_seq|].
  split; [|split].
  - intros i o H. apply Hnth in H. destruct H as [_ ->].
    split; [reflexivity|].
    pose proof (word_count_prefix d_text (S i)). fold (word_count d_text). lia.
  - intros i c o Hc Hws H. apply Hnth in H. destruct H as [Hi ->].
    apply nth_error_split in Hc. destruct Hc as (l1 & l2 & -> & <-).
    rewrite firstn_through.
    pose proof (proj2 (word_count_snoc l1 c) Hws). lia.
  - intros i o o' H H'. apply Hnth in H, H'.
    destruct H as [Hi ->], H' as [Hi' ->].
    destruct (nth_error d_text (S i)) as [c|] eqn:Ec;
      [|apply nth_error_None in Ec; lia].
    apply nth_error_split in Ec. destruct Ec as (l1 & l2 & -> & Hl1).
    rewrite <- Hl1, firstn_through, firstn_upto.
    pose proof (proj1 (word_count_snoc l1 c)). lia.
Qed.

(** ** The word and sub-token index maps (lines 521-529) *)

Section SubTokens.

Variable tokenizer : BertTokenizer.

Lemma subtokens_of_snoc (doc_tokens : list str) (word : str) :
  subtokens_of tokenizer (doc_tokens ++ [word]) =
    let '(tok_to_orig_index, orig_to_tok_index, all_doc_tokens) :=
      subtokens_of tokenizer doc_tokens in
    (tok_to_orig_index ++ map (fun _ => len doc_tokens) (tokenize tokenizer word),
     orig_to_tok_index ++ [len all_doc_tokens],
     all_doc_tokens ++ tokenize tokenizer word).
Proof.
  unfold subtokens_of. rewrite enumerate_snoc, fold_left_app. simpl.
  destruct (fold_left (subtoken_step tokenizer) (enumerate doc_tokens)
              ([], [], [])) as [[a b] c].
  reflexivity.
Qed.

(** The sub-tokens of the word at index [i] stand in [all_doc_tokens] from
    the position [start] on, and [tok_to_orig_index] sends each of these
    positions back to [i]. *)
Definition word_pieces_at (tok_to_orig_index : list Z)
    (all_doc_tokens : list str) (i start : nat) (word : str) : Prop :=
  let pieces := tokenize tokenizer word in
  (start + List.length pieces <= List.length all_doc_tokens)%nat
  /\ firstn (List.length pieces) (skipn start all_doc_tokens) = pieces
  /\ forall k, (k < List.length pieces)%nat ->
       nth_error tok_to_orig_index (start + k) = Some (Z.of_nat i).

Lemma subtokens_of_spec (doc_tokens : list str) :
  let '(tok_to_orig_index, orig_to_tok_index, all_doc_tokens) :=
    subtokens_of tokenizer doc_tokens in
  all_doc_tokens = flat_map (tokenize tokenizer) doc_tokens
  /\ List.length tok_to_orig_index = List.length all_doc_tokens
  /\ List.length orig_to_tok_index = List.length doc_tokens
  /\ forall i word, nth_error doc_tokens i = Some word ->
       exists start,
         nth_error orig_to_tok_index i = Some (Z.of_nat start)
         /\ word_pieces_at tok_to_orig_index all_doc_tokens i start word.
Proof.
  induction doc_tokens as [|word doc_tokens IH] using rev_ind.
  - simpl. repeat split; auto. intros i word H. now rewrite nth_error_nil in H.
  - rewrite subtokens_of_snoc.
    destruct (subtokens_of tokenizer doc_tokens) as [[toi oti] adt].
    destruct IH as (Hadt & Hlen & Hoti & Hwords).
    split; [now rewrite flat_map_app, Hadt; simpl; rewrite app_nil_r|].
    split; [now rewrite !length_app, length_map, Hlen|].
    split; [now rewrite !length_app, Hoti|].
    intros i w Hi.
    destruct (Nat.lt_ge_cases i (List.length doc_tokens)) as [Hlt|Hge].
    + rewrite nth_error_app1 in Hi by exact Hlt.
      destruct (Hwords i w Hi) as (start & Hstart & Hfit & Hpieces & Hback).
      exists start. split; [now rewrite nth_error_app1 by lia|].
      split; [rewrite length_app; lia|split].
      * rewrite skipn_app. replace (start - List.length adt)%nat with O by lia.
        rewrite firstn_app, length_skipn.
        replace (List.length (tokenize tokenizer w)
                 - (List.length adt - start))%nat with O by lia.
        simpl. now rewrite app_nil_r.
      * intros k Hk. rewrite nth_error_app1 by lia. now apply Hback.
    + assert (i = List.length doc_tokens).
      { assert (i < List.length (doc_tokens ++ [word]))%nat
          by (apply nth_error_Some; congruence).
        rewrite length_app in *. simpl in *. lia. }
      subst i. rewrite nth_error_app2, Nat.sub_diag in Hi by lia.
      injection Hi as <-.
      exists (List.length adt).
      split; [now rewrite nth_error_app2, Hoti, Nat.sub_diag by lia|].
      split; [rewrite length_app; lia|split].
      * rewrite skipn_app, Nat.sub_diag, skipn_all. simpl.
        apply firstn_all.
      * intros k Hk. rewrite nth_error_app2 by lia.
        replace (List.length adt + k - List.length toi)%nat with k by lia.
        rewrite nth_error_map.
        destruct (nth_error (tokenize tokenizer word) k) eqn:E;
          [reflexivity|]. apply nth_error_None in E. lia.
Qed.

End SubTokens.

(** X3: [all_doc_tokens] is the sub-tokens of the words of the document,
    word after word; [tok_to_orig_index] has one entry per sub-token and
    [orig_to_tok_index] one per word; and the two maps agree: the pieces of
    the word [i] are the sub-tokens from the position [orig_to_tok_index[i]]
    on, and [tok_to_orig_index] sends each of them back to [i]. *)
Theorem subtoken_maps_round_trip (tokenizer : BertTokenizer)
    (doc_tokens : list str) :
  let tok_to_orig_index := fst (fst (subtokens_of tokenizer doc_tokens)) in
  let orig_to_tok_index := snd (fst (subtokens_of tokenizer doc_tokens)) in
  let all_doc_tokens := snd (subtokens_of tokenizer doc_tokens) in
  all_doc_tokens = flat_map (tokenize tokenizer) doc_tokens
  /\ List.length tok_to_orig_index = List.length all_doc_tokens
  /\ List.length orig_to_tok_index = List.length doc_tokens
  /\ forall i word, nth_error doc_tokens i = Some word ->
       exists start,
         nth_error orig_to_tok_index i = Some (Z.of_nat start)
         /\ firstn (List.length (tokenize tokenizer word))
                   (skipn start all_doc_tokens)
            = tokenize tokenizer word
         /\ forall k, (k < List.length (tokenize tokenizer word))%nat ->
              nth_error tok_to_orig_index (start + k) = Some (Z.of_nat i).
Proof.
  pose proof (subtokens_of_spec tokenizer doc_tokens) as H.
  destruct (subtokens_of tokenizer doc_tokens) as [[toi oti] adt].
  destruct H as (Hadt & Hlen & Hoti & Hwords). simpl.
  split; [exact Hadt|split; [exact Hlen|split; [exact Hoti|]]].
  intros i word Hi. destruct (Hwords i word Hi) as (start & Hs & _ & Hp & Hb).
  eauto.
Qed.

(** ** The two loops of the feature builder, iteration by iteration *)

Lemma for_each_snoc {A St} (l : list A) (x : A)
    (body : St -> A -> outcome St) (s : St) :
  for_each (l ++ [x]) body s = bind (for_each l body s) (fun s1 => body s1 x).
Proof.
  revert s. induction l as [|y l IH]; intros s; simpl.
  - now destruct (body s x).
  - destruct (body s y); simpl; auto.
Qed.

Lemma nth_error_app_left {A} (l l' : list A) (k : nat) (x : A) :
  nth_error l k = Some x -> nth_error (l ++ l') k = Some x.
Proof.
  intros H. rewrite nth_error_app1; [exact H|].
  apply nth_error_Some. congruence.
Qed.

(** A loop over [enumerate(l)]: a property of the state that holds before
    the loop, and that the iteration on the element of index [k] takes from
    [k] to [k + 1], holds at [len(l)] after the loop. *)
Lemma for_each_enumerate_invariant {A St} (P : nat -> St -> Prop)
    (l : list A) (body : St -> Z * A -> outcome St) :
  (forall k x s s', nth_error l k = Some x -> P k s ->
     body s (Z.of_nat k, x) = Return s' -> P (S k) s') ->
  forall s s', for_each (enumerate l) body s = Return s' ->
               P O s -> P (List.length l) s'.
Proof.
  induction l as [|x l IH] using rev_ind; intros Hbody s s' H Hs.
  - now injection H as <-.
  - rewrite enumerate_snoc, for_each_snoc in H.
    apply bind_return in H. destruct H as (s1 & H1 & H2).
    rewrite length_app, Nat.add_comm. simpl.
    apply (Hbody (List.length l) x s1 s').
    + now rewrite nth_error_app2, Nat.sub_diag by lia.
    + apply (IH (fun k y s0 s0' Hk =>
                   Hbody k y s0 s0' (nth_error_app_left l [x] k y Hk)) s s1 H1 Hs).
    + unfold len in H2. exact H2.
Qed.

(** The query tokens of an example (lines 516-519). *)
Definition example_query (tokenizer : BertTokenizer) (max_query_length : Z)
    (example : QAExample) : list str :=
  query_tokens_of tokenizer (question_text example) max_query_length.

Section Loops.

Context (tokenizer : BertTokenizer) {fl : PyFloat}.
Variables (doc_text question_text : str_or_list)
          (answer_start : list int_or_list) (answer_text : list str_or_list)
          (is_training : bool) (max_query_length max_len doc_stride : Z)
          (qa_id : option (list Z)) (is_impossible : option (list bool))
          (features : list QAFeatures) (qa_examples : list QAExample).

Hypothesis Hreturn :
  tokenize_qa tokenizer doc_text question_text answer_start answer_text
    is_training max_query_length max_len doc_stride qa_id is_impossible
  = Return (features, qa_examples).

(** What one iteration of the loop over the spans has at hand: the example
    of index [k], its index maps, its label positions, its spans, and the
    span of index [j]. *)
Record iteration (k j : nat) := {
  it_example : QAExample;
  it_tok_to_orig_index : list Z;
  it_orig_to_tok_index : list Z;
  it_all_doc_tokens : list str;
  it_tok_start_position : option Z;
  it_tok_end_position : option Z;
  it_doc_spans : list DocSpan;
  it_doc_span : DocSpan;
  it_is_example : nth_error qa_examples k = Some it_example;
  it_subtokens :
    subtokens_of tokenizer (doc_tokens it_example)
    = (it_tok_to_orig_index, it_orig_to_tok_index, it_all_doc_tokens);
  it_positions :
    tok_positions_of tokenizer it_example is_training it_orig_to_tok_index
      it_all_doc_tokens
    = Return (it_tok_start_position, it_tok_end_position);
  it_spans :
    doc_spans_of (len it_all_doc_tokens)
      (max_len
       - len (example_query tokenizer max_query_length it_example) - 3)
      doc_stride
    = Return it_doc_spans;
  it_is_span : nth_error it_doc_spans j = Some it_doc_span
}.

(** The iteration takes the state [st] to [st']. *)
Definition runs {k j : nat} (it : iteration k j)
    (st st' : Z * list QAFeatures) : Prop :=
  feature_step tokenizer (Z.of_nat k) (it_example k j it) is_training max_len
    (example_query tokenizer max_query_length (it_example k j it))
    (it_tok_to_orig_index k j it) (it_all_doc_tokens k j it)
    (it_tok_start_position k j it) (it_tok_end_position k j it)
    (it_doc_spans k j it) st (Z.of_nat j, it_doc_span k j it)
  = Return st'.

(** A property of [(unique_id, features)] that holds at the start, and that
    every iteration keeps, holds at the end. The index [k] counts the
    examples that are done. *)
Lemma tokenize_qa_invariant (P : nat -> Z * list QAFeatures -> Prop) :
  P O (1000000000, []) ->
  (forall k st, P k st -> P (S k) st) ->
  (forall k j (it : iteration k j) st st', P k st -> runs it st st' -> P k st') ->
  exists uid, P (List.length qa_examples) (uid, features).
Proof.
  intros Hinit Hnext Hstep. pose proof Hreturn as H. unfold tokenize_qa in H.
  apply bind_return in H. destruct H as (examples & Hex & H).
  apply bind_return in H. destruct H as ([uid feats] & Hloop & H).
  injection H as Hf He. subst feats examples.
  exists uid.
  refine (for_each_enumerate_invariant P _ _ _ _ _ Hloop Hinit).
  intros k example st st' Hk Hst Hstep_k.
  apply example_step_inv in Hstep_k.
  destruct Hstep_k as (toi & oti & adt & tsp & tep & spans & Hsub & Hpos
                       & Hspans & Hfeat).
  cbv zeta in Hspans, Hfeat.
  apply Hnext.
  refine (for_each_enumerate_invariant (fun _ => P k) _ _ _ _ _ Hfeat Hst).
  intros j sp s0 s0' Hj Hs0 Hf.
  apply (Hstep k j
           {| it_example := example; it_is_example := Hk;
              it_subtokens := Hsub; it_positions := Hpos; it_spans := Hspans;
              it_is_span := Hj |} s0 s0' Hs0).
  exact Hf.
Qed.

(** Every returned feature is the one that some iteration appends. *)
Lemma tokenize_qa_every_feature (Q : QAFeatures -> Prop) :
  (forall k j (it : iteration k j) uid feats f,
     runs it (uid, feats) (uid + 1, feats ++ [f]) -> Q f) ->
  Forall Q features.
Proof.
  intros HQ.
  enough (exists uid : Z, Forall Q (snd (uid, features))) as [uid H]
    by exact H.
  apply (tokenize_qa_invariant (fun _ st => Forall Q (snd st)));
    [constructor|auto|].
  intros k j it [uid feats] st' Hst Hrun. pose proof Hrun as Hrun'.
  unfold runs in Hrun'. apply feature_step_inv in Hrun'.
  destruct Hrun' as (toks & tmap & tctx & segs & sp & ep & _ & _ & Hst').
  cbv zeta in Hst'. destruct Hst' as (_ & _ & _ & ->). simpl.
  apply Forall_app. split; [exact Hst|]. constructor; [|constructor].
  now apply (HQ k j it uid feats _ Hrun).
Qed.

End Loops.

Arguments it_example {_ _ _ _ _ _ _ _} _.
Arguments it_tok_to_orig_index {_ _ _ _ _ _ _ _} _.
Arguments it_orig_to_tok_index {_ _ _ _ _ _ _ _} _.
Arguments it_all_doc_tokens {_ _ _ _ _ _ _ _} _.
Arguments it_tok_start_position {_ _ _ _ _ _ _ _} _.
Arguments it_tok_end_position {_ _ _ _ _ _ _ _} _.
Arguments it_doc_spans {_ _ _ _ _ _ _ _} _.
Arguments it_doc_span {_ _ _ _ _ _ _ _} _.
Arguments it_is_example {_ _ _ _ _ _ _ _} _.
Arguments it_subtokens {_ _ _ _ _ _ _ _} _.
Arguments it_positions {_ _ _ _ _ _ _ _} _.
Arguments it_spans {_ _ _ _ _ _ _ _} _.
Arguments it_is_span {_ _ _ _ _ _ _ _} _.
Arguments runs {_ _ _ _ _ _ _ _ _} _ _ _.

(** ** The ids and the example indices of the features (lines 513-515, 659-672) *)

Lemma range_snoc (a b : Z) : a <= b -> range a (b + 1) = range a b ++ [b].
Proof.
  intros H. unfold range.
  replace (Z.to_nat (b + 1 - a)) with (S (Z.to_nat (b - a))) by lia.
  rewrite seq_S, map_app. simpl. f_equal. f_equal. lia.
Qed.

Lemma runs_appends (tokenizer : BertTokenizer) {fl : PyFloat}
    (is_training : bool) (max_query_length max_len doc_stride : Z)
    (qa_examples : list QAExample) (k j : nat)
    (it : iteration tokenizer is_training max_query_length max_len doc_stride
            qa_examples k j)
    (uid : Z) (feats : list QAFeatures) (st' : Z * list QAFeatures) :
  runs it (uid, feats) st' ->
  exists f, st' = (uid + 1, feats ++ [f])
            /\ unique_id f = uid /\ example_index f = Z.of_nat k.
Proof.
  unfold runs. intros H. apply feature_step_inv in H.
  destruct H as (toks & tmap & tctx & segs & sp & ep & _ & _ & Hst').
  cbv zeta in Hst'. destruct Hst' as (_ & _ & _ & ->).
  eexists. split; [reflexivity|]. simpl. auto.
Qed.

(** X4: the unique ids of the returned features are the consecutive
    integers from 1000000000 on, in the order of the features. *)
Theorem unique_ids_consecutive (tokenizer : BertTokenizer) {fl : PyFloat}
    (doc_text question_text : str_or_list)
    (answer_start : list int_or_list) (answer_text : list str_or_list)
    (is_training : bool) (max_query_length max_len doc_stride : Z)
    (qa_id : option (list Z)) (is_impossible : option (list bool))
    (features : list QAFeatures) (qa_examples : list QAExample) :
  tokenize_qa tokenizer doc_text question_text answer_start answer_text
    is_training max_query_length max_len doc_stride qa_id is_impossible
  = Return (features, qa_examples) ->
  map unique_id features = range 1000000000 (1000000000 + len features).
Proof.
  intros Hreturn.
  destruct (tokenize_qa_invariant tokenizer _ _ _ _ _ _ _ _ _ _ _ _ Hreturn
              (fun _ st => 1000000000 <= fst st
                           /\ map unique_id (snd st)
                              = range 1000000000 (fst st)))
    as (uid & Hle & Hids).
  - split; [simpl; lia|reflexivity].
  - auto.
  - intros k j it [uid feats] st' [Hle Hids] Hrun.
    apply runs_appends in Hrun. destruct Hrun as (f & -> & Hf & _).
    simpl in *. split; [lia|].
    rewrite map_app, Hids, range_snoc by lia. simpl. now rewrite Hf.
  - simpl in Hle, Hids. rewrite Hids. f_equal.
    apply (f_equal (@List.length Z)) in Hids.
    rewrite length_map, length_range in Hids. unfold len. lia.
Qed.

Lemma strongly_sorted_snoc {A} (R : A -> A -> Prop) (l : list A) (a : A) :
  StronglySorted R l -> Forall (fun x => R x a) l ->
  StronglySorted R (l ++ [a]).
Proof.
  induction 1 as [|x l Hl IH Hx]; intros Ha; simpl.
  - repeat constructor.
  - inversion Ha as [|? ? Hxa Hla]; subst. constructor; [auto|].
    apply Forall_app. split; [exact Hx|]. now constructor.
Qed.

(** X5: the features come example by example: their [example_index] is an
    index into the returned examples, and it never decreases along the
    list of the features. *)
Theorem example_index_sorted (tokenizer : BertTokenizer) {fl : PyFloat}
    (doc_text question_text : str_or_list)
    (answer_start : list int_or_list) (answer_text : list str_or_list)
    (is_training : bool) (max_query_length max_len doc_stride : Z)
    (qa_id : option (list Z)) (is_impossible : option (list bool))
    (features : list QAFeatures) (qa_examples : list QAExample) :
  tokenize_qa tokenizer doc_text question_text answer_start answer_text
    is_training max_query_length max_len doc_stride qa_id is_impossible
  = Return (features, qa_examples) ->
  Forall (fun f => 0 <= example_index f < len qa_examples) features
  /\ StronglySorted Z.le (map example_index features).
Proof.
  intros Hreturn.
  destruct (tokenize_qa_invariant tokenizer _ _ _ _ _ _ _ _ _ _ _ _ Hreturn
              (fun k st =>
                 Forall (fun f => 0 <= example_index f < len qa_examples
                                  /\ example_index f <= Z.of_nat k) (snd st)
                 /\ StronglySorted Z.le (map example_index (snd st))))
    as (uid & Hall & Hsorted).
  - split; constructor.
  - intros k st [Hall Hsorted]. split; [|exact Hsorted].
    eapply Forall_impl; [|exact Hall]. simpl. intros f Hf. lia.
  - intros k j it [uid feats] st' [Hall Hsorted] Hrun.
    pose proof (it_is_example it) as Hk.
    assert (Hlt : (k < List.length qa_examples)%nat)
      by (apply nth_error_Some; congruence).
    apply runs_appends in Hrun. destruct Hrun as (f & -> & _ & Hf).
    simpl in *. split.
    + apply Forall_app. split; [exact Hall|].
      constructor; [|constructor]. unfold len. lia.
    + rewrite map_app. simpl. apply strongly_sorted_snoc; [exact Hsorted|].
      rewrite Forall_map. eapply Forall_impl; [|exact Hall].
      simpl. intros g Hg. lia.
  - simpl in *. split; [|exact Hsorted].
    eapply Forall_impl; [|exact Hall]. simpl. tauto.
Qed.

(** ** The layout of a feature (lines 565-632) *)

Section ParagraphLoop.

Context {fl : PyFloat}.
Variables (doc_spans : list DocSpan) (doc_span_index : Z)
          (doc_span : DocSpan) (tok_to_orig_index : list Z)
          (all_doc_tokens : list str).

(** The paragraph loop appends the tokens at the indices, a segment id 1
    for each, and maps the new positions to the words of the tokens. *)
Lemma paragraph_loop_spec (indices : list Z) :
  forall toks tmap tctx segs toks' tmap' tctx' segs',
    for_each indices
      (paragraph_step doc_spans doc_span_index doc_span tok_to_orig_index
         all_doc_tokens)
      (toks, tmap, tctx, segs) = Return (toks', tmap', tctx', segs') ->
    (forall k v, In (k, v) tmap -> k < len toks) ->
    exists window origs,
      Forall2 (fun i t => getitem all_doc_tokens (DocSpan.start doc_span + i)
                          = Some t) indices window
      /\ Forall2 (fun i o => getitem tok_to_orig_index
                               (DocSpan.start doc_span + i) = Some o)
           indices origs
      /\ toks' = toks ++ window
      /\ segs' = segs ++ repeat sequence_b_segment_id (List.length indices)
      /\ tmap' = tmap ++ combine
                           (map (fun j => len toks + Z.of_nat j)
                                (seq 0 (List.length indices)))
                           origs.
Proof.
  induction indices as [|i indices IH]; intros toks tmap tctx segs toks' tmap'
    tctx' segs' H Hkeys.
  - injection H as <- <- _ <-. exists [], []. simpl.
    rewrite !app_nil_r. repeat split; constructor.
  - simpl in H. apply bind_return in H. destruct H as (st1 & H1 & H2).
    apply paragraph_step_inv in H1.
    destruct H1 as (orig & token & Horig & Htoken & ->).
    rewrite (setitem_fresh tmap) in H2
      by (intros k' v' Hin; apply Hkeys in Hin; lia).
    apply IH in H2.
    + destruct H2 as (window & origs & Hw & Ho & -> & -> & ->).
      exists (token :: window), (orig :: origs).
      split; [now constructor|]. split; [now constructor|].
      rewrite <- !app_assoc. split; [reflexivity|]. split; [reflexivity|].
      f_equal. cbn [List.length seq map combine app].
      rewrite Z.add_0_r. f_equal.
      rewrite <- seq_shift, map_map. f_equal. apply map_ext.
      intros j. unfold len. rewrite length_app. simpl. lia.
    + intros k v Hin. unfold len. rewrite length_app. simpl.
      apply in_app_or in Hin. destruct Hin as [Hin|[[= <- _]|[]]].
      * apply Hkeys in Hin. unfold len in Hin. lia.
      * unfold len. lia.
Qed.

End ParagraphLoop.

Lemma getitem_nonneg {A} (l : list A) (i : Z) (x : A) :
  0 <= i -> getitem l i = Some x -> nth_error l (Z.to_nat i) = Some x.
Proof.
  intros Hi. unfold getitem. destruct (Z.ltb_spec i 0); [lia|].
  destruct ((0 <=? i) && (i <? len l)); [auto|discriminate].
Qed.

Lemma firstn_succ {A} (l : list A) (m : nat) (x : A) :
  nth_error l m = Some x -> firstn (S m) l = firstn m l ++ [x].
Proof.
  revert l. induction m as [|m IH]; intros [|y l] H; try discriminate.
  - now injection H as ->.
  - simpl in H. change (firstn (S (S m)) (y :: l)) with (y :: firstn (S m) l).
    now rewrite (IH l H).
Qed.

(** Reading a list at [s], [s + 1], ..., [s + n - 1] gives the [n] items
    after the first [s]. *)
Lemma getitem_window {A} (l : list A) (s n : Z) (w : list A) :
  0 <= s ->
  Forall2 (fun i x => getitem l (s + i) = Some x) (range 0 n) w ->
  w = firstn (Z.to_nat n) (skipn (Z.to_nat s) l)
  /\ List.length w = Z.to_nat n.
Proof.
  intros Hs. unfold range. rewrite Z.sub_0_r.
  generalize (Z.to_nat n) as m. clear n. intros m. revert w.
  induction m as [|m IH]; intros w H.
  - inversion H; subst. auto.
  - rewrite seq_S, map_app in H. apply Forall2_app_inv_l in H.
    destruct H as (w1 & w2 & H1 & H2 & ->).
    apply IH in H1. destruct H1 as [H1 Hlen].
    inversion H2 as [|i x ? ? Hx Hnil]; subst. inversion Hnil; subst.
    apply getitem_nonneg in Hx; [|lia].
    rewrite length_app, Hlen. cbn [List.length]. split; [|lia].
    rewrite (firstn_succ _ m x); [reflexivity|].
    rewrite nth_error_skipn. rewrite <- Hx. f_equal. lia.
Qed.

Ltac list_lengths :=
  unfold len;
  repeat progress
    (rewrite ?length_app, ?length_map, ?repeat_length, ?length_range;
     cbn [List.length]).

Ltac list_lengths_in H :=
  unfold len in H;
  repeat progress
    (rewrite ?length_app, ?length_map, ?repeat_length, ?length_range in H;
     cbn [List.length] in H).

Lemma in_nth_error {A} (l : list A) (n : nat) (x : A) :
  nth_error l n = Some x -> In x l.
Proof. apply nth_error_In. Qed.

Section Iteration.

Context (tokenizer : BertTokenizer) {fl : PyFloat}.
Variables (is_training : bool) (max_query_length max_len doc_stride : Z)
          (qa_examples : list QAExample) (k j : nat).
Variable it : iteration tokenizer is_training max_query_length max_len
                doc_stride qa_examples k j.

Let query := example_query tokenizer max_query_length (it_example it).
Let first := Z.to_nat (DocSpan.start (it_doc_span it)).
Let width := Z.to_nat (DocSpan.length (it_doc_span it)).

(** The span of an iteration lies inside the sub-tokens of the document,
    is not empty, and leaves room for the question and the three special
    tokens. *)
Lemma iteration_span :
  0 <= DocSpan.start (it_doc_span it)
  /\ 0 < DocSpan.length (it_doc_span it) <= max_len - len query - 3
  /\ DocSpan.start (it_doc_span it) + DocSpan.length (it_doc_span it)
     <= len (it_all_doc_tokens it).
Proof.
  apply (doc_spans_of_bounds _ _ _ _ (it_spans it)).
  apply (in_nth_error _ j), (it_is_span it).
Qed.

Lemma iteration_all_doc_tokens :
  it_all_doc_tokens it = flat_map (tokenize tokenizer) (doc_tokens (it_example it))
  /\ List.length (it_tok_to_orig_index it) = List.length (it_all_doc_tokens it).
Proof.
  pose proof (subtokens_of_spec tokenizer (doc_tokens (it_example it))) as H.
  rewrite (it_subtokens it) in H. tauto.
Qed.

(** Everything a feature holds, from what its iteration has at hand. *)
Lemma runs_feature (uid : Z) (feats : list QAFeatures)
    (st' : Z * list QAFeatures) :
  runs it (uid, feats) st' ->
  exists f,
    st' = (uid + 1, feats ++ [f])
    /\ unique_id f = uid
    /\ example_index f = Z.of_nat k
    /\ tokens f = [cls_token] ++ query ++ [sep_token]
                  ++ firstn width (skipn first (it_all_doc_tokens it))
                  ++ [sep_token]
    /\ token_to_orig_map f
       = combine (map (fun i => len query + 2 + Z.of_nat i) (seq 0 width))
                 (firstn width (skipn first (it_tok_to_orig_index it)))
    /\ segment_ids f
       = repeat 0 (List.length query + 2) ++ repeat 1 (width + 1)
         ++ repeat 0 (Z.to_nat (max_len - len (tokens f)))
    /\ len (tokens f) = len query + 3 + DocSpan.length (it_doc_span it)
    /\ len (tokens f) <= max_len
    /\ paragraph_len f = DocSpan.length (it_doc_span it)
    /\ labels_of (it_example it) is_training (it_doc_span it) query
         (it_tok_start_position it) (it_tok_end_position it) 0
       = Return (f_start_position f, f_end_position f).
Proof.
  pose proof iteration_span as (Hstart & Hlength & Hend).
  unfold runs. fold query. intros H. apply feature_step_inv in H.
  destruct H as (toks & tmap & tctx & segs & sp & ep & Hpar & Hlab & Hst').
  cbv zeta in Hst'. destruct Hst' as (_ & _ & Hsegs & ->).
  apply paragraph_loop_spec in Hpar; [|intros ? ? []].
  destruct Hpar as (window & origs & Hw & Ho & -> & -> & ->).
  apply getitem_window in Hw; [|exact Hstart].
  apply getitem_window in Ho; [|exact Hstart].
  destruct Hw as [-> Hwl], Ho as [-> Hol]. fold first width in Hwl, Hol |- *.
  assert (Hlen : len (([cls_token] ++ query ++ [sep_token])
                      ++ firstn width (skipn first (it_all_doc_tokens it))
                      ++ [sep_token])
                 = len query + 3 + DocSpan.length (it_doc_span it)).
  { list_lengths. rewrite Hwl. unfold width. lia. }
  eexists. split; [reflexivity|]. cbn [unique_id example_index tokens
    token_to_orig_map segment_ids paragraph_len f_start_position
    f_end_position].
  rewrite <- !app_assoc in *.
  split; [reflexivity|]. split; [reflexivity|]. split; [reflexivity|].
  split.
  { rewrite app_nil_l, length_range, Z.sub_0_r. fold width. f_equal.
    apply map_ext. intros i. list_lengths. lia. }
  assert (Hk : Z.of_nat
                 (Z.to_nat
                    (max_len
                     - len (convert_tokens_to_ids tokenizer
                              ([cls_token] ++ query ++ [sep_token]
                               ++ firstn width
                                    (skipn first (it_all_doc_tokens it))
                               ++ [sep_token]))))
               = max_len - (len query + 3 + DocSpan.length (it_doc_span it))).
  { list_lengths_in Hsegs. unfold len, width, first. lia. }
  split.
  { rewrite length_range, Z.sub_0_r. fold width.
    rewrite Hlen. rewrite <- Hk, Nat2Z.id.
    change ([cls_token_segment_id]) with (repeat 0 1).
    replace (map (fun _ => sequence_a_segment_id) query)
      with (repeat 0 (List.length query))
      by (clear; induction query as [|x q IH]; simpl; [|rewrite IH]; auto).
    change ([sequence_a_segment_id]) with (repeat 0 1).
    change ([sequence_b_segment_id]) with (repeat 1 1).
    change sequence_b_segment_id with 1.
    replace (List.length query + 2)%nat with (1 + (List.length query + 1))%nat
      by lia.
    rewrite !repeat_app, <- !app_assoc. reflexivity. }
  split; [exact Hlen|]. split; [lia|]. split; [reflexivity|exact Hlab].
Qed.

End Iteration.

(** Every sub-token is a piece of the word that [tok_to_orig_index] names
    at its position. *)
Lemma subtoken_origin (tokenizer : BertTokenizer) (doc_tokens : list str) :
  let '(tok_to_orig_index, _, all_doc_tokens) :=
    subtokens_of tokenizer doc_tokens in
  forall p piece, nth_error all_doc_tokens p = Some piece ->
    exists i word,
      nth_error tok_to_orig_index p = Some (Z.of_nat i)
      /\ nth_error doc_tokens i = Some word
      /\ In piece (tokenize tokenizer word).
Proof.
  induction doc_tokens as [|word doc_tokens IH] using rev_ind.
  - simpl. intros p piece H. now rewrite nth_error_nil in H.
  - rewrite subtokens_of_snoc.
    pose proof (subtokens_of_spec tokenizer doc_tokens) as Hspec.
    destruct (subtokens_of tokenizer doc_tokens) as [[toi oti] adt].
    destruct Hspec as (_ & Hlen & _).
    intros p piece Hp.
    destruct (Nat.lt_ge_cases p (List.length adt)) as [Hlt|Hge].
    + rewrite nth_error_app1 in Hp by exact Hlt.
      destruct (IH p piece Hp) as (i & w & Hi & Hw & Hin).
      exists i, w. rewrite nth_error_app1 by lia.
      split; [exact Hi|]. split; [|exact Hin].
      now apply nth_error_app_left.
    + rewrite nth_error_app2 in Hp by exact Hge.
      exists (List.length doc_tokens), word.
      rewrite nth_error_app2 by lia. rewrite Hlen, nth_error_map, Hp.
      split; [reflexivity|].
      rewrite nth_error_app2, Nat.sub_diag by lia.
      split; [reflexivity|]. eapply nth_error_In, Hp.
Qed.

(** The layout of a feature of [example]: [CLS], the query, [SEP], a
    window of [paragraph_len] sub-tokens of the document, [SEP]; the
    segment ids are 0 up to the first [SEP], 1 up to the second, and 0 on
    the padding. *)
Definition feature_layout (tokenizer : BertTokenizer)
    (max_query_length max_len : Z) (example : QAExample) (f : QAFeatures)
    : Prop :=
  let query := example_query tokenizer max_query_length example in
  let all_doc_tokens := flat_map (tokenize tokenizer) (doc_tokens example) in
  let width := Z.to_nat (paragraph_len f) in
  exists first : nat,
    0 < paragraph_len f
    /\ (first + width <= List.length all_doc_tokens)%nat
    /\ tokens f = [cls_token] ++ query ++ [sep_token]
                  ++ firstn width (skipn first all_doc_tokens) ++ [sep_token]
    /\ segment_ids f
       = repeat 0 (List.length query + 2) ++ repeat 1 (width + 1)
         ++ repeat 0 (Z.to_nat (max_len - len (tokens f)))
    /\ len (tokens f) <= max_len.

(** X6: every returned feature belongs to the returned example that its
    [example_index] names, and is laid out as [CLS] query [SEP] window
    [SEP], where the window is a non-empty run of [paragraph_len]
    consecutive sub-tokens of the document of that example; its segment
    ids are 0 on [CLS] query [SEP], 1 on window [SEP] and 0 on the
    padding, and its tokens are no more than [max_len]. *)
Theorem features_layout (tokenizer : BertTokenizer) {fl : PyFloat}
    (doc_text question_text : str_or_list)
    (answer_start : list int_or_list) (answer_text : list str_or_list)
    (is_training : bool) (max_query_length max_len doc_stride : Z)
    (qa_id : option (list Z)) (is_impossible : option (list bool))
    (features : list QAFeatures) (qa_examples : list QAExample) :
  tokenize_qa tokenizer doc_text question_text answer_start answer_text
    is_training max_query_length max_len doc_stride qa_id is_impossible
  = Return (features, qa_examples) ->
  Forall (fun f =>
            exists example,
              nth_error qa_examples (Z.to_nat (example_index f)) = Some example
              /\ feature_layout tokenizer max_query_length max_len example f)
    features.
Proof.
  intros Hreturn.
  apply (tokenize_qa_every_feature tokenizer _ _ _ _ _ _ _ _ _ _ _ _ Hreturn).
  intros k j it uid feats f Hrun.
  destruct (runs_feature tokenizer _ _ _ _ _ _ _ it _ _ _ Hrun)
    as (f' & E & _ & Hk & Htokens & _ & Hsegs & _ & Hfit & Hpl & _).
  injection E as E. apply app_inj_tail in E. destruct E as [_ <-].
  pose proof (iteration_span tokenizer _ _ _ _ _ _ _ it) as (Hs & Hl & He).
  pose proof (iteration_all_doc_tokens tokenizer _ _ _ _ _ _ _ it) as [Hadt _].
  exists (it_example it). rewrite Hk, Nat2Z.id.
  split; [exact (it_is_example it)|].
  exists (Z.to_nat (DocSpan.start (it_doc_span it))).
  rewrite Hpl, <- Hadt.
  split; [lia|]. split; [unfold len in He; lia|].
  split; [exact Htokens|]. split; [exact Hsegs|exact Hfit].
Qed.

(** ** The map from the tokens of a feature to the words (lines 593-600) *)

Lemma get_combine_seq {V} (a : Z) (n : nat) :
  forall (s : nat) (vals : list V) (i : nat),
    (i < n)%nat -> (i < List.length vals)%nat ->
    get (combine (map (fun j => a + Z.of_nat j) (seq s n)) vals)
        (a + Z.of_nat (s + i))
    = nth_error vals i.
Proof.
  induction n as [|n IH]; intros s [|v vals] i Hn Hv; simpl in Hv; try lia.
  cbn [seq map combine get]. destruct i as [|i].
  - rewrite Nat.add_0_r, Z.eqb_refl. reflexivity.
  - destruct (Z.eqb_spec (a + Z.of_nat s) (a + Z.of_nat (s + S i))); [lia|].
    replace (s + S i)%nat with (S s + i)%nat by lia.
    cbn [nth_error]. apply IH; lia.
Qed.

Lemma map_fst_combine {A B} (l : list A) (l' : list B) :
  List.length l = List.length l' -> map fst (combine l l') = l.
Proof.
  revert l'. induction l as [|x l IH]; intros [|y l'] H; try discriminate;
    [reflexivity|].
  simpl. f_equal. apply IH. now injection H.
Qed.

Lemma nth_error_window {A} (l : list A) (first width i : nat) :
  (i < width)%nat ->
  nth_error (firstn width (skipn first l)) i = nth_error l (first + i).
Proof.
  intros H. rewrite <- nth_error_skipn. revert i width H.
  generalize (skipn first l) as r. clear l.
  induction r as [|x r IH]; intros [|i] [|w] H; try lia; try reflexivity.
  simpl. apply IH. lia.
Qed.

(** X7: the [token_to_orig_map] of a feature has one key for each token of
    the window, the positions [len(query) + 2] and following; the value at
    the position of a window token is the index of a word of the document
    of the example, and the token is one of the sub-tokens of that word. *)
Theorem token_to_orig_map_words (tokenizer : BertTokenizer) {fl : PyFloat}
    (doc_text question_text : str_or_list)
    (answer_start : list int_or_list) (answer_text : list str_or_list)
    (is_training : bool) (max_query_length max_len doc_stride : Z)
    (qa_id : option (list Z)) (is_impossible : option (list bool))
    (features : list QAFeatures) (qa_examples : list QAExample) :
  tokenize_qa tokenizer doc_text question_text answer_start answer_text
    is_training max_query_length max_len doc_stride qa_id is_impossible
  = Return (features, qa_examples) ->
  Forall (fun f =>
            exists example,
              let query := example_query tokenizer max_query_length example in
              nth_error qa_examples (Z.to_nat (example_index f)) = Some example
              /\ map fst (token_to_orig_map f)
                 = range (len query + 2) (len query + 2 + paragraph_len f)
              /\ forall i, (i < Z.to_nat (paragraph_len f))%nat ->
                   exists w word piece,
                     get (token_to_orig_map f) (len query + 2 + Z.of_nat i)
                     = Some (Z.of_nat w)
                     /\ nth_error (doc_tokens example) w = Some word
                     /\ nth_error (tokens f) (List.length query + 2 + i)
                        = Some piece
                     /\ In piece (tokenize tokenizer word))
    features.
Proof.
  intros Hreturn.
  apply (tokenize_qa_every_feature tokenizer _ _ _ _ _ _ _ _ _ _ _ _ Hreturn).
  intros k j it uid feats f Hrun.
  destruct (runs_feature tokenizer _ _ _ _ _ _ _ it _ _ _ Hrun)
    as (f' & E & _ & Hk & Htokens & Hmap & _ & _ & _ & Hpl & _).
  injection E as E. apply app_inj_tail in E. destruct E as [_ <-].
  pose proof (iteration_span tokenizer _ _ _ _ _ _ _ it) as (Hs & Hl & He).
  pose proof (iteration_all_doc_tokens tokenizer _ _ _ _ _ _ _ it)
    as [_ Htoi].
  pose proof (subtoken_origin tokenizer (doc_tokens (it_example it)))
    as Horigin.
  rewrite (it_subtokens it) in Horigin.
  exists (it_example it). cbv zeta. rewrite Hk, Nat2Z.id, Hpl.
  set (query := example_query tokenizer max_query_length (it_example it))
    in *.
  set (first := Z.to_nat (DocSpan.start (it_doc_span it))) in *.
  set (width := Z.to_nat (DocSpan.length (it_doc_span it))) in *.
  assert (Hfit : (first + width <= List.length (it_all_doc_tokens it))%nat)
    by (unfold len in He; lia).
  assert (Horigs : List.length
                     (firstn width (skipn first (it_tok_to_orig_index it)))
                   = width)
    by (rewrite length_firstn, length_skipn; lia).
  split; [exact (it_is_example it)|]. split.
  - rewrite Hmap, map_fst_combine.
    + unfold range.
      replace (Z.to_nat (len query + 2 + DocSpan.length (it_doc_span it)
                         - (len query + 2))) with width by lia.
      reflexivity.
    + now rewrite length_map, length_seq, Horigs.
  - intros i Hi.
    destruct (nth_error (it_all_doc_tokens it) (first + i)) as [piece|] eqn:Ep;
      [|apply nth_error_None in Ep; lia].
    destruct (Horigin _ _ Ep) as (w & word & Hw & Hword & Hin).
    exists w, word, piece. split; [|split; [exact Hword|split; [|exact Hin]]].
    + rewrite Hmap.
      rewrite (get_combine_seq (len query + 2) width 0 _ i Hi)
        by (rewrite Horigs; exact Hi).
      now rewrite nth_error_window by exact Hi.
    + rewrite Htokens.
      change ([cls_token] ++ query ++ [sep_token]
              ++ firstn width (skipn first (it_all_doc_tokens it))
              ++ [sep_token])
        with (cls_token :: (query ++ sep_token
                :: (firstn width (skipn first (it_all_doc_tokens it))
                    ++ [sep_token]))).
      replace (List.length query + 2 + i)%nat
        with (S (List.length query + S i)) by lia.
      cbn [nth_error]. rewrite nth_error_app2 by lia.
      replace (List.length query + S i - List.length query)%nat with (S i)
        by lia.
      cbn [nth_error]. rewrite nth_error_app1
        by (rewrite length_firstn, length_skipn; lia).
      now rewrite nth_error_window by exact Hi.
Qed.

(** ** The labels in training mode (lines 470-501, 531-544, 634-657) *)

Lemma getitem_in {A} (l : list A) (i : Z) (x : A) :
  getitem l i = Some x -> In x l.
Proof.
  unfold getitem.
  destruct ((0 <=? (if i <? 0 then i + len l else i))
            && ((if i <? 0 then i + len l else i) <? len l));
    [apply nth_error_In|discriminate].
Qed.

Lemma char_to_word_offset_bounds (d_text : str) (o : Z) :
  In o (snd (whitespace_split d_text)) ->
  -1 <= o <= len (fst (whitespace_split d_text)) - 1.
Proof.
  rewrite char_to_word_offset_eq, in_map_iff. intros (i & <- & _).
  pose proof (word_count_prefix d_text (S i)). fold (word_count d_text). lia.
Qed.

(** A training example: an impossible question has the positions -1; an
    answerable one has the word offsets of the first and the last character
    of its answer, between -1 and the index of the last word, and the
    words between them contain the answer text. *)
Definition training_example (tokenizer : BertTokenizer) (e : QAExample)
    : Prop :=
  if is_impossible e then
    start_position e = Some (-1) /\ end_position e = Some (-1)
  else
    exists start_position' end_position' answer,
      start_position e = Some start_position'
      /\ end_position e = Some end_position'
      /\ orig_answer_text e = Str answer
      /\ -1 <= start_position' <= len (doc_tokens e) - 1
      /\ -1 <= end_position' <= len (doc_tokens e) - 1
      /\ find (join space
                 (slice (doc_tokens e) start_position' (end_position' + 1)))
              (join space (whitespace_tokenize tokenizer answer)) <> -1.

Lemma example_of_training (tokenizer : BertTokenizer) (d_text q_text : str)
    (q_id : Z) (impossible : bool) (s : Z) (t : str_or_list)
    (e : option QAExample) :
  example_of tokenizer (fst (whitespace_split d_text))
    (snd (whitespace_split d_text)) q_text q_id impossible true s t
  = Return e ->
  exists e', e = Some e' /\ training_example tokenizer e'.
Proof.
  unfold example_of, training_example. destruct impossible; simpl.
  - intros [= <-]. eexists. split; [reflexivity|]. simpl. auto.
  - intros H. apply bind_return in H. destruct H as (sp & Hsp & H).
    apply bind_return in H. destruct H as (ep & Hep & H).
    apply bind_return in H. destruct H as (words & Hwords & H).
    destruct t as [t|ts]; [|discriminate]. injection Hwords as <-.
    destruct (Z.eqb_spec
                (find (join space
                         (slice (fst (whitespace_split d_text)) sp (ep + 1)))
                      (join space (whitespace_tokenize tokenizer t))) (-1))
      as [|Hfound]; [discriminate|].
    injection H as <-. eexists. split; [reflexivity|]. simpl.
    exists sp, ep, t.
    unfold index in Hsp, Hep. cbn [len_of] in Hep.
    destruct (getitem (snd (whitespace_split d_text)) s) as [sp'|] eqn:Es;
      [|discriminate].
    destruct (getitem (snd (whitespace_split d_text)) (s + len t - 1))
      as [ep'|] eqn:Ee; [|discriminate].
    simpl in Hsp, Hep. injection Hsp as <-. injection Hep as <-.
    apply getitem_in, char_to_word_offset_bounds in Es, Ee.
    repeat (split; [first [reflexivity|lia]|]). exact Hfound.
Qed.

(** In training mode every example that is built is a training example. *)
Lemma qa_examples_training (tokenizer : BertTokenizer)
    (doc_text question_text : str_or_list)
    (answer_start : list int_or_list) (answer_text : list str_or_list)
    (qa_id : option (list Z)) (is_impossible : option (list bool))
    (qa_examples : list QAExample) :
  qa_examples_of tokenizer doc_text question_text answer_start answer_text
    true qa_id is_impossible = Return qa_examples ->
  Forall (training_example tokenizer) qa_examples.
Proof.
  unfold qa_examples_of. intros Hex.
  refine (for_append_invariant _ _ _ _ _ _ Hex (Forall_nil _)).
  intros [[[[[d_text q_text] a_start] a_text] q_id] impossible] ys _ Hq.
  unfold examples_of_question in Hq.
  pose proof (example_of_training tokenizer d_text q_text q_id impossible)
    as Hone.
  destruct (whitespace_split d_text) as [d_tokens char_to_word_offset].
  apply bind_return in Hq. destruct Hq as (answers & _ & Hq).
  refine (for_append_invariant _ _ _ _ _ _ Hq (Forall_nil _)).
  intros [s t] es _ He. apply bind_return in He.
  destruct He as (e & He & Hes). injection Hes as <-.
  apply Hone in He. destruct He as (e' & -> & He').
  constructor; [exact He'|constructor].
Qed.

(** The question of the example has an answer. *)
Definition answerable (example : QAExample) : Prop :=
  is_impossible example = false.

Lemma labels_of_training (example : QAExample) (doc_span : DocSpan)
    (query_tokens : list str) (tok_start_position tok_end_position : option Z)
    (a b : option Z) :
  labels_of example true doc_span query_tokens tok_start_position
    tok_end_position 0 = Return (a, b) ->
  (a = Some 0 /\ b = Some 0)
  \/ (is_impossible example = false
      /\ exists ts te,
           tok_start_position = Some ts /\ tok_end_position = Some te
           /\ DocSpan.start doc_span <= ts
           /\ te <= DocSpan.start doc_span + DocSpan.length doc_span - 1
           /\ a = Some (ts - DocSpan.start doc_span + (len query_tokens + 2))
           /\ b = Some (te - DocSpan.start doc_span + (len query_tokens + 2))).
Proof.
  unfold labels_of. destruct (is_impossible example); simpl.
  - intros [= <- <-]. auto.
  - destruct tok_start_position as [ts|]; [|discriminate]. simpl.
    destruct (Z.leb_spec (DocSpan.start doc_span) ts) as [Hs|Hs]; simpl.
    + destruct tok_end_position as [te|]; [|discriminate]. simpl.
      destruct (Z.leb_spec te
                  (DocSpan.start doc_span + DocSpan.length doc_span - 1))
        as [He|He]; simpl.
      * intros [= <- <-]. right. split; [reflexivity|].
        exists ts, te. auto 10.
      * intros [= <- <-]. auto.
    + intros [= <- <-]. auto.
Qed.

(** In training mode every feature has two labels: 0 and 0, or, for an
    answerable question, two positions of the window of the feature such
    that the tokens of the feature from the one to the other are the
    sub-tokens of the document from [tok_start_position] to
    [tok_end_position]. *)
Lemma training_labels_in_window (tokenizer : BertTokenizer) {fl : PyFloat}
    (doc_text question_text : str_or_list)
    (answer_start : list int_or_list) (answer_text : list str_or_list)
    (max_query_length max_len doc_stride : Z)
    (qa_id : option (list Z)) (is_impossible : option (list bool))
    (features : list QAFeatures) (qa_examples : list QAExample) :
  tokenize_qa tokenizer doc_text question_text answer_start answer_text
    true max_query_length max_len doc_stride qa_id is_impossible
  = Return (features, qa_examples) ->
  Forall (fun f =>
            exists a b,
              f_start_position f = Some a /\ f_end_position f = Some b
              /\ ((a = 0 /\ b = 0)
                  \/ exists example ts te,
                       let query :=
                         example_query tokenizer max_query_length example in
                       let orig_to_tok_index :=
                         snd (fst (subtokens_of tokenizer (doc_tokens example))) in
                       let all_doc_tokens :=
                         snd (subtokens_of tokenizer (doc_tokens example)) in
                       nth_error qa_examples (Z.to_nat (example_index f))
                       = Some example
                       /\ answerable example
                       /\ tok_positions_of tokenizer example true
                            orig_to_tok_index all_doc_tokens
                          = Return (Some ts, Some te)
                       /\ len query + 2 <= a
                       /\ b <= len query + 1 + paragraph_len f
                       /\ b - a = te - ts
                       /\ forall i, 0 <= i <= te - ts ->
                            nth_error (tokens f) (Z.to_nat (a + i))
                            = nth_error all_doc_tokens (Z.to_nat (ts + i))))
    features.
Proof.
  intros Hreturn.
  apply (tokenize_qa_every_feature tokenizer _ _ _ _ _ _ _ _ _ _ _ _ Hreturn).
  intros k j it uid feats f Hrun.
  destruct (runs_feature tokenizer _ _ _ _ _ _ _ it _ _ _ Hrun)
    as (f' & E & _ & Hk & Htokens & _ & _ & _ & _ & Hpl & Hlab).
  injection E as E. apply app_inj_tail in E. destruct E as [_ <-].
  pose proof (iteration_span tokenizer _ _ _ _ _ _ _ it) as (Hs & Hl & He).
  apply labels_of_training in Hlab.
  destruct Hlab as [[Ha Hb]|(Hposs & ts & te & Hts & Hte & Hin & Hout & Ha & Hb)].
  { exists 0, 0. auto. }
  eexists _, _. split; [exact Ha|]. split; [exact Hb|]. right.
  exists (it_example it), ts, te. cbv zeta.
  rewrite (it_subtokens it). cbn [fst snd].
  rewrite Hk, Nat2Z.id, Hpl.
  set (query := example_query tokenizer max_query_length (it_example it))
    in *.
  split; [exact (it_is_example it)|]. split; [exact Hposs|].
  split; [rewrite <- Hts, <- Hte; exact (it_positions it)|].
  split; [lia|]. split; [lia|]. split; [lia|].
  intros i Hi. rewrite Htokens.
  set (first := Z.to_nat (DocSpan.start (it_doc_span it))) in *.
  set (width := Z.to_nat (DocSpan.length (it_doc_span it))) in *.
  change ([cls_token] ++ query ++ [sep_token]
          ++ firstn width (skipn first (it_all_doc_tokens it))
          ++ [sep_token])
    with (cls_token :: (query ++ sep_token
            :: (firstn width (skipn first (it_all_doc_tokens it))
                ++ [sep_token]))).
  replace (Z.to_nat (ts - DocSpan.start (it_doc_span it) + (len query + 2) + i))
    with (S (List.length query
             + S (Z.to_nat (ts + i) - first))) by (unfold len, first; lia).
  cbn [nth_error]. rewrite nth_error_app2 by lia.
  replace (List.length query + S (Z.to_nat (ts + i) - first)
           - List.length query)%nat
    with (S (Z.to_nat (ts + i) - first)) by lia.
  cbn [nth_error].
  assert (Hw : (Z.to_nat (ts + i) - first < width)%nat)
    by (unfold first, width; lia).
  rewrite nth_error_app1
    by (rewrite length_firstn, length_skipn; unfold len in He;
        unfold first, width in *; lia).
  rewrite nth_error_window by exact Hw. f_equal. unfold first. lia.
Qed.

(** ** The sliding window in closed form (lines 553-562) *)

(** The number of windows over [n] tokens, and the windows: they start
    every [min(max_tokens_for_doc, doc_stride)] tokens. *)
Definition window_count (n max_tokens_for_doc doc_stride : Z) : Z :=
  let d := Z.min max_tokens_for_doc doc_stride in
  if n <=? max_tokens_for_doc then 1
  else (n - max_tokens_for_doc + d - 1) / d + 1.

Definition windows_from (s n max_tokens_for_doc doc_stride : Z)
    : list DocSpan :=
  let d := Z.min max_tokens_for_doc doc_stride in
  map (fun i => DocSpan.mk (s + i * d)
                  (Z.min max_tokens_for_doc (n - (s + i * d))))
      (range 0 (window_count (n - s) max_tokens_for_doc doc_stride)).

Lemma range_succ (k : Z) :
  0 <= k -> range 0 (k + 1) = 0 :: map (fun i => i + 1) (range 0 k).
Proof.
  intros H. rewrite range_cons by lia. f_equal. unfold range.
  rewrite map_map. replace (Z.to_nat (k + 1 - (0 + 1))) with (Z.to_nat (k - 0))
    by lia.
  apply map_ext. intros j. lia.
Qed.

Lemma window_count_positive (n mtd stride : Z) :
  0 < mtd -> 0 < stride -> 1 <= window_count n mtd stride.
Proof.
  intros Hm Hs. unfold window_count.
  destruct (Z.leb_spec n mtd); [lia|].
  assert (0 <= (n - mtd + Z.min mtd stride - 1) / Z.min mtd stride)
    by (apply Z.div_pos; lia).
  lia.
Qed.

Lemma window_count_step (n mtd stride : Z) :
  0 < mtd -> 0 < stride -> mtd < n ->
  window_count n mtd stride
  = window_count (n - Z.min mtd stride) mtd stride + 1.
Proof.
  intros Hm Hs Hn. unfold window_count.
  set (d := Z.min mtd stride). assert (Hd : 0 < d) by (unfold d; lia).
  destruct (Z.leb_spec n mtd); [lia|].
  destruct (Z.leb_spec (n - d) mtd).
  - f_equal. symmetry. apply (Z.div_unique _ _ 1 (n - mtd - 1)); lia.
  - f_equal.
    replace (n - mtd + d - 1) with (n - d - mtd + d - 1 + 1 * d) by lia.
    now rewrite Z.div_add by lia.
Qed.

Lemma chain_closed_form (n mtd stride : Z) (Hm : 0 < mtd) (Hs : 0 < stride)
    (s : Z) (spans : list DocSpan) :
  window_chain n mtd stride s spans -> spans = windows_from s n mtd stride.
Proof.
  induction 1 as [s Hr Hn|s rest Hr Hn Hc IH]; unfold windows_from.
  - unfold window_count. destruct (Z.leb_spec (n - s) mtd); [|lia].
    change (range 0 1) with [0]. cbn [map]. f_equal. f_equal; lia.
  - rewrite window_count_step by lia.
    rewrite range_succ
      by (pose proof (window_count_positive
                        (n - s - Z.min mtd stride) mtd stride Hm Hs); lia).
    cbn [map]. f_equal; [f_equal; lia|].
    rewrite IH. unfold windows_from. rewrite map_map.
    replace (n - (s + Z.min mtd stride)) with (n - s - Z.min mtd stride)
      by lia.
    apply map_ext. intros i. f_equal; lia.
Qed.

(** X10: the outcome of the sliding-window loop, case by case. An empty
    document gives no window. A document that fits one window gives that
    window, whatever the stride. A longer document gives the windows
    that start every [min(max_tokens_for_doc, doc_stride)] tokens, each as
    long as the window allows, the last one ending at the end of the
    document, when the window and the stride are positive. In every other
    case the loop never ends. *)
Theorem doc_spans_of_outcome (n max_tokens_for_doc doc_stride : Z) :
  doc_spans_of n max_tokens_for_doc doc_stride =
    if n <=? 0 then Return []
    else if (0 <? max_tokens_for_doc)
            && ((n <=? max_tokens_for_doc) || (0 <? doc_stride))
    then Return (windows_from 0 n max_tokens_for_doc doc_stride)
    else Diverge.
Proof.
  destruct (Z.leb_spec n 0) as [Hn|Hn].
  { unfold doc_spans_of. cbn [window_loop]. rewrite window_step_unfold.
    destruct (Z.ltb_spec 0 n); [lia|reflexivity]. }
  destruct (Z.ltb_spec 0 max_tokens_for_doc) as [Hm|Hm]; cbn [andb].
  - destruct (Z.leb_spec n max_tokens_for_doc) as [Hfit|Hlong]; cbn [orb].
    + unfold doc_spans_of. cbn [window_loop]. rewrite window_step_unfold.
      destruct (Z.ltb_spec 0 n); [|lia].
      destruct (Z.eqb_spec (0 + Z.min (n - 0) max_tokens_for_doc) n); [|lia].
      unfold windows_from, window_count. rewrite Z.sub_0_r.
      destruct (Z.leb_spec n max_tokens_for_doc); [|lia].
      change (range 0 1) with [0]. cbn [map app]. do 3 f_equal; lia.
    + destruct (Z.ltb_spec 0 doc_stride) as [Hs|Hs].
      * destruct (window_loop_chain n max_tokens_for_doc doc_stride Hm Hs
                    (S (Z.to_nat n)) 0 []) as (spans & Hl & Hc); [lia|lia|].
        unfold doc_spans_of. rewrite Hl. cbn [app]. f_equal.
        now apply chain_closed_form.
      * apply doc_spans_of_diverge. intros fuel.
        apply window_loop_stuck_stride; lia.
  - apply doc_spans_of_diverge. intros fuel.
    apply window_loop_stuck_window; lia.
Qed.

(** ** The query tokens (lines 516-519) *)

(** X11: the query tokens are a prefix of the tokens of the question: the
    first [max_query_length] of them when [max_query_length] is not
    negative, and all but the last [-max_query_length] when it is
    negative, the bound of a Python slice counting from the end. *)
Theorem query_tokens_prefix (tokenizer : BertTokenizer) (question : str)
    (max_query_length : Z) :
  let query_tokens := tokenize tokenizer question in
  query_tokens_of tokenizer question max_query_length
  = firstn (Z.to_nat (if max_query_length <? 0
                      then len query_tokens + max_query_length
                      else max_query_length))
      query_tokens.
Proof.
  cbv zeta. unfold query_tokens_of, slice.
  set (q := tokenize tokenizer question). cbn [Z.ltb Z.compare].
  assert (Hq : 0 <= len q) by (unfold len; lia).
  replace (Z.min 0 (len q)) with 0 by lia.
  cbn [Z.to_nat skipn]. rewrite Z.sub_0_r.
  destruct (Z.gtb_spec (len q) max_query_length) as [Hgt|Hle].
  - destruct (Z.ltb_spec max_query_length 0); f_equal; lia.
  - destruct (Z.ltb_spec max_query_length 0); [lia|].
    symmetry. apply firstn_all2. unfold len in Hle. lia.
Qed.

(** ** The answer aligner, applied twice (lines 364-398) *)

(** X12: [_improve_answer_span] is idempotent: searching again inside the
    span it has returned gives the same span. *)
Theorem improve_answer_span_idempotent (tokenizer : BertTokenizer)
    (doc_tokens : list str) (input_start input_end : Z)
    (orig_answer_text : str) :
  let improved :=
    _improve_answer_span tokenizer doc_tokens input_start input_end
      orig_answer_text in
  _improve_answer_span tokenizer doc_tokens (fst improved) (snd improved)
    orig_answer_text
  = improved.
Proof.
  cbv zeta. rewrite !improve_answer_span_refines.
  destruct (first_match_or_input_spec tokenizer doc_tokens input_start
              input_end orig_answer_text) as [(Hm & Hin & _)|(Heq & _)];
    [|rewrite Heq; cbn [fst snd]; exact Heq].
  destruct (first_match_or_input tokenizer doc_tokens input_start input_end
              orig_answer_text) as [s e].
  apply in_candidates in Hin. cbn [fst snd] in *.
  assert (Hself : In (s, e) (candidates s e))
    by (apply in_candidates; lia).
  destruct (first_match_or_input_spec tokenizer doc_tokens s e
              orig_answer_text) as [(_ & Hin' & Hfirst)|(_ & Hnone)].
  - destruct (first_match_or_input tokenizer doc_tokens s e orig_answer_text)
      as [s' e'].
    apply in_candidates in Hin'.
    destruct (Z.eq_dec s' s) as [->|Hs];
      [destruct (Z.eq_dec e' e) as [->|He]; [reflexivity|]|].
    + rewrite (Hfirst (s, e) Hself) in Hm; [discriminate|].
      right. cbn [fst snd]. lia.
    + rewrite (Hfirst (s, e) Hself) in Hm; [discriminate|].
      left. cbn [fst snd]. lia.
  - rewrite (Hnone (s, e) Hself) in Hm. discriminate.
Qed.

(** ** What a call that returns says of its arguments (lines 460-467) *)

Lemma for_append_inputs {A B} (l : list A) (body : A -> outcome (list B)) :
  forall acc res, for_append l body acc = Return res ->
  forall x, In x l -> exists ys, body x = Return ys.
Proof.
  induction l as [|y l IH]; intros acc res H x Hin; [contradiction|].
  simpl in H. apply bind_return in H. destruct H as (ys & H1 & H2).
  destruct Hin as [<-|Hin]; [eauto|]. eapply IH; eauto.
Qed.

(** The questions as the loop sees them: the six arguments zipped, with
    the defaults of [qa_id] and [is_impossible]. *)
Definition questions_of (doc_text question_text : str_or_list)
    (answer_start : list int_or_list) (answer_text : list str_or_list)
    (qa_id : option (list Z)) (is_impossible : option (list bool))
    : list (str * str * int_or_list * str_or_list * Z * bool) :=
  zip6 (iter doc_text) (iter question_text) answer_start answer_text
    (match qa_id with
     | None => range 0 (len_of question_text)
     | Some ids => ids
     end)
    (match is_impossible with
     | None => repeat false (Z.to_nat (len_of question_text))
     | Some flags => flags
     end).

(** The answers of a question are well formed: as many starts as texts,
    and in training mode no more than one for an answerable question. *)
Definition well_formed_answers (is_training : bool)
    (q : str * str * int_or_list * str_or_list * Z * bool) : Prop :=
  let '(_, _, a_start, a_text, _, impossible) := q in
  match a_start with
  | IntList starts =>
      len starts = len_of a_text
      /\ (is_training = true -> impossible = false -> len starts <= 1)
  | Int _ => True
  end.

(** X13: a call that returns was given well-formed answers for every
    question: a list of answer starts as long as the answer texts, and in
    training mode at most one answer for an answerable question. One
    question that is not well formed makes the whole call raise. *)
Theorem returns_only_on_well_formed_answers (tokenizer : BertTokenizer)
    {fl : PyFloat} (doc_text question_text : str_or_list)
    (answer_start : list int_or_list) (answer_text : list str_or_list)
    (is_training : bool) (max_query_length max_len doc_stride : Z)
    (qa_id : option (list Z)) (is_impossible : option (list bool))
    (features : list QAFeatures) (qa_examples : list QAExample) :
  tokenize_qa tokenizer doc_text question_text answer_start answer_text
    is_training max_query_length max_len doc_stride qa_id is_impossible
  = Return (features, qa_examples) ->
  Forall (well_formed_answers is_training)
    (questions_of doc_text question_text answer_start answer_text qa_id
       is_impossible).
Proof.
  unfold tokenize_qa. intros H.
  apply bind_return in H. destruct H as (examples & Hex & _).
  unfold qa_examples_of in Hex. fold (questions_of doc_text question_text
    answer_start answer_text qa_id is_impossible) in Hex.
  apply Forall_forall.
  intros [[[[[d_text q_text] a_start] a_text] q_id] impossible] Hin.
  destruct (for_append_inputs _ _ _ _ Hex _ Hin) as (ys & Hq).
  unfold examples_of_question in Hq.
  destruct (whitespace_split d_text) as [d_tokens char_to_word_offset].
  apply bind_return in Hq. destruct Hq as (answers & Ha & _).
  unfold answers_of in Ha. unfold well_formed_answers.
  destruct a_start as [z|starts]; [exact I|].
  destruct (Z.eqb_spec (len starts) (len_of a_text)) as [E|];
    [|discriminate]. cbn [negb] in Ha.
  split; [exact E|]. intros -> ->.
  destruct (Z.gtb_spec (len starts) 1); [discriminate|lia].
Qed.

(** ** Truncating a pair of sentences (lines 80-99) *)

Lemma removelast_firstn_length {A} (l : list A) :
  removelast l = firstn (List.length l - 1) l.
Proof.
  induction l as [|x l IH]; [reflexivity|].
  destruct l as [|y l]; [reflexivity|].
  change (removelast (x :: y :: l)) with (x :: removelast (y :: l)).
  rewrite IH. cbn [List.length]. rewrite !Nat.sub_succ, !Nat.sub_0_r.
  reflexivity.
Qed.

Lemma pop_spec {A} (l : list A) :
  l <> [] ->
  pop l = Return (firstn (List.length l - 1) l).
Proof.
  destruct l as [|x l]; [contradiction|]. intros _.
  unfold pop. now rewrite removelast_firstn_length.
Qed.

Lemma firstn_firstn_le {A} (l : list A) (i j : nat) :
  (i <= j)%nat -> firstn i (firstn j l) = firstn i l.
Proof. intros H. rewrite firstn_firstn. f_equal. lia. Qed.

(** The loop with a budget that is not negative: it returns a prefix of
    each list; it takes a token from [tokens_a] only while [tokens_a] is
    the longer, and from [tokens_b] only while [tokens_a] is not. *)
Lemma truncate_loop_spec (max_length : Z) (Hm : 0 <= max_length)
    (fuel : nat) :
  forall tokens_a tokens_b,
    (List.length tokens_a + List.length tokens_b < fuel)%nat ->
    exists na nb,
      truncate_loop fuel tokens_a tokens_b max_length
      = Return (firstn na tokens_a, firstn nb tokens_b)
      /\ (na <= List.length tokens_a)%nat
      /\ (nb <= List.length tokens_b)%nat
      /\ (len tokens_a + len tokens_b <= max_length ->
          na = List.length tokens_a /\ nb = List.length tokens_b)
      /\ (max_length < len tokens_a + len tokens_b ->
          Z.of_nat na + Z.of_nat nb = max_length
          /\ ((na < List.length tokens_a)%nat -> (nb <= na)%nat)
          /\ ((nb < List.length tokens_b)%nat -> (na <= nb + 1)%nat)).
Proof.
  induction fuel as [|fuel IH]; intros a b Hfuel; [lia|].
  cbn [truncate_loop]. unfold len in *.
  destruct (Z.leb_spec (Z.of_nat (List.length a) + Z.of_nat (List.length b))
              max_length) as [Hfit|Hover].
  { exists (List.length a), (List.length b). rewrite !firstn_all.
    repeat split; lia. }
  destruct (Z.gtb_spec (Z.of_nat (List.length a)) (Z.of_nat (List.length b)))
    as [Hlonger|Hnot].
  - rewrite pop_spec by (intros ->; simpl in Hlonger; lia). cbn [bind].
    destruct (IH (firstn (List.length a - 1) a) b) as (na & nb & Hl & H);
      [rewrite length_firstn; lia|].
    rewrite length_firstn in H.
    replace (Nat.min (List.length a - 1) (List.length a))
      with (List.length a - 1)%nat in H by lia.
    destruct H as (Hna & Hnb & Hsame & Hless).
    exists na, nb. rewrite Hl, firstn_firstn_le by exact Hna.
    split; [reflexivity|]. split; [lia|]. split; [lia|]. split; [lia|].
    intros _.
    destruct (Z_le_gt_dec
                (Z.of_nat (List.length a - 1) + Z.of_nat (List.length b))
                max_length) as [Hnow|Hstill].
    + destruct (Hsame Hnow) as [-> ->]. lia.
    + destruct (Hless ltac:(lia)) as (Hsum & Ha & Hb). lia.
  - assert (Hb : b <> []) by (intros ->; simpl in *; lia).
    rewrite pop_spec by exact Hb. cbn [bind].
    destruct (IH a (firstn (List.length b - 1) b)) as (na & nb & Hl & H);
      [rewrite length_firstn; destruct b; [contradiction|simpl in *; lia]|].
    rewrite length_firstn in H.
    replace (Nat.min (List.length b - 1) (List.length b))
      with (List.length b - 1)%nat in H by lia.
    destruct H as (Hna & Hnb & Hsame & Hless).
    exists na, nb. rewrite Hl, firstn_firstn_le by exact Hnb.
    assert (List.length b <> O) by (destruct b; [contradiction|discriminate]).
    split; [reflexivity|]. split; [lia|]. split; [lia|]. split; [lia|].
    intros _.
    destruct (Z_le_gt_dec
                (Z.of_nat (List.length a) + Z.of_nat (List.length b - 1))
                max_length) as [Hnow|Hstill].
    + destruct (Hsame Hnow) as [-> ->]. lia.
    + destruct (Hless ltac:(lia)) as (Hsum & Ha & Hb'). lia.
Qed.

(** The number of tokens of [tokens_b], then of [tokens_a], that a budget
    of [max_length] tokens keeps. *)
Definition kept_b (la lb max_length : Z) : Z :=
  if la + lb <=? max_length then lb
  else Z.min lb (Z.max (max_length - la) (max_length / 2)).

Definition kept_a (la lb max_length : Z) : Z :=
  if la + lb <=? max_length then la
  else max_length - kept_b la lb max_length.

(** X14: with a budget [max_length] that is not negative,
    [_truncate_seq_pair] returns a prefix of each sentence followed by
    [SEP]. Sentences that fit the budget are kept whole. Otherwise the
    kept tokens are exactly [max_length]: the shorter sentence is kept
    whole when it is no more than half the budget, and else the budget is
    split in two halves, the odd token going to [tokens_a]. *)
Theorem truncate_seq_pair_balanced (tokens_a tokens_b : list str)
    (max_length : Z) :
  0 <= max_length ->
  _truncate_seq_pair tokens_a tokens_b max_length
  = Return
      (firstn (Z.to_nat (kept_a (len tokens_a) (len tokens_b) max_length))
         tokens_a ++ [lit "[SEP]"],
       firstn (Z.to_nat (kept_b (len tokens_a) (len tokens_b) max_length))
         tokens_b ++ [lit "[SEP]"]).
Proof.
  intros Hm. unfold _truncate_seq_pair.
  destruct (truncate_loop_spec max_length Hm
              (S (List.length tokens_a + List.length tokens_b))
              tokens_a tokens_b) as (na & nb & -> & Hna & Hnb & Hsame & Hless);
    [lia|].
  cbn [bind]. unfold kept_a, kept_b, len in *.
  destruct (Z.leb_spec
              (Z.of_nat (List.length tokens_a)
               + Z.of_nat (List.length tokens_b)) max_length) as [Hfit|Hover].
  - destruct (Hsame Hfit) as [-> ->]. now rewrite !Nat2Z.id.
  - destruct (Hless Hover) as (Hsum & Ha & Hb).
    pose proof (Z.div_mod max_length 2 ltac:(lia)) as Hdiv.
    pose proof (Z.mod_pos_bound max_length 2 ltac:(lia)) as Hmod.
    assert (Enb : Z.of_nat nb
                  = Z.min (Z.of_nat (List.length tokens_b))
                      (Z.max (max_length - Z.of_nat (List.length tokens_a))
                         (max_length / 2))) by lia.
    rewrite <- Enb.
    replace (max_length - Z.of_nat nb) with (Z.of_nat na) by lia.
    now rewrite !Nat2Z.id.
Qed.

Lemma truncate_loop_negative (max_length : Z) (Hm : max_length < 0)
    (fuel : nat) :
  forall tokens_a tokens_b,
    (List.length tokens_a + List.length tokens_b < fuel)%nat ->
    truncate_loop fuel tokens_a tokens_b max_length = Raise IndexError.
Proof.
  induction fuel as [|fuel IH]; intros a b Hfuel; [lia|].
  cbn [truncate_loop]. unfold len.
  destruct (Z.leb_spec (Z.of_nat (List.length a) + Z.of_nat (List.length b))
              max_length); [lia|].
  destruct (Z.gtb_spec (Z.of_nat (List.length a)) (Z.of_nat (List.length b))).
  - rewrite pop_spec by (intros ->; simpl in *; lia). cbn [bind].
    apply IH. rewrite length_firstn. lia.
  - destruct b as [|y b]; [reflexivity|].
    rewrite pop_spec by discriminate. cbn [bind].
    apply IH. rewrite length_firstn. simpl in *. lia.
Qed.

(** X15: with a negative budget [_truncate_seq_pair] raises [IndexError],
    whatever the sentences are: it empties both lists and then takes a
    token from the empty [tokens_b]. *)
Theorem truncate_seq_pair_negative (tokens_a tokens_b : list str)
    (max_length : Z) :
  max_length < 0 ->
  _truncate_seq_pair tokens_a tokens_b max_length = Raise IndexError.
Proof.
  intros Hm. unfold _truncate_seq_pair.
  rewrite truncate_loop_negative by (exact Hm || lia). reflexivity.
Qed.

(** ** Rows for classification (lines 101-166) *)

Lemma for_list_map {A B} (l : list A) (body : A -> outcome B) (f : A -> B) :
  (forall x, In x l -> body x = Return (f x)) ->
  for_list l body = Return (map f l).
Proof.
  induction l as [|x l IH]; intros H; [reflexivity|].
  cbn [for_list map]. rewrite (H x (or_introl eq_refl)). cbn [bind].
  rewrite IH by (intros y Hy; apply H; now right). reflexivity.
Qed.

(** [max_len] after the clamp of lines 120-126. *)
Definition clamped (max_len : Z) : Z := Z.min max_len BERT_MAX_LEN.

Lemma clamp_eq (max_len : Z) :
  (if max_len >? BERT_MAX_LEN then BERT_MAX_LEN else max_len)
  = clamped max_len.
Proof. unfold clamped. destruct (Z.gtb_spec max_len BERT_MAX_LEN); lia. Qed.

Lemma slice_prefix {A} (x : list A) (hi : Z) :
  0 <= hi -> slice x 0 hi = firstn (Z.to_nat hi) x.
Proof.
  intros H. unfold slice. cbn [Z.ltb Z.compare].
  destruct (Z.ltb_spec hi 0); [lia|].
  assert (0 <= len x) by (unfold len; lia).
  replace (Z.min 0 (len x)) with 0 by lia. cbn [Z.to_nat skipn].
  rewrite Z.sub_0_r.
  destruct (Z_le_gt_dec hi (len x)).
  - now replace (Z.min hi (len x)) with hi by lia.
  - replace (Z.min hi (len x)) with (len x) by lia.
    unfold len in *. rewrite Nat2Z.id, firstn_all, firstn_all2 by lia.
    reflexivity.
Qed.

(** The tokens of the row of a single sentence [x]. *)
Definition single_tokens (m : Z) (x : list str) : list str :=
  [lit "[CLS]"] ++ firstn (Z.to_nat (m - 2)) x ++ [lit "[SEP]"].

Lemma single_tokens_length (m : Z) (x : list str) :
  2 <= m -> len (single_tokens m x) = Z.min (len x) (m - 2) + 2.
Proof.
  intros H. unfold single_tokens, len.
  rewrite !length_app, length_firstn. cbn [List.length]. lia.
Qed.

Lemma getitem_head {A} (x : A) (l : list A) : getitem (x :: l) 0 = Some x.
Proof. reflexivity. Qed.

Lemma getitem_second {A} (x y : A) (l : list A) :
  getitem (x :: y :: l) 1 = Some y.
Proof.
  unfold getitem. cbn [Z.ltb Z.compare Z.leb]. cbn [andb].
  destruct (Z.ltb_spec 1 (len (x :: y :: l))) as [_|H]; [reflexivity|].
  unfold len in H. cbn [List.length] in H. lia.
Qed.

(** The outcome is that of the clamped [max_len]. *)
Lemma preprocess_clamped (tokenizer : BertTokenizer) (tokens : token_lists)
    (max_len : Z) :
  snd (preprocess_classification_tokens tokenizer tokens max_len)
  = snd (preprocess_classification_tokens tokenizer tokens (clamped max_len)).
Proof.
  unfold preprocess_classification_tokens, clamped.
  destruct (Z.gtb_spec max_len BERT_MAX_LEN) as [Hgt|Hle].
  - replace (Z.min max_len BERT_MAX_LEN) with BERT_MAX_LEN by lia.
    reflexivity.
  - replace (Z.min max_len BERT_MAX_LEN) with max_len by lia.
    destruct (Z.gtb_spec max_len BERT_MAX_LEN); [lia|reflexivity].
Qed.

Lemma clamped_le (max_len : Z) : (clamped max_len >? BERT_MAX_LEN) = false.
Proof.
  unfold clamped. destruct (Z.gtb_spec (Z.min max_len BERT_MAX_LEN) BERT_MAX_LEN);
    [lia|reflexivity].
Qed.

Lemma preprocess_single (tokenizer : BertTokenizer)
    (first : list str) (rest : list (list str)) (max_len : Z) :
  first <> [] -> 2 <= max_len ->
  let m := clamped max_len in
  let ids :=
    map (fun x => pad_to m (convert_tokens_to_ids tokenizer (single_tokens m x)))
        (first :: rest) in
  snd (preprocess_classification_tokens tokenizer (Sentences (first :: rest))
         max_len)
  = Return (ids, map (map (Z.min 1)) ids, None).
Proof.
  intros Hfirst Hlen. cbv zeta. rewrite preprocess_clamped.
  assert (Hm : 2 <= clamped max_len) by (unfold clamped, BERT_MAX_LEN; lia).
  pose proof (clamped_le max_len) as Hle.
  set (m := clamped max_len) in *. clearbody m.
  unfold preprocess_classification_tokens. rewrite Hle. cbn [snd].
  destruct first as [|t first]; [contradiction|].
  unfold index. rewrite getitem_head. cbn [bind].
  rewrite getitem_head. cbn [bind]. rewrite !map_map.
  assert (E : forall x : list str,
             [lit "[CLS]"] ++ slice x 0 (m - 2) ++ [lit "[SEP]"]
             = single_tokens m x)
    by (intros x; unfold single_tokens; rewrite slice_prefix by lia;
        reflexivity).
  do 3 f_equal; apply map_ext; intros x; now rewrite E.
Qed.

Lemma pad_to_length (m : Z) (x : list Z) : len x <= m -> len (pad_to m x) = m.
Proof.
  intros H. unfold pad_to, len in *. rewrite length_app, repeat_length. lia.
Qed.

Lemma Forall2_map_of {A B} (R : A -> B -> Prop) (f : A -> B) (l : list A) :
  (forall x, In x l -> R x (f x)) -> Forall2 R l (map f l).
Proof.
  induction l as [|x l IH]; intros H; simpl; constructor.
  - apply H. now left.
  - apply IH. intros y Hy. apply H. now right.
Qed.

(** X16: for a batch of single sentences whose first sentence is not
    empty, and [max_len] at least 2, the call returns one row per
    sentence and no token type ids. The row of a sentence is the ids of
    [CLS], its first [max_len - 2] tokens and [SEP], followed by 0s, where
    [max_len] is clamped to 512; when the tokenizer gives one id per
    token, every row and every mask row is exactly that long. *)
Theorem classification_single_rows (tokenizer : BertTokenizer)
    (first : list str) (rest : list (list str)) (max_len : Z) :
  one_id_per_token tokenizer -> first <> [] -> 2 <= max_len ->
  let m := clamped max_len in
  exists ids mask,
    snd (preprocess_classification_tokens tokenizer
           (Sentences (first :: rest)) max_len)
    = Return (ids, mask, None)
    /\ Forall2 (fun x row =>
                  row = convert_tokens_to_ids tokenizer (single_tokens m x)
                        ++ repeat 0 (Z.to_nat (m - 2 - len x)))
         (first :: rest) ids
    /\ Forall (fun row => len row = m) ids
    /\ Forall (fun row => len row = m) mask.
Proof.
  intros Hone Hfirst Hlen m.
  assert (Hm : 2 <= m) by (unfold m, clamped, BERT_MAX_LEN; lia).
  assert (Hreal : forall x,
             len (convert_tokens_to_ids tokenizer (single_tokens m x))
             = Z.min (len x) (m - 2) + 2).
  { intros x. unfold len at 1. rewrite Hone.
    apply (single_tokens_length m x Hm). }
  eexists _, _. split; [apply preprocess_single; assumption|].
  fold m. split; [|split].
  - apply Forall2_map_of. intros x _.
    unfold pad_to. rewrite Hreal. do 2 f_equal. lia.
  - apply Forall_map, Forall_forall. intros x _.
    apply pad_to_length. rewrite Hreal. lia.
  - apply Forall_map, Forall_map, Forall_forall. intros x _.
    unfold len. rewrite length_map. apply pad_to_length. rewrite Hreal. lia.
Qed.

Lemma mask_of_positive (ids : list Z) (k : nat) :
  Forall (fun id => 0 < id) ids ->
  map (Z.min 1) (ids ++ repeat 0 k) = repeat 1 (List.length ids) ++ repeat 0 k.
Proof.
  intros H. rewrite map_app. f_equal.
  - induction H as [|id ids Hid _ IH]; [reflexivity|].
    cbn [map List.length repeat]. rewrite IH. f_equal. lia.
  - induction k as [|k IH]; [reflexivity|]. cbn [repeat map]. now rewrite IH.
Qed.

(** X17: when the ids of the tokens of the rows are positive, the mask of
    a single sentence is 1 on [CLS], the kept tokens and [SEP], and 0 on
    the padding. *)
Theorem classification_single_mask (tokenizer : BertTokenizer)
    (first : list str) (rest : list (list str)) (max_len : Z)
    (ids mask : list (list Z)) (token_type_ids : option (list (list Z))) :
  one_id_per_token tokenizer -> first <> [] -> 2 <= max_len ->
  let m := clamped max_len in
  (forall x, In x (first :: rest) ->
     Forall (fun id => 0 < id)
       (convert_tokens_to_ids tokenizer (single_tokens m x))) ->
  snd (preprocess_classification_tokens tokenizer
         (Sentences (first :: rest)) max_len)
  = Return (ids, mask, token_type_ids) ->
  mask = map (fun x => repeat 1 (Z.to_nat (Z.min (len x) (m - 2) + 2))
                       ++ repeat 0 (Z.to_nat (m - 2 - len x)))
             (first :: rest).
Proof.
  intros Hone Hfirst Hlen m Hpos H.
  assert (Hm : 2 <= m) by (unfold m, clamped, BERT_MAX_LEN; lia).
  rewrite preprocess_single in H by assumption. fold m in H.
  remember (first :: rest) as docs eqn:Edocs. clear Edocs.
  injection H as _ <- _. rewrite map_map. apply map_ext_in. intros x Hx.
  unfold pad_to. rewrite mask_of_positive by (apply Hpos, Hx).
  assert (Hreal : len (convert_tokens_to_ids tokenizer (single_tokens m x))
                  = Z.min (len x) (m - 2) + 2).
  { unfold len at 1. rewrite Hone. apply (single_tokens_length m x Hm). }
  rewrite Hreal. unfold len in *. f_equal; f_equal; lia.
Qed.

(** The two sentences of an example after [_truncate_seq_pair], for a
    call that returns. *)
Definition truncated_pair (m : Z) (example : list (list str))
    : list str * list str :=
  match _truncate_seq_pair (nth 0 example []) (nth 1 example []) (m - 3) with
  | Return sentences => sentences
  | _ => ([], [])
  end.

Lemma truncate_seq_pair_returns (tokens_a tokens_b : list str)
    (max_length : Z) :
  0 <= max_length ->
  exists kept_a kept_b,
    _truncate_seq_pair tokens_a tokens_b max_length
    = Return (kept_a ++ [lit "[SEP]"], kept_b ++ [lit "[SEP]"])
    /\ len kept_a + len kept_b <= max_length.
Proof.
  intros Hm. unfold _truncate_seq_pair.
  destruct (truncate_loop_spec max_length Hm
              (S (List.length tokens_a + List.length tokens_b))
              tokens_a tokens_b) as (na & nb & -> & Hna & Hnb & Hsame & Hless);
    [lia|].
  cbn [bind]. eexists _, _. split; [reflexivity|].
  unfold len in *. rewrite !length_firstn.
  destruct (Z_le_gt_dec
              (Z.of_nat (List.length tokens_a)
               + Z.of_nat (List.length tokens_b)) max_length) as [Hfit|Hover].
  - lia.
  - destruct (Hless ltac:(lia)) as (Hsum & _). lia.
Qed.

Lemma preprocess_pairs (tokenizer : BertTokenizer)
    (tokens : list (list (list str))) (max_len : Z) :
  tokens <> [] -> Forall (fun example => 2 <= len example) tokens ->
  3 <= max_len ->
  let m := clamped max_len in
  let ids :=
    map (fun example =>
           pad_to m
             (convert_tokens_to_ids tokenizer
                ([lit "[CLS]"] ++ fst (truncated_pair m example)
                 ++ snd (truncated_pair m example))))
        tokens in
  snd (preprocess_classification_tokens tokenizer (SentenceTuples tokens)
         max_len)
  = Return
      (ids, map (map (Z.min 1)) ids,
       Some (map (fun example =>
                    pad_to m
                      (repeat 0
                         (1 + List.length (fst (truncated_pair m example)))
                       ++ repeat 1
                            (List.length (snd (truncated_pair m example)))))
                 tokens)).
Proof.
  intros Hbatch Hpairs Hlen. cbv zeta. rewrite preprocess_clamped.
  assert (Hm : 3 <= clamped max_len) by (unfold clamped, BERT_MAX_LEN; lia).
  pose proof (clamped_le max_len) as Hle.
  set (m := clamped max_len) in *. clearbody m.
  unfold preprocess_classification_tokens. rewrite Hle. cbn [snd].
  destruct tokens as [|first rest]; [contradiction|].
  unfold index at 1. rewrite getitem_head. cbn [bind].
  assert (Hfirst : exists a b more, first = a :: b :: more).
  { inversion Hpairs as [|? ? H2 _]; subst.
    destruct first as [|a [|b more]]; unfold len in H2; simpl in H2;
      try lia; eauto. }
  destruct Hfirst as (a & b & more & ->).
  unfold index at 1. rewrite getitem_head. cbn [bind].
  clear Hbatch. set (batch := (a :: b :: more) :: rest) in *. clearbody batch.
  rewrite (for_list_map _ _ (fun example =>
             [fst (truncated_pair m example); snd (truncated_pair m example)])).
  - cbn [bind]. rewrite !map_map. cbn [enumerate List.length seq map combine
      List.concat]. do 3 f_equal.
    + apply map_ext. intros example. now rewrite app_nil_r.
    + apply map_ext. intros example. now rewrite app_nil_r.
    + apply map_ext. intros example.
      rewrite app_nil_r. reflexivity.
  - intros example Hin.
    rewrite Forall_forall in Hpairs. specialize (Hpairs example Hin).
    destruct example as [|a' [|b' more']]; unfold len in Hpairs;
      simpl in Hpairs; try lia.
    unfold index. rewrite getitem_head, getitem_second. cbn [bind].
    unfold truncated_pair. cbn [nth].
    destruct (truncate_seq_pair_returns a' b' (m - 3)) as (ka & kb & -> & _);
      [lia|].
    reflexivity.
Qed.

(** X18: for a batch of sentence pairs and [max_len] at least 3, the call
    returns one row per pair. The row is the ids of [CLS] followed by the
    two sentences as [_truncate_seq_pair] returns them for the budget
    [max_len - 3], each ending in [SEP]; the token type ids are 0 on [CLS]
    and the first sentence and 1 on the second; both are followed by 0s,
    where [max_len] is clamped to 512. The token type ids are exactly
    that long, and so are the rows and the mask rows when the tokenizer
    gives one id per token. *)
Theorem classification_pair_rows (tokenizer : BertTokenizer)
    (tokens : list (list (list str))) (max_len : Z) :
  one_id_per_token tokenizer ->
  tokens <> [] -> Forall (fun example => 2 <= len example) tokens ->
  3 <= max_len ->
  let m := clamped max_len in
  exists ids mask token_type_ids,
    snd (preprocess_classification_tokens tokenizer (SentenceTuples tokens)
           max_len)
    = Return (ids, mask, Some token_type_ids)
    /\ Forall (fun row => len row = m) ids
    /\ Forall (fun row => len row = m) mask
    /\ Forall (fun row => len row = m) token_type_ids
    /\ forall i example, nth_error tokens i = Some example ->
         exists tokens_a tokens_b,
           _truncate_seq_pair (nth 0 example []) (nth 1 example []) (m - 3)
           = Return (tokens_a, tokens_b)
           /\ nth_error ids i
              = Some (pad_to m
                        (convert_tokens_to_ids tokenizer
                           ([lit "[CLS]"] ++ tokens_a ++ tokens_b)))
           /\ nth_error token_type_ids i
              = Some (pad_to m
                        (repeat 0 (1 + List.length tokens_a)
                         ++ repeat 1 (List.length tokens_b))).
Proof.
  intros Hone Hbatch Hpairs Hlen m.
  assert (Hm : 3 <= m) by (unfold m, clamped, BERT_MAX_LEN; lia).
  assert (Hfit : forall example,
             exists ka kb,
               _truncate_seq_pair (nth 0 example []) (nth 1 example [])
                 (m - 3)
               = Return (truncated_pair m example)
               /\ truncated_pair m example
                  = (ka ++ [lit "[SEP]"], kb ++ [lit "[SEP]"])
               /\ len ka + len kb <= m - 3).
  { intros example. unfold truncated_pair.
    destruct (truncate_seq_pair_returns (nth 0 example []) (nth 1 example [])
                (m - 3)) as (ka & kb & -> & Hsum); [lia|].
    exists ka, kb. auto. }
  eexists _, _, _. split; [apply preprocess_pairs; assumption|].
  fold m. split; [|split; [|split]].
  - apply Forall_map, Forall_forall. intros example _.
    destruct (Hfit example) as (ka & kb & _ & -> & Hsum). cbn [fst snd].
    apply pad_to_length. unfold len at 1. rewrite Hone.
    list_lengths_in Hsum. list_lengths. lia.
  - apply Forall_map, Forall_map, Forall_forall. intros example _.
    destruct (Hfit example) as (ka & kb & _ & -> & Hsum). cbn [fst snd].
    unfold len. rewrite length_map. apply pad_to_length.
    unfold len at 1. rewrite Hone.
    list_lengths_in Hsum. list_lengths. lia.
  - apply Forall_map, Forall_forall. intros example _.
    destruct (Hfit example) as (ka & kb & _ & -> & Hsum). cbn [fst snd].
    apply pad_to_length. list_lengths_in Hsum. list_lengths. lia.
  - intros i example Hi.
    destruct (Hfit example) as (ka & kb & Hret & Heq & _).
    exists (fst (truncated_pair m example)), (snd (truncated_pair m example)).
    rewrite <- surjective_pairing. split; [exact Hret|].
    rewrite !nth_error_map, Hi. split; reflexivity.
Qed.

(** X19: an empty batch, and a batch whose first entry is empty, end in
    [IndexError], for single sentences and for tuples of sentences,
    whatever the rest of the batch and [max_len] are: the test
    [isinstance(tokens[0][0], str)] reads the first token of the first
    entry. *)
Theorem classification_empty_first (tokenizer : BertTokenizer)
    (max_len : Z) :
  snd (preprocess_classification_tokens tokenizer (Sentences []) max_len)
  = Raise IndexError
  /\ snd (preprocess_classification_tokens tokenizer (SentenceTuples [])
            max_len)
     = Raise IndexError
  /\ (forall rest,
        snd (preprocess_classification_tokens tokenizer
               (Sentences ([] :: rest)) max_len)
        = Raise IndexError)
  /\ (forall rest,
        snd (preprocess_classification_tokens tokenizer
               (SentenceTuples ([] :: rest)) max_len)
        = Raise IndexError).
Proof.
  assert (H : forall tokens,
             match tokens with
             | Sentences [] | Sentences ([] :: _)
             | SentenceTuples [] | SentenceTuples ([] :: _) => True
             | _ => False
             end ->
             snd (preprocess_classification_tokens tokenizer tokens max_len)
             = Raise IndexError).
  { intros tokens Hshape. rewrite preprocess_clamped.
    unfold preprocess_classification_tokens.
    rewrite (clamped_le max_len). cbn [snd].
    destruct tokens as [[|[|t first] rest]|[|[|s first] rest]];
      first [contradiction|reflexivity]. }
  repeat split; intros; apply H; exact I.
Qed.

(** X20: for sentence pairs, a [max_len] below 3 ends in [IndexError]: the
    budget [max_len - 3] of [_truncate_seq_pair] is negative. *)
Theorem classification_pairs_small_max_len (tokenizer : BertTokenizer)
    (tokens_a tokens_b : list str) (more : list (list str))
    (rest : list (list (list str))) (max_len : Z) :
  max_len < 3 ->
  snd (preprocess_classification_tokens tokenizer
         (SentenceTuples ((tokens_a :: tokens_b :: more) :: rest)) max_len)
  = Raise IndexError.
Proof.
  intros Hlen. unfold preprocess_classification_tokens.
  destruct (Z.gtb_spec max_len BERT_MAX_LEN) as [Hgt|_];
    [unfold BERT_MAX_LEN in Hgt; lia|].
  cbn [snd]. unfold index. rewrite getitem_head. cbn [bind].
  rewrite getitem_head. cbn [bind for_list].
  rewrite getitem_head, getitem_second. cbn [bind].
  unfold _truncate_seq_pair.
  rewrite truncate_loop_negative by lia. reflexivity.
Qed.

(** X21: for single sentences a [max_len] below 2 is not refused: the
    bound [max_len - 2] of the slice is negative and counts from the end
    of the sentence, so the row of a sentence of [n] tokens has
    [max(n + max_len - 2, 0) + 2] ids, more than [max_len], and no
    padding. *)
Theorem classification_single_small_max_len (tokenizer : BertTokenizer)
    (first : list str) (rest : list (list str)) (max_len : Z) :
  one_id_per_token tokenizer -> first <> [] -> max_len < 2 ->
  exists ids mask,
    snd (preprocess_classification_tokens tokenizer
           (Sentences (first :: rest)) max_len)
    = Return (ids, mask, None)
    /\ Forall2 (fun x row =>
                  len row = Z.max (len x + max_len - 2) 0 + 2
                  /\ max_len < len row)
         (first :: rest) ids.
Proof.
  intros Hone Hfirst Hlen. unfold preprocess_classification_tokens.
  destruct (Z.gtb_spec max_len BERT_MAX_LEN) as [Hgt|_];
    [unfold BERT_MAX_LEN in Hgt; lia|].
  cbn [snd]. destruct first as [|t first]; [contradiction|].
  unfold index. rewrite getitem_head. cbn [bind].
  rewrite getitem_head. cbn [bind].
  remember ((t :: first) :: rest) as docs eqn:Edocs. clear Edocs.
  eexists _, _. split; [reflexivity|].
  rewrite !map_map. apply Forall2_map_of. intros x _.
  assert (Hrow : len (convert_tokens_to_ids tokenizer
                        ([lit "[CLS]"] ++ slice x 0 (max_len - 2)
                         ++ [lit "[SEP]"]))
                 = Z.max (len x + max_len - 2) 0 + 2).
  { unfold len at 1. rewrite Hone. unfold slice.
    cbn [Z.ltb Z.compare].
    destruct (Z.ltb_spec (max_len - 2) 0); [|lia].
    assert (0 <= len x) by (unfold len; lia).
    replace (Z.min 0 (len x)) with 0 by lia. cbn [Z.to_nat skipn].
    unfold len in *. rewrite !length_app, length_firstn.
    cbn [List.length]. lia. }
  set (row := convert_tokens_to_ids tokenizer
                ([lit "[CLS]"] ++ slice x 0 (max_len - 2) ++ [lit "[SEP]"]))
    in *.
  unfold pad_to, len in *. rewrite length_app, repeat_length. lia.
Qed.

(** ** Rows for named entity recognition (lines 168-339) *)

(** The labels of the pieces of a word: its tag for the first piece, the
    trailing tag for the others. *)
Definition piece_labels (trailing_piece_tag tag : str) (sub_words : list str)
    : list str :=
  match sub_words with
  | [] => []
  | _ :: rest => tag :: map (fun _ => trailing_piece_tag) rest
  end.

Section NerLoops.

Context (tokenizer : BertTokenizer).
Variable trailing_piece_tag : str.

Lemma piece_loop_trailing (sub_words : list str) :
  forall (s : nat) (tag : str) (new_labels new_tokens : list str),
    (0 < s)%nat ->
    exists tag',
      fold_left (piece_step trailing_piece_tag)
        (combine (map Z.of_nat (seq s (List.length sub_words))) sub_words)
        (tag, new_labels, new_tokens)
      = (tag', new_labels ++ map (fun _ => trailing_piece_tag) sub_words,
         new_tokens ++ sub_words).
Proof.
  induction sub_words as [|p ps IH]; intros s tag L T Hs.
  - exists tag. simpl. now rewrite !app_nil_r.
  - cbn [List.length seq map combine fold_left piece_step].
    destruct (Z.gtb_spec (Z.of_nat s) 0); [|lia].
    destruct (IH (S s) trailing_piece_tag (L ++ [trailing_piece_tag])
                (T ++ [p])) as (tag' & ->); [lia|].
    exists tag'. now rewrite <- !app_assoc.
Qed.

Lemma piece_loop (sub_words : list str) (tag : str)
    (new_labels new_tokens : list str) :
  exists tag',
    fold_left (piece_step trailing_piece_tag) (enumerate sub_words)
      (tag, new_labels, new_tokens)
    = (tag', new_labels ++ piece_labels trailing_piece_tag tag sub_words,
       new_tokens ++ sub_words).
Proof.
  unfold enumerate. destruct sub_words as [|p ps].
  - exists tag. simpl. now rewrite !app_nil_r.
  - cbn [List.length seq map combine fold_left piece_step piece_labels].
    cbn [Z.of_nat Z.gtb Z.compare].
    destruct (piece_loop_trailing ps 1 tag (new_labels ++ [tag])
                (new_tokens ++ [p])) as (tag' & ->); [lia|].
    exists tag'. now rewrite <- !app_assoc.
Qed.

Lemma labelled_loop (words : list (str * str)) :
  forall new_labels new_tokens,
    fold_left (labelled_word_step tokenizer trailing_piece_tag) words
      (new_labels, new_tokens)
    = (new_labels
       ++ flat_map (fun '(word, tag) =>
                      piece_labels trailing_piece_tag tag
                        (tokenize tokenizer word)) words,
       new_tokens ++ flat_map (fun '(word, _) => tokenize tokenizer word) words).
Proof.
  induction words as [|[word tag] words IH]; intros L T.
  - simpl. now rewrite !app_nil_r.
  - cbn [fold_left flat_map]. unfold labelled_word_step at 2.
    destruct (piece_loop (tokenize tokenizer word) tag L T) as (tag' & ->).
    rewrite IH, <- !app_assoc. reflexivity.
Qed.

Lemma unlabelled_piece_loop_trailing (sub_words : list str) :
  forall (s : nat) (new_labels new_tokens : list str),
    (0 < s)%nat ->
    fold_left (unlabelled_piece_step trailing_piece_tag)
      (combine (map Z.of_nat (seq s (List.length sub_words))) sub_words)
      (new_labels, new_tokens)
    = (new_labels ++ map (fun _ => trailing_piece_tag) sub_words,
       new_tokens ++ sub_words).
Proof.
  induction sub_words as [|p ps IH]; intros s L T Hs.
  - simpl. now rewrite !app_nil_r.
  - cbn [List.length seq map combine fold_left unlabelled_piece_step].
    destruct (Z.gtb_spec (Z.of_nat s) 0); [|lia].
    rewrite IH by lia. now rewrite <- !app_assoc.
Qed.

Lemma unlabelled_loop (t : list str) :
  forall new_labels new_tokens,
    fold_left (unlabelled_word_step tokenizer trailing_piece_tag) t
      (new_labels, new_tokens)
    = (new_labels
       ++ flat_map (fun word =>
                      piece_labels trailing_piece_tag (lit "O")
                        (tokenize tokenizer word)) t,
       new_tokens ++ flat_map (tokenize tokenizer) t).
Proof.
  induction t as [|word t IH]; intros L T.
  - simpl. now rewrite !app_nil_r.
  - cbn [fold_left flat_map]. unfold unlabelled_word_step at 2.
    unfold enumerate.
    destruct (tokenize tokenizer word) as [|p ps].
    + cbn [List.length seq map combine fold_left piece_labels app].
      apply IH.
    + cbn [List.length seq map combine fold_left unlabelled_piece_step
           piece_labels].
      cbn [Z.of_nat Z.gtb Z.compare].
      rewrite unlabelled_piece_loop_trailing by lia.
      rewrite IH, <- !app_assoc. reflexivity.
Qed.

End NerLoops.

Lemma result_bind_returned {A B} (m : result A) (k : A -> result B) (b : B) :
  result_bind m k = Returned b -> exists a, m = Returned a /\ k a = Returned b.
Proof. destruct m; simpl; [eauto|discriminate]. Qed.

Lemma piece_labels_length (trailing_piece_tag tag : str)
    (sub_words : list str) :
  List.length (piece_labels trailing_piece_tag tag sub_words)
  = List.length sub_words.
Proof. destruct sub_words; simpl; [reflexivity|now rewrite length_map]. Qed.

Lemma flat_map_combine_fst {A B C} (f : A -> list C) (l : list A)
    (l' : list B) :
  List.length l = List.length l' ->
  flat_map (fun '(x, _) => f x) (combine l l') = flat_map f l.
Proof.
  revert l'. induction l as [|x l IH]; intros [|y l'] H; try discriminate;
    [reflexivity|].
  simpl. f_equal. apply IH. now injection H.
Qed.

Lemma flat_map_length_eq {A B C} (f : A -> list B) (g : A -> list C)
    (l : list A) :
  (forall x, List.length (f x) = List.length (g x)) ->
  List.length (flat_map f l) = List.length (flat_map g l).
Proof.
  intros H. induction l as [|x l IH]; [reflexivity|].
  simpl. now rewrite !length_app, H, IH.
Qed.

(** The tokens and the labels of a sentence before the truncation. *)
Definition sentence_tokens (tokenizer : BertTokenizer) (t : list str)
    : list str :=
  flat_map (tokenize tokenizer) t.

Definition sentence_labels (tokenizer : BertTokenizer)
    (trailing_piece_tag : str) (label_available : bool)
    (t t_labels : list str) : list str :=
  if label_available
  then flat_map (fun '(word, tag) =>
                   piece_labels trailing_piece_tag tag
                     (tokenize tokenizer word))
         (combine t t_labels)
  else flat_map (fun word =>
                   piece_labels trailing_piece_tag (lit "O")
                     (tokenize tokenizer word)) t.

Lemma sentence_labels_length (tokenizer : BertTokenizer)
    (trailing_piece_tag : str) (label_available : bool)
    (t t_labels : list str) :
  List.length t = List.length t_labels ->
  List.length (sentence_labels tokenizer trailing_piece_tag label_available
                 t t_labels)
  = List.length (sentence_tokens tokenizer t).
Proof.
  intros H. unfold sentence_labels, sentence_tokens.
  destruct label_available.
  - rewrite <- (flat_map_combine_fst (tokenize tokenizer) t t_labels H).
    apply flat_map_length_eq. intros [word tag]. apply piece_labels_length.
  - apply flat_map_length_eq. intros word. apply piece_labels_length.
Qed.

Section NerRows.

Context (tokenizer : BertTokenizer).
Variables (max_len : Z) (label_available : bool)
          (label_map : option (str_dict Z)) (trailing_piece_tag : str).

(** The row of a sentence: its ids, its mask, its labels and its
    trailing token mask, from the tokens and the labels of the sentence. *)
Definition is_row (item : list str * list str)
    (row : list number * list number * label_row * list bool) : Prop :=
  let '(t, t_labels) := item in
  let '(input_ids, input_mask, label_ids, trailing_token_mask) := row in
  let all_tokens := sentence_tokens tokenizer t in
  let all_labels :=
    sentence_labels tokenizer trailing_piece_tag label_available t t_labels in
  let new_tokens :=
    if len all_tokens >? max_len then slice all_tokens 0 max_len
    else all_tokens in
  let new_labels :=
    if len all_tokens >? max_len then slice all_labels 0 max_len
    else all_labels in
  let ids := convert_tokens_to_ids tokenizer new_tokens in
  let pad := Z.to_nat (max_len - len ids) in
  List.length t = List.length t_labels
  /\ input_ids = map IntNum ids ++ repeat (FloatNum 0) pad
  /\ input_mask = repeat (FloatNum 1) (List.length ids)
                  ++ repeat (FloatNum 0) pad
  /\ trailing_token_mask
     = map (fun label => negb (str_eqb label trailing_piece_tag))
           (new_labels ++ repeat (lit "O") pad)
  /\ match truthy label_map with
     | Some d =>
         exists ids', label_ids = LabelIds ids'
                      /\ label_ids_of d (new_labels ++ repeat (lit "O") pad)
                         = Returned ids'
     | None => label_ids = LabelTags (new_labels ++ repeat (lit "O") pad)
     end.

(** What one iteration of the loop over the sentences appends. *)
Lemma sentence_step_inv
    (input_ids_all input_mask_all : list (list number))
    (label_ids_all : list label_row) (trailing_token_mask_all : list (list bool))
    (item : list str * list str)
    (st' : list (list number) * list (list number) * list label_row
           * list (list bool)) :
  sentence_step tokenizer max_len label_available label_map
    trailing_piece_tag
    (input_ids_all, input_mask_all, label_ids_all, trailing_token_mask_all)
    item = Returned st' ->
  exists input_ids input_mask label_ids trailing_token_mask,
    st' = (input_ids_all ++ [input_ids], input_mask_all ++ [input_mask],
           label_ids_all ++ [label_ids],
           trailing_token_mask_all ++ [trailing_token_mask])
    /\ is_row item (input_ids, input_mask, label_ids, trailing_token_mask).
Proof.
  destruct item as [t t_labels]. unfold sentence_step, is_row.
  destruct (Z.eqb_spec (len t) (len t_labels)) as [Hlen|]; [|discriminate].
  cbn [negb]. unfold len in Hlen. apply Nat2Z.inj in Hlen.
  assert (Hloops :
            (if label_available
             then fold_left (labelled_word_step tokenizer trailing_piece_tag)
                    (combine t t_labels) ([], [])
             else fold_left (unlabelled_word_step tokenizer trailing_piece_tag)
                    t ([], []))
            = (sentence_labels tokenizer trailing_piece_tag label_available
                 t t_labels,
               sentence_tokens tokenizer t)).
  { unfold sentence_labels, sentence_tokens. destruct label_available.
    - rewrite labelled_loop. cbn [app].
      now rewrite (flat_map_combine_fst (tokenize tokenizer) t t_labels Hlen).
    - now rewrite unlabelled_loop. }
  rewrite Hloops. clear Hloops.
  destruct (len (sentence_tokens tokenizer t) >? max_len);
    rewrite length_map;
    (intros H; apply result_bind_returned in H;
     destruct H as (label_ids & Hids & H); injection H as <-;
     eexists _, _, label_ids, _; split; [reflexivity|];
     unfold len in *; rewrite !length_map in *;
     split; [exact Hlen|]; split; [reflexivity|]; split; [reflexivity|];
     split; [reflexivity|]).
  all: destruct (truthy label_map) as [d|]; [|now injection Hids as <-].
  all: apply result_bind_returned in Hids.
  all: destruct Hids as (ids' & Hids' & [= <-]); eauto.
Qed.

(** The loop over the sentences appends one row per sentence. *)
Lemma sentence_loop_inv (items : list (list str * list str)) :
  forall input_ids_all input_mask_all label_ids_all trailing_token_mask_all
         st',
    for_each_result items
      (sentence_step tokenizer max_len label_available label_map
         trailing_piece_tag)
      (input_ids_all, input_mask_all, label_ids_all, trailing_token_mask_all)
    = Returned st' ->
    exists rows,
      Forall2 is_row items rows
      /\ st' = (input_ids_all ++ map (fun r => fst (fst (fst r))) rows,
                input_mask_all ++ map (fun r => snd (fst (fst r))) rows,
                label_ids_all ++ map (fun r => snd (fst r)) rows,
                trailing_token_mask_all ++ map snd rows).
Proof.
  induction items as [|item items IH]; intros I M L T st' H.
  - injection H as <-. exists []. split; [constructor|].
    cbn [map]. now rewrite !app_nil_r.
  - cbn [for_each_result] in H. apply result_bind_returned in H.
    destruct H as (st1 & H1 & H2).
    apply sentence_step_inv in H1.
    destruct H1 as (i & m & l & tm & -> & Hrow).
    apply IH in H2. destruct H2 as (rows & Hrows & ->).
    exists ((i, m, l, tm) :: rows). split; [now constructor|].
    cbn [map fst snd]. now rewrite <- !app_assoc.
Qed.

End NerRows.

(** The sentences of an argument that is not refused. *)
Definition sentences (x : word_lists) : list (list str) :=
  match x with
  | OneString _ => []
  | OneList l => [l]
  | Lists l => l
  end.

Lemma as_lists_returned (refusal : string) (x : word_lists)
    (l : list (list str)) :
  as_lists refusal x = Returned l -> l = sentences x.
Proof.
  destruct x as [s|words|lists]; simpl; [discriminate| |].
  - destruct (getitem words 0); [now intros [= <-]|discriminate].
  - destruct (getitem lists 0); [now intros [= <-]|discriminate].
Qed.

(** The label lists that the loop zips with the sentences: those given,
    or one ["O"] per word. *)
Definition labels_or_default (text : word_lists) (labels : option word_lists)
    : list (list str) :=
  match labels with
  | Some labels => sentences labels
  | None => map (fun t => repeat (lit "O") (List.length t)) (sentences text)
  end.

Definition given {A} (o : option A) : bool :=
  match o with Some _ => true | None => false end.

Lemma ner_clamped (tokenizer : BertTokenizer) (text : word_lists)
    (max_len : Z) (labels : option word_lists)
    (label_map : option (str_dict Z)) (trailing_piece_tag : str) :
  snd (tokenize_ner tokenizer text max_len labels label_map
         trailing_piece_tag)
  = snd (tokenize_ner tokenizer text (clamped max_len) labels label_map
           trailing_piece_tag).
Proof.
  unfold tokenize_ner, clamped.
  destruct (Z.gtb_spec max_len BERT_MAX_LEN) as [Hgt|Hle].
  - replace (Z.min max_len BERT_MAX_LEN) with BERT_MAX_LEN by lia.
    reflexivity.
  - replace (Z.min max_len BERT_MAX_LEN) with max_len by lia.
    destruct (Z.gtb_spec max_len BERT_MAX_LEN); [lia|reflexivity].
Qed.

(** A call that returns: the four results are the columns of the rows of
    the zipped sentences and label lists. *)
Lemma tokenize_ner_inv (tokenizer : BertTokenizer) (text : word_lists)
    (max_len : Z) (labels : option word_lists)
    (label_map : option (str_dict Z)) (trailing_piece_tag : str)
    (input_ids_all input_mask_all : list (list number))
    (trailing_token_mask_all : list (list bool))
    (label_ids_all : option (list label_row)) :
  snd (tokenize_ner tokenizer text max_len labels label_map
         trailing_piece_tag)
  = Returned (input_ids_all, input_mask_all, trailing_token_mask_all,
              label_ids_all) ->
  exists rows,
    Forall2 (is_row tokenizer (clamped max_len) (given labels) label_map
               trailing_piece_tag)
      (combine (sentences text) (labels_or_default text labels)) rows
    /\ input_ids_all = map (fun r => fst (fst (fst r))) rows
    /\ input_mask_all = map (fun r => snd (fst (fst r))) rows
    /\ trailing_token_mask_all = map snd rows
    /\ label_ids_all = if given labels
                       then Some (map (fun r => snd (fst r)) rows)
                       else None.
Proof.
  rewrite ner_clamped. pose proof (clamped_le max_len) as Hle.
  set (m := clamped max_len) in *. clearbody m.
  unfold tokenize_ner. rewrite Hle. cbn [snd]. intros H.
  apply result_bind_returned in H. destruct H as (text' & Htext & H).
  apply as_lists_returned in Htext. subst text'.
  apply result_bind_returned in H. destruct H as (labels' & Hlabels & H).
  assert (E : given labels' = given labels
              /\ match labels' with
                 | Some l => l
                 | None => map (fun t => repeat (lit "O") (List.length t))
                               (sentences text)
                 end = labels_or_default text labels).
  { destruct labels as [l|]; [|injection Hlabels as <-; auto].
    apply result_bind_returned in Hlabels.
    destruct Hlabels as (l' & Hl' & [= <-]).
    apply as_lists_returned in Hl'. subst l'. auto. }
  destruct E as [Egiven Elabels].
  change (match labels' with Some _ => true | None => false end)
    with (given labels') in H.
  rewrite Egiven, Elabels in H.
  apply result_bind_returned in H.
  destruct H as ([[[I M] L] T] & Hloop & H).
  apply sentence_loop_inv in Hloop. destruct Hloop as (rows & Hrows & Hst).
  cbn [app] in Hst. injection Hst as -> -> -> ->.
  exists rows. split; [exact Hrows|].
  destruct (given labels); injection H as <- <- <- <-; auto.
Qed.

Definition label_row_length (row : label_row) : Z :=
  match row with
  | LabelIds ids => len ids
  | LabelTags tags => len tags
  end.

Lemma label_ids_of_length (d : str_dict Z) (new_labels : list str)
    (ids : list Z) :
  label_ids_of d new_labels = Returned ids ->
  List.length ids = List.length new_labels.
Proof.
  revert ids. induction new_labels as [|label rest IH]; intros ids H.
  - now injection H as <-.
  - cbn [label_ids_of] in H. destruct (str_get d label); [|discriminate].
    apply result_bind_returned in H. destruct H as (ids' & H' & [= <-]).
    simpl. f_equal. now apply IH.
Qed.

Lemma slice_prefix_length {A} (x : list A) (hi : Z) :
  0 <= hi < len x -> List.length (slice x 0 hi) = Z.to_nat hi.
Proof.
  intros H. rewrite slice_prefix by lia. rewrite length_firstn.
  unfold len in H. lia.
Qed.

(** The four parts of a row are [max_len] long, when the tokenizer gives
    one id per token and [max_len] is not negative. *)
Lemma is_row_widths (tokenizer : BertTokenizer) (m : Z)
    (label_available : bool) (label_map : option (str_dict Z))
    (trailing_piece_tag : str) (item : list str * list str)
    (input_ids input_mask : list number) (label_ids : label_row)
    (trailing_token_mask : list bool) :
  one_id_per_token tokenizer -> 0 <= m ->
  is_row tokenizer m label_available label_map trailing_piece_tag item
    (input_ids, input_mask, label_ids, trailing_token_mask) ->
  len input_ids = m /\ len input_mask = m
  /\ len trailing_token_mask = m /\ label_row_length label_ids = m.
Proof.
  intros Hone Hm. destruct item as [t t_labels]. unfold is_row.
  intros (Hlen & -> & -> & -> & Hlabels).
  pose proof (sentence_labels_length tokenizer trailing_piece_tag
                label_available t t_labels Hlen) as Hsame.
  set (all_tokens := sentence_tokens tokenizer t) in *.
  set (all_labels := sentence_labels tokenizer trailing_piece_tag
                       label_available t t_labels) in *.
  assert (Hwidth :
            let new_tokens :=
              if len all_tokens >? m then slice all_tokens 0 m
              else all_tokens in
            let new_labels :=
              if len all_tokens >? m then slice all_labels 0 m
              else all_labels in
            List.length new_labels = List.length new_tokens
            /\ len new_tokens <= m).
  { cbv zeta. destruct (Z.gtb_spec (len all_tokens) m) as [Hgt|Hle].
    - rewrite !slice_prefix_length by (unfold len in *; lia).
      split; [reflexivity|]. unfold len.
      rewrite slice_prefix_length by (unfold len in *; lia). lia.
    - auto. }
  cbv zeta in Hwidth. destruct Hwidth as [Hlabs Htoks].
  set (new_tokens := if len all_tokens >? m then slice all_tokens 0 m
                     else all_tokens) in *.
  set (new_labels := if len all_tokens >? m then slice all_labels 0 m
                     else all_labels) in *.
  assert (Hids : List.length (convert_tokens_to_ids tokenizer new_tokens)
                 = List.length new_tokens) by apply Hone.
  assert (Hnew : len (new_labels
                      ++ repeat (lit "O")
                           (Z.to_nat
                              (m - len (convert_tokens_to_ids tokenizer
                                          new_tokens)))) = m).
  { unfold len in *. rewrite length_app, repeat_length. lia. }
  split; [|split; [|split]].
  - unfold len in *. rewrite length_app, length_map, repeat_length. lia.
  - unfold len in *. rewrite length_app, !repeat_length. lia.
  - unfold len in *. rewrite length_map. exact Hnew.
  - destruct (truthy label_map) as [d|].
    + destruct Hlabels as (ids' & -> & Hids').
      apply label_ids_of_length in Hids'. cbn [label_row_length].
      unfold len in *. rewrite Hids'. exact Hnew.
    + subst label_ids. exact Hnew.
Qed.

(** X22: [tokenize_ner] refuses a string with [ValueError]: for [text]
    whatever the other arguments are, and for [labels] when [text] is a
    list that is not empty. *)
Theorem ner_refuses_strings (tokenizer : BertTokenizer) (s : str)
    (max_len : Z) (label_map : option (str_dict Z))
    (trailing_piece_tag : str) :
  (forall labels,
     snd (tokenize_ner tokenizer (OneString s) max_len labels label_map
            trailing_piece_tag)
     = Raised (ValueError
                 ("Input text must be an iterable and not a string."%string,
                  [])))
  /\ (forall word words,
        snd (tokenize_ner tokenizer (OneList (word :: words)) max_len
               (Some (OneString s)) label_map trailing_piece_tag)
        = Raised (ValueError
                    ("labels must be an iterable and not a string."%string,
                     [])))
  /\ (forall t text,
        snd (tokenize_ner tokenizer (Lists (t :: text)) max_len
               (Some (OneString s)) label_map trailing_piece_tag)
        = Raised (ValueError
                    ("labels must be an iterable and not a string."%string,
                     []))).
Proof.
  split; [|split]; intros; rewrite ner_clamped; unfold tokenize_ner;
    rewrite (clamped_le max_len); reflexivity.
Qed.

Lemma Forall2_lengths {A B} (R : A -> B -> Prop) (l : list A) (l' : list B) :
  Forall2 R l l' -> List.length l = List.length l'.
Proof. induction 1; simpl; auto. Qed.

Lemma Forall2_right {A B} (R : A -> B -> Prop) (P : B -> Prop)
    (l : list A) (l' : list B) :
  (forall x y, R x y -> P y) -> Forall2 R l l' -> Forall P l'.
Proof. intros H. induction 1; constructor; eauto. Qed.

(** X23: when the tokenizer gives one id per token and [max_len] is not
    negative, a call that returns gives as many rows as there are
    sentences with a label list (a sentence beyond the label lists is
    dropped), and every row of the ids, of the mask, of the trailing token
    mask and of the labels has exactly [max_len] entries, where [max_len]
    is clamped to 512. The labels are [None] exactly when none were
    given. *)
Theorem ner_rows_fixed_width (tokenizer : BertTokenizer) (text : word_lists)
    (max_len : Z) (labels : option word_lists)
    (label_map : option (str_dict Z)) (trailing_piece_tag : str)
    (input_ids_all input_mask_all : list (list number))
    (trailing_token_mask_all : list (list bool))
    (label_ids_all : option (list label_row)) :
  one_id_per_token tokenizer -> 0 <= max_len ->
  snd (tokenize_ner tokenizer text max_len labels label_map
         trailing_piece_tag)
  = Returned (input_ids_all, input_mask_all, trailing_token_mask_all,
              label_ids_all) ->
  let m := clamped max_len in
  let count :=
    match labels with
    | Some labels => Z.min (len (sentences text)) (len (sentences labels))
    | None => len (sentences text)
    end in
  len input_ids_all = count
  /\ len input_mask_all = count
  /\ len trailing_token_mask_all = count
  /\ Forall (fun row => len row = m) input_ids_all
  /\ Forall (fun row => len row = m) input_mask_all
  /\ Forall (fun row => len row = m) trailing_token_mask_all
  /\ match label_ids_all with
     | Some rows =>
         labels <> None /\ len rows = count
         /\ Forall (fun row => label_row_length row = m) rows
     | None => labels = None
     end.
Proof.
  intros Hone Hlen H m count. apply tokenize_ner_inv in H.
  destruct H as (rows & Hrows & -> & -> & -> & ->). fold m in Hrows.
  assert (Hm : 0 <= m) by (unfold m, clamped, BERT_MAX_LEN; lia).
  assert (Hcount : len rows = count).
  { apply Forall2_lengths in Hrows. unfold len. rewrite <- Hrows.
    rewrite length_combine. unfold count, labels_or_default.
    destruct labels as [l|]; unfold len; [lia|].
    rewrite length_map. lia. }
  assert (Hwidths :
            Forall (fun r =>
                      len (fst (fst (fst r))) = m /\ len (snd (fst (fst r))) = m
                      /\ len (snd r) = m
                      /\ label_row_length (snd (fst r)) = m) rows).
  { refine (Forall2_right _ _ _ _ _ Hrows).
    intros item [[[i mk] l] tm] Hrow. cbn [fst snd].
    exact (is_row_widths tokenizer m _ _ _ item i mk l tm Hone Hm Hrow). }
  unfold len in *. rewrite !length_map.
  split; [exact Hcount|]. split; [exact Hcount|]. split; [exact Hcount|].
  split; [|split; [|split]].
  - apply Forall_map. eapply Forall_impl; [|exact Hwidths]. simpl. tauto.
  - apply Forall_map. eapply Forall_impl; [|exact Hwidths]. simpl. tauto.
  - apply Forall_map. eapply Forall_impl; [|exact Hwidths]. simpl. tauto.
  - destruct labels as [l|]; cbn [given]; [|reflexivity].
    split; [discriminate|]. rewrite length_map. split; [exact Hcount|].
    apply Forall_map. eapply Forall_impl; [|exact Hwidths]. simpl. tauto.
Qed.

(** X24: a call that returns was given, for every sentence that has a
    label list, as many labels as words: one sentence with a different
    number of labels makes the whole call raise. *)
Theorem ner_returns_only_on_matching_counts (tokenizer : BertTokenizer)
    (text labels : word_lists) (max_len : Z)
    (label_map : option (str_dict Z)) (trailing_piece_tag : str)
    (input_ids_all input_mask_all : list (list number))
    (trailing_token_mask_all : list (list bool))
    (label_ids_all : option (list label_row)) :
  snd (tokenize_ner tokenizer text max_len (Some labels) label_map
         trailing_piece_tag)
  = Returned (input_ids_all, input_mask_all, trailing_token_mask_all,
              label_ids_all) ->
  Forall (fun '(t, t_labels) => len t = len t_labels)
    (combine (sentences text) (sentences labels)).
Proof.
  intros H. apply tokenize_ner_inv in H.
  destruct H as (rows & Hrows & _). cbn [labels_or_default] in Hrows.
  induction Hrows as [|[t t_labels] [[[i mk] l] tm] items rows Hrow _ IH];
    constructor; [|exact IH].
  unfold is_row in Hrow. destruct Hrow as [Hlen _]. unfold len. now f_equal.
Qed.

(** One iteration on a sentence that needs no truncation, with no label
    map. *)
Lemma sentence_step_tags (tokenizer : BertTokenizer) (m : Z)
    (label_available : bool) (label_map : option (str_dict Z))
    (trailing_piece_tag : str)
    (input_ids_all input_mask_all : list (list number))
    (label_ids_all : list label_row) (trailing_token_mask_all : list (list bool))
    (t t_labels : list str) :
  List.length t = List.length t_labels ->
  truthy label_map = None ->
  len (sentence_tokens tokenizer t) <= m ->
  let ids := convert_tokens_to_ids tokenizer (sentence_tokens tokenizer t) in
  let pad := Z.to_nat (m - len ids) in
  let new_labels :=
    sentence_labels tokenizer trailing_piece_tag label_available t t_labels
    ++ repeat (lit "O") pad in
  sentence_step tokenizer m label_available label_map trailing_piece_tag
    (input_ids_all, input_mask_all, label_ids_all, trailing_token_mask_all)
    (t, t_labels)
  = Returned
      (input_ids_all ++ [map IntNum ids ++ repeat (FloatNum 0) pad],
       input_mask_all
         ++ [repeat (FloatNum 1) (List.length ids) ++ repeat (FloatNum 0) pad],
       label_ids_all ++ [LabelTags new_labels],
       trailing_token_mask_all
         ++ [map (fun label => negb (str_eqb label trailing_piece_tag))
                 new_labels]).
Proof.
  intros Hlen Hmap Hfit. cbv zeta. unfold sentence_step.
  destruct (Z.eqb_spec (len t) (len t_labels)) as [_|Hne];
    [|unfold len in Hne; lia].
  cbn [negb].
  assert (Hloops :
            (if label_available
             then fold_left (labelled_word_step tokenizer trailing_piece_tag)
                    (combine t t_labels) ([], [])
             else fold_left (unlabelled_word_step tokenizer trailing_piece_tag)
                    t ([], []))
            = (sentence_labels tokenizer trailing_piece_tag label_available
                 t t_labels,
               sentence_tokens tokenizer t)).
  { unfold sentence_labels, sentence_tokens. destruct label_available.
    - rewrite labelled_loop. cbn [app].
      now rewrite (flat_map_combine_fst (tokenize tokenizer) t t_labels Hlen).
    - now rewrite unlabelled_loop. }
  rewrite Hloops, Hmap.
  destruct (Z.gtb_spec (len (sentence_tokens tokenizer t)) m); [lia|].
  cbn [result_bind]. unfold len. rewrite !length_map. reflexivity.
Qed.

Lemma filter_by_mask {A} (keep : A -> bool) (l : list A) :
  map snd (filter fst (combine (map keep l) l)) = filter keep l.
Proof.
  induction l as [|x l IH]; [reflexivity|].
  cbn [map combine filter fst]. destruct (keep x); cbn [map snd];
    now rewrite IH.
Qed.

Lemma filter_repeat_true {A} (keep : A -> bool) (x : A) (k : nat) :
  keep x = true -> filter keep (repeat x k) = repeat x k.
Proof.
  intros H. induction k as [|k IH]; [reflexivity|].
  cbn [repeat filter]. now rewrite H, IH.
Qed.

Lemma filter_trailing {A} (trailing_piece_tag : str) (rest : list A) :
  filter (fun label => negb (str_eqb label trailing_piece_tag))
    (map (fun _ => trailing_piece_tag) rest) = [].
Proof.
  induction rest as [|x rest IH]; [reflexivity|].
  cbn [map filter].
  replace (str_eqb trailing_piece_tag trailing_piece_tag) with true
    by (symmetry; now apply str_eqb_eq).
  exact IH.
Qed.

Lemma str_eqb_neq (s t : str) : s <> t -> str_eqb s t = false.
Proof.
  intros H. destruct (str_eqb s t) eqn:E; [|reflexivity].
  apply str_eqb_eq in E. contradiction.
Qed.

(** X25: the trailing token mask gives the labels of the words back.
    For one sentence with as many labels as words, in which every word
    has at least one piece and the pieces fit [max_len], with labels
    other than the trailing piece tag, a trailing piece tag other than
    ["O"] and no label map, the call returns one row, and the labels of
    the row at the positions where the mask is [True] are the labels of
    the words, in order, followed by the ["O"] of the padding. *)
Theorem ner_labels_round_trip (tokenizer : BertTokenizer)
    (t t_labels : list str) (max_len : Z) (trailing_piece_tag : str) :
  one_id_per_token tokenizer ->
  t <> [] -> List.length t = List.length t_labels ->
  (forall word, In word t -> tokenize tokenizer word <> []) ->
  (forall label, In label t_labels -> label <> trailing_piece_tag) ->
  trailing_piece_tag <> lit "O" ->
  len (sentence_tokens tokenizer t) <= clamped max_len ->
  exists input_ids input_mask trailing_token_mask tags,
    snd (tokenize_ner tokenizer (OneList t) max_len (Some (OneList t_labels))
           None trailing_piece_tag)
    = Returned ([input_ids], [input_mask], [trailing_token_mask],
                Some [LabelTags tags])
    /\ map snd (filter fst (combine trailing_token_mask tags))
       = t_labels
         ++ repeat (lit "O")
              (Z.to_nat (clamped max_len - len (sentence_tokens tokenizer t))).
Proof.
  intros Hone Ht Hlen Hpieces Hlabels Htag Hfit.
  rewrite ner_clamped. pose proof (clamped_le max_len) as Hle.
  set (m := clamped max_len) in *. clearbody m.
  unfold tokenize_ner. rewrite Hle. cbn [snd].
  destruct t as [|word t]; [contradiction|].
  destruct t_labels as [|label t_labels]; [discriminate|].
  unfold as_lists. rewrite !getitem_head. cbn [result_bind combine
    for_each_result].
  rewrite sentence_step_tags by (assumption || reflexivity).
  cbn [result_bind]. eexists _, _, _, _. split; [reflexivity|].
  rewrite filter_by_mask, filter_app.
  unfold len at 1. rewrite Hone. fold (len (sentence_tokens tokenizer
                                             (word :: t))).
  f_equal.
  - unfold sentence_labels.
    remember (word :: t) as words eqn:Ew.
    remember (label :: t_labels) as tags eqn:Et.
    clear Ew Et Ht Hfit word t label t_labels.
    revert tags Hlen Hlabels.
    induction words as [|w words IH]; intros [|tag tags] Hlen Hlabels;
      try discriminate; [reflexivity|].
    cbn [combine flat_map]. rewrite filter_app.
    rewrite IH; [|intros x Hx; apply Hpieces; now right
                 |now injection Hlen
                 |intros x Hx; apply Hlabels; now right].
    destruct (tokenize tokenizer w) as [|p ps] eqn:Ep;
      [exfalso; apply (Hpieces w); [now left|exact Ep]|].
    cbn [piece_labels filter].
    rewrite str_eqb_neq by (apply Hlabels; now left).
    cbn [negb]. now rewrite filter_trailing.
  - apply filter_repeat_true. rewrite str_eqb_neq; [reflexivity|].
    intros E. apply Htag. now symmetry.
Qed.

(** The flags of the pieces of a word: [True] for the first piece. *)
Definition first_piece_flags (sub_words : list str) : list bool :=
  match sub_words with
  | [] => []
  | _ :: rest => true :: map (fun _ => false) rest
  end.

(** X26: without labels and without a label map, for one sentence whose
    pieces fit [max_len] and a trailing piece tag other than ["O"], the
    call returns one row and no labels: the ids are the ids of the pieces
    followed by the float 0.0 up to [max_len], the mask is the float 1.0
    on the pieces and 0.0 on the padding, and the trailing token mask is
    [True] on the first piece of every word and on the padding, and
    [False] on the other pieces. *)
Theorem ner_unlabelled_row (tokenizer : BertTokenizer) (t : list str)
    (max_len : Z) (trailing_piece_tag : str) :
  t <> [] ->
  trailing_piece_tag <> lit "O" ->
  len (sentence_tokens tokenizer t) <= clamped max_len ->
  let ids := convert_tokens_to_ids tokenizer (sentence_tokens tokenizer t) in
  let pad := Z.to_nat (clamped max_len - len ids) in
  snd (tokenize_ner tokenizer (OneList t) max_len None None
         trailing_piece_tag)
  = Returned
      ([map IntNum ids ++ repeat (FloatNum 0) pad],
       [repeat (FloatNum 1) (List.length ids) ++ repeat (FloatNum 0) pad],
       [flat_map (fun word => first_piece_flags (tokenize tokenizer word)) t
        ++ repeat true pad],
       None).
Proof.
  intros Ht Htag Hfit. cbv zeta.
  rewrite ner_clamped. pose proof (clamped_le max_len) as Hle.
  set (m := clamped max_len) in *. clearbody m.
  unfold tokenize_ner. rewrite Hle. cbn [snd].
  destruct t as [|word t]; [contradiction|].
  unfold as_lists. rewrite !getitem_head.
  cbn [result_bind map combine for_each_result].
  rewrite sentence_step_tags
    by (rewrite ?repeat_length; assumption || reflexivity).
  cbn [result_bind app]. do 4 f_equal.
  rewrite map_app. f_equal.
  - unfold sentence_labels. remember (word :: t) as words eqn:Ew.
    clear Ew Ht Hfit word t.
    induction words as [|w words IH]; [reflexivity|].
    cbn [flat_map]. rewrite map_app, IH. f_equal.
    destruct (tokenize tokenizer w) as [|p ps]; [reflexivity|].
    cbn [piece_labels first_piece_flags map].
    rewrite str_eqb_neq by (intros E; apply Htag; now symmetry).
    cbn [negb]. f_equal. rewrite map_map. apply map_ext. intros _.
    replace (str_eqb trailing_piece_tag trailing_piece_tag) with true
      by (symmetry; now apply str_eqb_eq).
    reflexivity.
  - rewrite map_repeat. f_equal.
    rewrite str_eqb_neq by (intros E; apply Htag; now symmetry).
    reflexivity.
Qed.

(** ** The features, window by window (lines 553-565) *)

(** A loop over [enumerate(l)] whose iterations each append to a list that
    the state holds: after the loop the list has grown by what the
    iterations append, in order. *)
Lemma for_each_enumerate_collect {A St B} (view : St -> list B)
    (l : list A) (body : St -> Z * A -> outcome St) (g : Z * A -> list B) :
  (forall k x s s', nth_error l k = Some x ->
     body s (Z.of_nat k, x) = Return s' -> view s' = view s ++ g (Z.of_nat k, x)) ->
  forall s s', for_each (enumerate l) body s = Return s' ->
               view s' = view s ++ flat_map g (enumerate l).
Proof.
  intros Hbody s s' H.
  pose (P := fun (k : nat) (st : St) =>
               view st = view s ++ flat_map g (enumerate (firstn k l))).
  enough (HP : P (List.length l) s') by (unfold P in HP; now rewrite firstn_all in HP).
  refine (for_each_enumerate_invariant P l body _ s s' H _).
  - intros k x s1 s2 Hk Hs1 Hstep. unfold P in *.
    rewrite (Hbody k x s1 s2 Hk Hstep), Hs1, <- app_assoc. f_equal.
    rewrite (firstn_succ l k x Hk), enumerate_snoc, flat_map_app.
    cbn [flat_map]. rewrite app_nil_r. do 3 f_equal.
    unfold len. rewrite length_firstn.
    assert (k < List.length l)%nat by (apply nth_error_Some; congruence).
    lia.
  - unfold P. simpl. now rewrite app_nil_r.
Qed.

Lemma flat_map_enumerate_snd {A C} (h : A -> C) (l : list A) :
  flat_map (fun item : Z * A => [h (snd item)]) (enumerate l) = map h l.
Proof.
  unfold enumerate.
  assert (H : forall indices : list Z,
             List.length indices = List.length l ->
             flat_map (fun item : Z * A => [h (snd item)]) (combine indices l)
             = map h l).
  { induction l as [|x l IH]; intros [|i indices] Hl; try discriminate;
      [reflexivity|].
    cbn [map combine flat_map app snd]. f_equal. apply IH. now injection Hl. }
  apply H. now rewrite length_map, length_seq.
Qed.

(** The windows of an example, for a loop that ends, and the tokens of
    the feature of a window. *)
Definition example_windows (tokenizer : BertTokenizer)
    (max_query_length max_len doc_stride : Z) (example : QAExample)
    : list DocSpan :=
  let all_doc_tokens := snd (subtokens_of tokenizer (doc_tokens example)) in
  let query := example_query tokenizer max_query_length example in
  match doc_spans_of (len all_doc_tokens) (max_len - len query - 3)
          doc_stride with
  | Return doc_spans => doc_spans
  | _ => []
  end.

Definition window_tokens (tokenizer : BertTokenizer) (max_query_length : Z)
    (example : QAExample) (doc_span : DocSpan) : list str :=
  let all_doc_tokens := snd (subtokens_of tokenizer (doc_tokens example)) in
  [cls_token] ++ example_query tokenizer max_query_length example
  ++ [sep_token]
  ++ firstn (Z.to_nat (DocSpan.length doc_span))
       (skipn (Z.to_nat (DocSpan.start doc_span)) all_doc_tokens)
  ++ [sep_token].

(** X27: the features are one per window, example after example and
    window after window: the list of their example indices, paragraph
    lengths and tokens is the list, over the examples in order and over
    the windows of each example in order, of the index of the example,
    the length of the window, and [CLS], the query, [SEP], the sub-tokens
    of the window and [SEP]. *)
Theorem features_by_window (tokenizer : BertTokenizer) {fl : PyFloat}
    (doc_text question_text : str_or_list)
    (answer_start : list int_or_list) (answer_text : list str_or_list)
    (is_training : bool) (max_query_length max_len doc_stride : Z)
    (qa_id : option (list Z)) (is_impossible : option (list bool))
    (features : list QAFeatures) (qa_examples : list QAExample) :
  tokenize_qa tokenizer doc_text question_text answer_start answer_text
    is_training max_query_length max_len doc_stride qa_id is_impossible
  = Return (features, qa_examples) ->
  map (fun f => (example_index f, paragraph_len f, tokens f)) features
  = flat_map
      (fun '(k, example) =>
         map (fun doc_span =>
                (k, DocSpan.length doc_span,
                 window_tokens tokenizer max_query_length example doc_span))
             (example_windows tokenizer max_query_length max_len doc_stride
                example))
      (enumerate qa_examples).
Proof.
  intros Hreturn. pose proof Hreturn as H. unfold tokenize_qa in H.
  apply bind_return in H. destruct H as (examples & Hex & H).
  apply bind_return in H. destruct H as ([uid feats] & Hloop & H).
  injection H as Hf He. subst feats examples.
  pose (view := fun st : Z * list QAFeatures =>
                  map (fun f => (example_index f, paragraph_len f, tokens f))
                      (snd st)).
  change (view (uid, features)
          = view (1000000000, [])
            ++ flat_map
                 (fun '(k, example) =>
                    map (fun doc_span =>
                           (k, DocSpan.length doc_span,
                            window_tokens tokenizer max_query_length example
                              doc_span))
                        (example_windows tokenizer max_query_length max_len
                           doc_stride example))
                 (enumerate qa_examples)).
  refine (for_each_enumerate_collect view qa_examples _ _ _ _ _ Hloop).
  intros k example st st' Hk Hstep.
  apply example_step_inv in Hstep.
  destruct Hstep as (toi & oti & adt & tsp & tep & spans & Hsub & Hpos
                     & Hspans & Hfeat).
  cbv zeta in Hspans, Hfeat.
  unfold example_windows, example_query. rewrite Hsub. cbn [snd].
  rewrite Hspans.
  rewrite <- (flat_map_enumerate_snd
                (fun doc_span =>
                   (Z.of_nat k, DocSpan.length doc_span,
                    window_tokens tokenizer max_query_length example doc_span))
                spans).
  refine (for_each_enumerate_collect view spans _ _ _ _ _ Hfeat).
  intros j sp [uid0 feats0] s' Hj Hrun.
  pose (it := {| it_example := example; it_is_example := Hk;
                 it_subtokens := Hsub; it_positions := Hpos;
                 it_spans := Hspans; it_is_span := Hj |}
              : iteration tokenizer is_training max_query_length max_len
                  doc_stride qa_examples k j).
  destruct (runs_feature tokenizer _ _ _ _ _ _ _ it uid0 feats0 s' Hrun)
    as (f & -> & _ & Hindex & Htokens & _ & _ & _ & _ & Hpl & _).
  unfold view. cbn [snd]. rewrite map_app. cbn [map].
  rewrite Hindex, Hpl, Htokens. unfold window_tokens, example_query.
  rewrite Hsub. reflexivity.
Qed.

(** ** From texts to rows (lines 61-78 with 101-166) *)

(** [preprocess_classification_tokens] applied to what
    [Tokenizer.tokenize] returns. *)
Definition classify (tokenizer : BertTokenizer) (text : documents)
    (max_len : Z)
    : outcome (list (list Z) * list (list Z) * option (list (list Z))) :=
  bind (Tokenizer_tokenize tokenizer text)
    (fun tokens =>
       snd (preprocess_classification_tokens tokenizer tokens max_len)).

(** X28: tokenizing a batch of texts and preprocessing the result ends in
    [IndexError] for an empty batch and for a batch whose first text has
    no token, whatever the other texts are. Otherwise, for [max_len] at
    least 2, it returns one row per text, the ids of [CLS], the first
    [max_len - 2] tokens of the text and [SEP], padded with 0s, and no
    token type ids. *)
Theorem classify_texts (tokenizer : BertTokenizer) (first : str)
    (rest : list str) (max_len : Z) :
  classify tokenizer (Texts []) max_len = Raise IndexError
  /\ (tokenize tokenizer first = [] ->
      classify tokenizer (Texts (first :: rest)) max_len = Raise IndexError)
  /\ (tokenize tokenizer first <> [] -> 2 <= max_len ->
      let m := clamped max_len in
      let ids :=
        map (fun text =>
               pad_to m
                 (convert_tokens_to_ids tokenizer
                    (single_tokens m (tokenize tokenizer text))))
            (first :: rest) in
      classify tokenizer (Texts (first :: rest)) max_len
      = Return (ids, map (map (Z.min 1)) ids, None)).
Proof.
  split; [reflexivity|]. split.
  - intros Hnone. unfold classify, Tokenizer_tokenize, index.
    rewrite getitem_head. cbn [bind map]. rewrite Hnone.
    rewrite preprocess_clamped. unfold preprocess_classification_tokens.
    rewrite (clamped_le max_len). reflexivity.
  - intros Hsome Hlen. cbv zeta. unfold classify, Tokenizer_tokenize, index.
    rewrite getitem_head. cbn [bind map].
    rewrite preprocess_single by assumption. cbn [map].
    rewrite !map_map. reflexivity.
Qed.

(** ** A label map has to know ["O"] (lines 298-323) *)

Lemma unlabelled_labels_head (tokenizer : BertTokenizer)
    (trailing_piece_tag : str) (t t_labels : list str) :
  sentence_labels tokenizer trailing_piece_tag false t t_labels = []
  \/ exists rest,
       sentence_labels tokenizer trailing_piece_tag false t t_labels
       = lit "O" :: rest.
Proof.
  unfold sentence_labels. induction t as [|word t IH]; [now left|].
  cbn [flat_map]. destruct (tokenize tokenizer word) as [|p ps].
  - exact IH.
  - right. cbn [piece_labels app]. eauto.
Qed.

(** X29: without labels, a label map that is not empty and does not have
    the key ["O"] makes the call raise [KeyError] for ["O"], for every
    sentence that is not empty and every positive [max_len]: the
    artificial labels and the padding are ["O"], and they are looked up
    in the map. *)
Theorem ner_label_map_needs_O (tokenizer : BertTokenizer) (t : list str)
    (max_len : Z) (entry : str * Z) (label_map : str_dict Z)
    (trailing_piece_tag : str) :
  one_id_per_token tokenizer ->
  t <> [] -> 0 < max_len ->
  str_get (entry :: label_map) (lit "O") = None ->
  snd (tokenize_ner tokenizer (OneList t) max_len None
         (Some (entry :: label_map)) trailing_piece_tag)
  = Raised (KeyError (lit "O")).
Proof.
  intros Hone Ht Hlen Hkey.
  rewrite ner_clamped. pose proof (clamped_le max_len) as Hle.
  assert (Hm : 0 < clamped max_len) by (unfold clamped, BERT_MAX_LEN; lia).
  set (m := clamped max_len) in *. clearbody m.
  unfold tokenize_ner. rewrite Hle. cbn [snd].
  destruct t as [|word t]; [contradiction|].
  unfold as_lists. rewrite !getitem_head.
  cbn [result_bind map combine for_each_result].
  remember (word :: t) as words eqn:Ew. clear Ew Ht word t.
  unfold sentence_step.
  assert (E : (len words =? len (repeat (lit "O") (List.length words))) = true)
    by (apply Z.eqb_eq; unfold len; now rewrite repeat_length).
  rewrite E. clear E. cbn [negb].
  rewrite unlabelled_loop. cbn [app truthy].
  fold (sentence_tokens tokenizer words).
  change (flat_map (fun word =>
                      piece_labels trailing_piece_tag (lit "O")
                        (tokenize tokenizer word)) words)
    with (sentence_labels tokenizer trailing_piece_tag false words
            (repeat (lit "O") (List.length words))).
  pose proof (sentence_labels_length tokenizer trailing_piece_tag false words
                (repeat (lit "O") (List.length words))
                ltac:(now rewrite repeat_length)) as Hsame.
  destruct (unlabelled_labels_head tokenizer trailing_piece_tag words
              (repeat (lit "O") (List.length words))) as [Hnil|(rest & Hhead)].
  - rewrite Hnil in *. cbn [List.length] in Hsame.
    destruct (sentence_tokens tokenizer words) as [|tok toks];
      [|discriminate].
    change (len (@nil str)) with 0. destruct (Z.gtb_spec 0 m); [lia|].
    unfold len. rewrite !length_map, !Hone. cbn [List.length app].
    replace (Z.to_nat (m - Z.of_nat 0)) with (S (Z.to_nat (m - 1))) by lia.
    cbn [repeat label_ids_of]. rewrite Hkey. reflexivity.
  - rewrite Hhead in *.
    destruct (len (sentence_tokens tokenizer words) >? m).
    + rewrite (slice_prefix (lit "O" :: rest)) by lia.
      replace (Z.to_nat m) with (S (Z.to_nat (m - 1))) by lia.
      cbn [firstn app label_ids_of]. rewrite Hkey. reflexivity.
    + cbn [app label_ids_of]. rewrite Hkey. reflexivity.
Qed.

(** ** The theorems at concrete inputs *)

Module MoreSamples.

(** The question of [Samples] in training mode, with its answer. *)
Definition training : outcome (list QAFeatures * list QAExample) :=
  tokenize_qa Toy.tokenizer (fl := binary64)
    (StrList [Samples.document]) (StrList [Samples.question]) [IntList [27]]
    [StrList [lit "1895"]] true 64 20 3 None None.

(** Two sentences for classification, and a pair of them. *)
Definition sentence_a : list str := tokenize Toy.tokenizer Samples.document.
Definition sentence_b : list str := tokenize Toy.tokenizer Samples.question.

(** A sentence for named entity recognition, and its labels. *)
Definition words : list str := [lit "John"; lit "Smith's"; lit "year"].
Definition word_labels : list str := [lit "B-PER"; lit "I-PER"; lit "O"].

End MoreSamples.

Lemma unique_ids_consecutive_witness :
  map unique_id (fst (Samples.returned Samples.inference))
  = range 1000000000
      (1000000000 + len (fst (Samples.returned Samples.inference))).
Proof.
  apply (unique_ids_consecutive Toy.tokenizer (fl := binary64)
           (StrList [Samples.document]) (StrList [Samples.question])
           [IntList [27]] [StrList [lit "1895"]] false 64 20 3 None None
           (fst (Samples.returned Samples.inference))
           (snd (Samples.returned Samples.inference))).
  vm_compute. reflexivity.
Defined.

Lemma example_index_sorted_witness :
  Forall (fun f =>
            0 <= example_index f
            < len (snd (Samples.returned Samples.inference)))
    (fst (Samples.returned Samples.inference))
  /\ StronglySorted Z.le
       (map example_index (fst (Samples.returned Samples.inference))).
Proof.
  apply (example_index_sorted Toy.tokenizer (fl := binary64)
           (StrList [Samples.document]) (StrList [Samples.question])
           [IntList [27]] [StrList [lit "1895"]] false 64 20 3 None None).
  vm_compute. reflexivity.
Defined.

Lemma features_layout_witness :
  Forall (fun f =>
            exists example,
              nth_error (snd (Samples.returned Samples.inference))
                (Z.to_nat (example_index f)) = Some example
              /\ feature_layout Toy.tokenizer 64 20 example f)
    (fst (Samples.returned Samples.inference)).
Proof.
  apply (features_layout Toy.tokenizer (fl := binary64)
           (StrList [Samples.document]) (StrList [Samples.question])
           [IntList [27]] [StrList [lit "1895"]] false 64 20 3 None None).
  vm_compute. reflexivity.
Defined.

Lemma token_to_orig_map_words_witness :
  Forall (fun f =>
            exists example,
              let query := example_query Toy.tokenizer 64 example in
              nth_error (snd (Samples.returned Samples.inference))
                (Z.to_nat (example_index f)) = Some example
              /\ map fst (token_to_orig_map f)
                 = range (len query + 2) (len query + 2 + paragraph_len f)
              /\ forall i, (i < Z.to_nat (paragraph_len f))%nat ->
                   exists w word piece,
                     get (token_to_orig_map f) (len query + 2 + Z.of_nat i)
                     = Some (Z.of_nat w)
                     /\ nth_error (doc_tokens example) w = Some word
                     /\ nth_error (tokens f) (List.length query + 2 + i)
                        = Some piece
                     /\ In piece (tokenize Toy.tokenizer word))
    (fst (Samples.returned Samples.inference)).
Proof.
  apply (token_to_orig_map_words Toy.tokenizer (fl := binary64)
           (StrList [Samples.document]) (StrList [Samples.question])
           [IntList [27]] [StrList [lit "1895"]] false 64 20 3 None None).
  vm_compute. reflexivity.
Defined.

Lemma returns_only_on_well_formed_answers_witness :
  Forall (well_formed_answers true)
    (questions_of (StrList [Samples.document]) (StrList [Samples.question])
       [IntList [27]] [StrList [lit "1895"]] None None).
Proof.
  apply (returns_only_on_well_formed_answers Toy.tokenizer (fl := binary64)
           (StrList [Samples.document]) (StrList [Samples.question])
           [IntList [27]] [StrList [lit "1895"]] true 64 20 3 None None
           (fst (Samples.returned MoreSamples.training))
           (snd (Samples.returned MoreSamples.training))).
  vm_compute. reflexivity.
Defined.

Lemma features_by_window_witness :
  map (fun f => (example_index f, paragraph_len f, tokens f))
      (fst (Samples.returned Samples.inference))
  = flat_map
      (fun '(k, example) =>
         map (fun doc_span =>
                (k, DocSpan.length doc_span,
                 window_tokens Toy.tokenizer 64 example doc_span))
             (example_windows Toy.tokenizer 64 20 3 example))
      (enumerate (snd (Samples.returned Samples.inference))).
Proof.
  apply (features_by_window Toy.tokenizer (fl := binary64)
           (StrList [Samples.document]) (StrList [Samples.question])
           [IntList [27]] [StrList [lit "1895"]] false 64 20 3 None None).
  vm_compute. reflexivity.
Defined.

Lemma truncate_seq_pair_balanced_witness :
  _truncate_seq_pair MoreSamples.sentence_a MoreSamples.sentence_b 9
  = Return (firstn 5 MoreSamples.sentence_a ++ [lit "[SEP]"],
            firstn 4 MoreSamples.sentence_b ++ [lit "[SEP]"]).
Proof.
  apply (truncate_seq_pair_balanced MoreSamples.sentence_a
           MoreSamples.sentence_b 9).
  lia.
Defined.

Lemma truncate_seq_pair_negative_witness :
  _truncate_seq_pair MoreSamples.sentence_a MoreSamples.sentence_b (-1)
  = Raise IndexError.
Proof.
  apply (truncate_seq_pair_negative MoreSamples.sentence_a
           MoreSamples.sentence_b (-1)).
  lia.
Defined.

Lemma classification_single_rows_witness :
  exists ids mask,
    snd (preprocess_classification_tokens Toy.tokenizer
           (Sentences [MoreSamples.sentence_a; MoreSamples.sentence_b]) 8)
    = Return (ids, mask, None)
    /\ Forall2 (fun x row =>
                  row = convert_tokens_to_ids Toy.tokenizer
                          (single_tokens (clamped 8) x)
                        ++ repeat 0 (Z.to_nat (clamped 8 - 2 - len x)))
         [MoreSamples.sentence_a; MoreSamples.sentence_b] ids
    /\ Forall (fun row => len row = clamped 8) ids
    /\ Forall (fun row => len row = clamped 8) mask.
Proof.
  apply (classification_single_rows Toy.tokenizer MoreSamples.sentence_a
           [MoreSamples.sentence_b] 8).
  - exact toy_one_id_per_token.
  - vm_compute. discriminate.
  - lia.
Defined.

Lemma classification_single_mask_witness :
  [[1; 1; 1; 1; 1; 1; 1; 1]; [1; 1; 1; 1; 1; 1; 1; 1]]
  = map (fun x => repeat 1 (Z.to_nat (Z.min (len x) (clamped 8 - 2) + 2))
                  ++ repeat 0 (Z.to_nat (clamped 8 - 2 - len x)))
        [MoreSamples.sentence_a; MoreSamples.sentence_b].
Proof.
  apply (classification_single_mask Toy.tokenizer MoreSamples.sentence_a
           [MoreSamples.sentence_b] 8
           [[91; 84; 108; 119; 74; 83; 40; 91];
            [91; 87; 121; 119; 74; 83; 98; 91]]
           [[1; 1; 1; 1; 1; 1; 1; 1]; [1; 1; 1; 1; 1; 1; 1; 1]] None).
  - exact toy_one_id_per_token.
  - vm_compute. discriminate.
  - lia.
  - intros x [<-|[<-|[]]]; vm_compute; repeat constructor.
  - vm_compute. reflexivity.
Defined.

Lemma classification_pair_rows_witness :
  exists ids mask token_type_ids,
    snd (preprocess_classification_tokens Toy.tokenizer
           (SentenceTuples [[MoreSamples.sentence_a; MoreSamples.sentence_b]])
           12)
    = Return (ids, mask, Some token_type_ids)
    /\ Forall (fun row => len row = clamped 12) ids
    /\ Forall (fun row => len row = clamped 12) mask
    /\ Forall (fun row => len row = clamped 12) token_type_ids
    /\ forall i example,
         nth_error [[MoreSamples.sentence_a; MoreSamples.sentence_b]] i
         = Some example ->
         exists tokens_a tokens_b,
           _truncate_seq_pair (nth 0 example []) (nth 1 example [])
             (clamped 12 - 3)
           = Return (tokens_a, tokens_b)
           /\ nth_error ids i
              = Some (pad_to (clamped 12)
                        (convert_tokens_to_ids Toy.tokenizer
                           ([lit "[CLS]"] ++ tokens_a ++ tokens_b)))
           /\ nth_error token_type_ids i
              = Some (pad_to (clamped 12)
                        (repeat 0 (1 + List.length tokens_a)
                         ++ repeat 1 (List.length tokens_b))).
Proof.
  apply (classification_pair_rows Toy.tokenizer
           [[MoreSamples.sentence_a; MoreSamples.sentence_b]] 12).
  - exact toy_one_id_per_token.
  - discriminate.
  - repeat constructor. vm_compute. discriminate.
  - lia.
Defined.

Lemma classification_pairs_small_max_len_witness :
  snd (preprocess_classification_tokens Toy.tokenizer
         (SentenceTuples [[MoreSamples.sentence_a; MoreSamples.sentence_b]])
         2)
  = Raise IndexError.
Proof.
  apply (classification_pairs_small_max_len Toy.tokenizer
           MoreSamples.sentence_a MoreSamples.sentence_b [] [] 2).
  lia.
Defined.

Lemma classification_single_small_max_len_witness :
  exists ids mask,
    snd (preprocess_classification_tokens Toy.tokenizer
           (Sentences [MoreSamples.sentence_a; MoreSamples.sentence_b]) 1)
    = Return (ids, mask, None)
    /\ Forall2 (fun x row =>
                  len row = Z.max (len x + 1 - 2) 0 + 2 /\ 1 < len row)
         [MoreSamples.sentence_a; MoreSamples.sentence_b] ids.
Proof.
  apply (classification_single_small_max_len Toy.tokenizer
           MoreSamples.sentence_a [MoreSamples.sentence_b] 1).
  - exact toy_one_id_per_token.
  - vm_compute. discriminate.
  - lia.
Defined.

Lemma classify_texts_witness :
  classify Toy.tokenizer (Texts []) 8 = Raise IndexError
  /\ classify Toy.tokenizer (Texts [lit " "; Samples.question]) 8
     = Raise IndexError
  /\ classify Toy.tokenizer (Texts [Samples.document; Samples.question]) 8
     = Return ([[91; 84; 108; 119; 74; 83; 40; 91];
                [91; 87; 121; 119; 74; 83; 98; 91]],
               [[1; 1; 1; 1; 1; 1; 1; 1]; [1; 1; 1; 1; 1; 1; 1; 1]], None).
Proof.
  split; [|split].
  - apply (classify_texts Toy.tokenizer Samples.document [] 8).
  - apply (classify_texts Toy.tokenizer (lit " ") [Samples.question] 8).
    reflexivity.
  - apply (classify_texts Toy.tokenizer Samples.document [Samples.question] 8).
    + vm_compute. discriminate.
    + lia.
Defined.

Lemma ner_rows_fixed_width_witness :
  Forall (fun row => len row = 8)
    [[IntNum 74; IntNum 83; IntNum 39; IntNum 115; IntNum 121;
      FloatNum 0; FloatNum 0; FloatNum 0]].
Proof.
  apply (ner_rows_fixed_width Toy.tokenizer (OneList MoreSamples.words) 8
           (Some (OneList MoreSamples.word_labels)) None (lit "X")
           [[IntNum 74; IntNum 83; IntNum 39; IntNum 115; IntNum 121;
             FloatNum 0; FloatNum 0; FloatNum 0]]
           [[FloatNum 1; FloatNum 1; FloatNum 1; FloatNum 1; FloatNum 1;
             FloatNum 0; FloatNum 0; FloatNum 0]]
           [[true; true; false; false; true; true; true; true]]
           (Some [LabelTags [lit "B-PER"; lit "I-PER"; lit "X"; lit "X";
                             lit "O"; lit "O"; lit "O"; lit "O"]])).
  - exact toy_one_id_per_token.
  - lia.
  - vm_compute. reflexivity.
Defined.

Lemma ner_returns_only_on_matching_counts_witness :
  Forall (fun '(t, t_labels) => len t = len t_labels)
    (combine (sentences (OneList MoreSamples.words))
       (sentences (OneList MoreSamples.word_labels))).
Proof.
  apply (ner_returns_only_on_matching_counts Toy.tokenizer
           (OneList MoreSamples.words) (OneList MoreSamples.word_labels) 8
           None (lit "X")
           [[IntNum 74; IntNum 83; IntNum 39; IntNum 115; IntNum 121;
             FloatNum 0; FloatNum 0; FloatNum 0]]
           [[FloatNum 1; FloatNum 1; FloatNum 1; FloatNum 1; FloatNum 1;
             FloatNum 0; FloatNum 0; FloatNum 0]]
           [[true; true; false; false; true; true; true; true]]
           (Some [LabelTags [lit "B-PER"; lit "I-PER"; lit "X"; lit "X";
                             lit "O"; lit "O"; lit "O"; lit "O"]])).
  vm_compute. reflexivity.
Defined.

Lemma ner_labels_round_trip_witness :
  exists input_ids input_mask trailing_token_mask tags,
    snd (tokenize_ner Toy.tokenizer (OneList MoreSamples.words) 8
           (Some (OneList MoreSamples.word_labels)) None (lit "X"))
    = Returned ([input_ids], [input_mask], [trailing_token_mask],
                Some [LabelTags tags])
    /\ map snd (filter fst (combine trailing_token_mask tags))
       = MoreSamples.word_labels
         ++ repeat (lit "O")
              (Z.to_nat
                 (clamped 8
                  - len (sentence_tokens Toy.tokenizer MoreSamples.words))).
Proof.
  apply (ner_labels_round_trip Toy.tokenizer MoreSamples.words
           MoreSamples.word_labels 8 (lit "X")).
  - exact toy_one_id_per_token.
  - discriminate.
  - reflexivity.
  - intros word [<-|[<-|[<-|[]]]]; vm_compute; discriminate.
  - intros label [<-|[<-|[<-|[]]]]; vm_compute; discriminate.
  - vm_compute. discriminate.
  - vm_compute. discriminate.
Defined.

Lemma ner_unlabelled_row_witness :
  snd (tokenize_ner Toy.tokenizer (OneList MoreSamples.words) 8 None None
         (lit "X"))
  = Returned
      ([[IntNum 74; IntNum 83; IntNum 39; IntNum 115; IntNum 121;
         FloatNum 0; FloatNum 0; FloatNum 0]],
       [[FloatNum 1; FloatNum 1; FloatNum 1; FloatNum 1; FloatNum 1;
         FloatNum 0; FloatNum 0; FloatNum 0]],
       [[true; true; false; false; true; true; true; true]],
       None).
Proof.
  apply (ner_unlabelled_row Toy.tokenizer MoreSamples.words 8 (lit "X")).
  - discriminate.
  - vm_compute. discriminate.
  - vm_compute. discriminate.
Defined.

Lemma ner_label_map_needs_O_witness :
  snd (tokenize_ner Toy.tokenizer (OneList MoreSamples.words) 8 None
         (Some [(lit "B-PER", 1); (lit "I-PER", 2)]) (lit "X"))
  = Raised (KeyError (lit "O")).
Proof.
  apply (ner_label_map_needs_O Toy.tokenizer MoreSamples.words 8
           (lit "B-PER", 1) [(lit "I-PER", 2)] (lit "X")).
  - exact toy_one_id_per_token.
  - discriminate.
  - lia.
  - reflexivity.
Defined.

(** * The examples and the labels of training mode, and the padding *)

(** ** The examples, answer by answer (lines 444-501) *)

Lemma for_append_collect {A B} (l : list A) (body : A -> outcome (list B))
    (g : A -> list B) :
  (forall x ys, In x l -> body x = Return ys -> ys = g x) ->
  forall acc res, for_append l body acc = Return res ->
                  res = acc ++ flat_map g l.
Proof.
  induction l as [|x l IH]; intros Hbody acc res H.
  - injection H as <-. simpl. now rewrite app_nil_r.
  - simpl in H. apply bind_return in H. destruct H as (ys & H1 & H2).
    apply (IH (fun y zs Hy => Hbody y zs (or_intror Hy))) in H2.
    rewrite H2, (Hbody x ys (or_introl eq_refl) H1), <- app_assoc.
    reflexivity.
Qed.

Lemma flat_map_singleton {A B} (f : A -> B) (l : list A) :
  flat_map (fun x => [f x]) l = map f l.
Proof. induction l as [|x l IH]; simpl; [reflexivity|now rewrite IH]. Qed.

(** The answers of a question as the loop over them sees them: the
    starts zipped with the texts, or the single start and text. *)
Definition answers_list (a_start : int_or_list) (a_text : str_or_list)
    : list (Z * str_or_list) :=
  match a_start with
  | IntList starts => combine starts (map Str (iter a_text))
  | Int z => [(z, a_text)]
  end.

(** The example of the answer [(s, t)] of a question in training mode:
    the positions are -1 for an impossible question, and otherwise
    [char_to_word_offset] at the first and at the last character of the
    answer. *)
Definition training_example_of
    (q : str * str * int_or_list * str_or_list * Z * bool)
    (answer : Z * str_or_list) : QAExample :=
  let '(d_text, q_text, _, _, q_id, impossible) := q in
  let '(s, t) := answer in
  let d_tokens := fst (whitespace_split d_text) in
  let char_to_word_offset := snd (whitespace_split d_text) in
  {| qa_id := q_id;
     doc_tokens := d_tokens;
     question_text := q_text;
     orig_answer_text := t;
     start_position :=
       if impossible then Some (-1) else getitem char_to_word_offset s;
     end_position :=
       if impossible then Some (-1)
       else getitem char_to_word_offset (s + len_of t - 1);
     is_impossible := impossible |}.

Lemma example_of_training_eq (tokenizer : BertTokenizer)
    (d_text q_text : str) (a_start : int_or_list) (a_text : str_or_list)
    (q_id : Z) (impossible : bool) (s : Z) (t : str_or_list)
    (e : option QAExample) :
  example_of tokenizer (fst (whitespace_split d_text))
    (snd (whitespace_split d_text)) q_text q_id impossible true s t
  = Return e ->
  e = Some (training_example_of
              (d_text, q_text, a_start, a_text, q_id, impossible) (s, t)).
Proof.
  unfold example_of, training_example_of. destruct impossible; cbn [negb].
  - now intros [= <-].
  - intros H. apply bind_return in H. destruct H as (sp & Hsp & H).
    apply bind_return in H. destruct H as (ep & Hep & H).
    apply bind_return in H. destruct H as (words & Hwords & H).
    unfold index in Hsp, Hep.
    destruct (getitem (snd (whitespace_split d_text)) s) as [sp'|];
      [|discriminate].
    destruct (getitem (snd (whitespace_split d_text)) (s + len_of t - 1))
      as [ep'|]; [|discriminate].
    injection Hsp as ->. injection Hep as ->.
    destruct (find _ _ =? -1); [|now injection H as <-].
    rewrite logger_is_unbound in H. discriminate.
Qed.

Lemma answers_of_returned (a_start : int_or_list) (a_text : str_or_list)
    (is_training impossible : bool) (answers : list (Z * str_or_list)) :
  answers_of a_start a_text is_training impossible = Return answers ->
  answers = answers_list a_start a_text.
Proof.
  unfold answers_of, answers_list. destruct a_start as [z|starts].
  - now intros [= <-].
  - destruct (negb (len starts =? len_of a_text)); [discriminate|].
    destruct ((len starts >? 1) && is_training && negb impossible);
      [discriminate|].
    now intros [= <-].
Qed.

(** X8: in training mode the returned examples are, in the order of the
    questions and of the answers of each question, one example per
    answer, none left out: the example holds the words of the document,
    the question, the answer text, and as positions -1 and -1 for an
    impossible question and otherwise [char_to_word_offset] at the first
    character of the answer and at its last character. For an answerable
    question these two positions are integers, each -1 or the index of a
    word of the document, and the words from the one to the other contain
    the answer text, split at whitespace and joined by blanks. *)
Theorem training_examples (tokenizer : BertTokenizer) {fl : PyFloat}
    (doc_text question_text : str_or_list)
    (answer_start : list int_or_list) (answer_text : list str_or_list)
    (max_query_length max_len doc_stride : Z)
    (qa_id : option (list Z)) (is_impossible : option (list bool))
    (features : list QAFeatures) (qa_examples : list QAExample) :
  tokenize_qa tokenizer doc_text question_text answer_start answer_text
    true max_query_length max_len doc_stride qa_id is_impossible
  = Return (features, qa_examples) ->
  qa_examples
  = flat_map
      (fun q =>
         let '(_, _, a_start, a_text, _, _) := q in
         map (training_example_of q) (answers_list a_start a_text))
      (questions_of doc_text question_text answer_start answer_text qa_id
         is_impossible)
  /\ Forall (training_example tokenizer) qa_examples.
Proof.
  unfold tokenize_qa. intros H.
  apply bind_return in H. destruct H as (examples & Hex & H).
  apply bind_return in H. destruct H as ([uid feats] & _ & H).
  injection H as _ <-.
  split; [|exact (qa_examples_training tokenizer _ _ _ _ _ _ _ Hex)].
  unfold qa_examples_of in Hex.
  fold (questions_of doc_text question_text answer_start answer_text qa_id
          is_impossible) in Hex.
  rewrite <- (app_nil_l (flat_map _ _)).
  refine (for_append_collect _ _ _ _ _ _ Hex).
  intros [[[[[d_text q_text] a_start] a_text] q_id] impossible] ys _ Hq.
  unfold examples_of_question in Hq.
  pose proof (example_of_training_eq tokenizer d_text q_text a_start a_text
                q_id impossible) as Hone.
  destruct (whitespace_split d_text) as [d_tokens char_to_word_offset]
    eqn:Esplit.
  apply bind_return in Hq. destruct Hq as (answers & Ha & Hq).
  apply answers_of_returned in Ha. subst answers.
  cbn [fst snd] in Hone.
  assert (E : ys = [] ++ flat_map
                          (fun a => [training_example_of
                                       (d_text, q_text, a_start, a_text, q_id,
                                        impossible) a])
                          (answers_list a_start a_text)).
  { refine (for_append_collect _ _ _ _ _ _ Hq).
    intros [s t] es _ He. apply bind_return in He.
    destruct He as (e & He & Hes). injection Hes as <-.
    apply Hone in He. now subst e. }
  rewrite E. cbn [app]. apply flat_map_singleton.
Qed.

(** ** The labels, window by window (lines 531-544, 634-657) *)

(** The labels of the feature of a window in training mode, as lines
    634-657 say them: the position of [CLS] twice for an impossible
    question and for a window that does not hold the whole answer span
    [(tok_start_position, tok_end_position)], and otherwise the two ends
    of the span moved to their place in the feature. *)
Definition expected_labels (tokenizer : BertTokenizer)
    (max_query_length : Z) (example : QAExample) (doc_span : DocSpan)
    : option Z * option Z :=
  let orig_to_tok_index :=
    snd (fst (subtokens_of tokenizer (doc_tokens example))) in
  let all_doc_tokens := snd (subtokens_of tokenizer (doc_tokens example)) in
  let doc_offset :=
    len (example_query tokenizer max_query_length example) + 2 in
  let doc_start := DocSpan.start doc_span in
  let doc_end := DocSpan.start doc_span + DocSpan.length doc_span - 1 in
  if is_impossible example then (Some 0, Some 0)
  else
    match tok_positions_of tokenizer example true orig_to_tok_index
            all_doc_tokens with
    | Return (Some tok_start_position, Some tok_end_position) =>
        if (doc_start <=? tok_start_position)
           && (tok_end_position <=? doc_end)
        then (Some (tok_start_position - doc_start + doc_offset),
              Some (tok_end_position - doc_start + doc_offset))
        else (Some 0, Some 0)
    | _ => (None, None)
    end.

Lemma tok_positions_of_answerable (tokenizer : BertTokenizer)
    (example : QAExample) (orig_to_tok_index : list Z)
    (all_doc_tokens : list str) (tsp tep : option Z) :
  is_impossible example = false ->
  tok_positions_of tokenizer example true orig_to_tok_index all_doc_tokens
  = Return (tsp, tep) ->
  exists ts te, tsp = Some ts /\ tep = Some te.
Proof.
  intros Hposs. unfold tok_positions_of. rewrite Hposs. cbn [andb negb].
  intros H.
  apply bind_return in H. destruct H as (sp & _ & H).
  apply bind_return in H. destruct H as (ts & _ & H).
  apply bind_return in H. destruct H as (ep & _ & H).
  apply bind_return in H. destruct H as (te & _ & H).
  apply bind_return in H. destruct H as (answer & _ & H).
  destruct (_improve_answer_span tokenizer all_doc_tokens ts te answer)
    as [ts' te'].
  injection H as <- <-. eauto.
Qed.

Lemma labels_of_training_eq (tokenizer : BertTokenizer)
    (max_query_length : Z) (example : QAExample) (doc_span : DocSpan)
    (tsp tep : option Z) (a b : option Z) :
  tok_positions_of tokenizer example true
    (snd (fst (subtokens_of tokenizer (doc_tokens example))))
    (snd (subtokens_of tokenizer (doc_tokens example)))
  = Return (tsp, tep) ->
  labels_of example true doc_span
    (example_query tokenizer max_query_length example) tsp tep 0
  = Return (a, b) ->
  (a, b) = expected_labels tokenizer max_query_length example doc_span.
Proof.
  intros Hpos. unfold expected_labels, labels_of.
  destruct (is_impossible example) eqn:Hposs; cbn [andb negb].
  - cbn [bind]. now intros [= <- <-].
  - destruct (tok_positions_of_answerable tokenizer example _ _ tsp tep
                Hposs Hpos) as (ts & te & -> & ->).
    rewrite Hpos. cbn [as_int bind].
    destruct (DocSpan.start doc_span <=? ts); cbn [bind andb negb];
      [|now intros [= <- <-]].
    destruct (te <=? DocSpan.start doc_span + DocSpan.length doc_span - 1);
      cbn [bind negb]; now intros [= <- <-].
Qed.

(** X9: in training mode the labels of the features are, example after
    example and window after window, those of lines 634-657: 0 and 0
    (the position of [CLS]) for an impossible question; for an
    answerable question, 0 and 0 for a window that does not hold the
    whole answer span (from [tok_start_position] to
    [tok_end_position]), and for a window that holds it the two ends of
    the span, moved by [len(query_tokens) + 2 - doc_span.start]. In the
    last case the two labels lie inside the window of the feature and the
    tokens of the feature from the one to the other are the sub-tokens of
    the document from [tok_start_position] to [tok_end_position]. *)
Theorem training_labels (tokenizer : BertTokenizer) {fl : PyFloat}
    (doc_text question_text : str_or_list)
    (answer_start : list int_or_list) (answer_text : list str_or_list)
    (max_query_length max_len doc_stride : Z)
    (qa_id : option (list Z)) (is_impossible : option (list bool))
    (features : list QAFeatures) (qa_examples : list QAExample) :
  tokenize_qa tokenizer doc_text question_text answer_start answer_text
    true max_query_length max_len doc_stride qa_id is_impossible
  = Return (features, qa_examples) ->
  map (fun f => (example_index f, (f_start_position f, f_end_position f)))
      features
  = flat_map
      (fun '(k, example) =>
         map (fun doc_span =>
                (k, expected_labels tokenizer max_query_length example
                      doc_span))
             (example_windows tokenizer max_query_length max_len doc_stride
                example))
      (enumerate qa_examples)
  /\ Forall (fun f =>
               exists a b,
                 f_start_position f = Some a /\ f_end_position f = Some b
                 /\ ((a = 0 /\ b = 0)
                     \/ exists example ts te,
                          let query :=
                            example_query tokenizer max_query_length example in
                          let orig_to_tok_index :=
                            snd (fst (subtokens_of tokenizer
                                        (doc_tokens example))) in
                          let all_doc_tokens :=
                            snd (subtokens_of tokenizer (doc_tokens example)) in
                          nth_error qa_examples (Z.to_nat (example_index f))
                          = Some example
                          /\ answerable example
                          /\ tok_positions_of tokenizer example true
                               orig_to_tok_index all_doc_tokens
                             = Return (Some ts, Some te)
                          /\ len query + 2 <= a
                          /\ b <= len query + 1 + paragraph_len f
                          /\ b - a = te - ts
                          /\ forall i, 0 <= i <= te - ts ->
                               nth_error (tokens f) (Z.to_nat (a + i))
                               = nth_error all_doc_tokens
                                   (Z.to_nat (ts + i))))
       features.
Proof.
  intros Hreturn.
  split; [|exact (training_labels_in_window tokenizer _ _ _ _ _ _ _ _ _ _ _
                    Hreturn)].
  pose proof Hreturn as H. unfold tokenize_qa in H.
  apply bind_return in H. destruct H as (examples & Hex & H).
  apply bind_return in H. destruct H as ([uid feats] & Hloop & H).
  injection H as Hf He. subst feats examples.
  pose (view := fun st : Z * list QAFeatures =>
                  map (fun f => (example_index f,
                                 (f_start_position f, f_end_position f)))
                      (snd st)).
  change (view (uid, features)
          = view (1000000000, [])
            ++ flat_map
                 (fun '(k, example) =>
                    map (fun doc_span =>
                           (k, expected_labels tokenizer max_query_length
                                 example doc_span))
                        (example_windows tokenizer max_query_length max_len
                           doc_stride example))
                 (enumerate qa_examples)).
  refine (for_each_enumerate_collect view qa_examples _ _ _ _ _ Hloop).
  intros k example st st' Hk Hstep.
  apply example_step_inv in Hstep.
  destruct Hstep as (toi & oti & adt & tsp & tep & spans & Hsub & Hpos
                     & Hspans & Hfeat).
  cbv zeta in Hspans, Hfeat.
  unfold example_windows, example_query. rewrite Hsub. cbn [snd].
  rewrite Hspans.
  rewrite <- (flat_map_enumerate_snd
                (fun doc_span =>
                   (Z.of_nat k,
                    expected_labels tokenizer max_query_length example
                      doc_span))
                spans).
  refine (for_each_enumerate_collect view spans _ _ _ _ _ Hfeat).
  intros j sp [uid0 feats0] s' Hj Hrun.
  pose (it := {| it_example := example; it_is_example := Hk;
                 it_subtokens := Hsub; it_positions := Hpos;
                 it_spans := Hspans; it_is_span := Hj |}
              : iteration tokenizer true max_query_length max_len
                  doc_stride qa_examples k j).
  destruct (runs_feature tokenizer _ _ _ _ _ _ _ it uid0 feats0 s' Hrun)
    as (f & -> & _ & Hindex & _ & _ & _ & _ & _ & _ & Hlab).
  unfold view. cbn [snd]. rewrite map_app. cbn [map].
  rewrite Hindex. do 3 f_equal. cbn [it_example it_doc_span it
    it_tok_start_position it_tok_end_position] in Hlab.
  apply (labels_of_training_eq tokenizer max_query_length example sp tsp tep);
    [|exact Hlab].
  rewrite Hsub. exact Hpos.
Qed.

(** ** The padding and the assertions (lines 617-632) *)

Lemma bind_raise {A B} (m : outcome A) (k : A -> outcome B) (e : exn) :
  bind m k = Raise e ->
  m = Raise e \/ exists a, m = Return a /\ k a = Raise e.
Proof. destruct m; simpl; [eauto|intros [= ->]; auto|discriminate]. Qed.

Lemma for_each_raise {A St} (l : list A) (body : St -> A -> outcome St)
    (e : exn) :
  forall s, for_each l body s = Raise e ->
            exists s0 x, In x l /\ body s0 x = Raise e.
Proof.
  induction l as [|x l IH]; intros s H; [discriminate|].
  simpl in H. apply bind_raise in H. destruct H as [H|(s1 & _ & H)].
  - exists s, x. simpl. auto.
  - destruct (IH s1 H) as (s0 & y & Hy & Hraise). exists s0, y. simpl. auto.
Qed.

Lemma for_append_raise {A B} (l : list A) (body : A -> outcome (list B))
    (e : exn) :
  forall acc, for_append l body acc = Raise e ->
              exists x, In x l /\ body x = Raise e.
Proof.
  induction l as [|x l IH]; intros acc H; [discriminate|].
  simpl in H. apply bind_raise in H. destruct H as [H|(ys & _ & H)].
  - exists x. simpl. auto.
  - destruct (IH _ H) as (y & Hy & Hraise). exists y. simpl. auto.
Qed.

Section Padding.

Context (tokenizer : BertTokenizer) {fl : PyFloat}.

Hypothesis one_id : one_id_per_token tokenizer.

(** With one id per token, the padding loop brings the three sequences of
    a window that fits to [max_len] entries, so that the three
    assertions pass: what the iteration does is to build the tokens, to
    compute the labels and to append the feature. *)
Lemma feature_step_padded (example_index : Z) (example : QAExample)
    (is_training : bool) (max_len : Z) (query_tokens : list str)
    (tok_to_orig_index : list Z) (all_doc_tokens : list str)
    (tok_start_position tok_end_position : option Z)
    (doc_spans : list DocSpan) (uid : Z) (features : list QAFeatures)
    (doc_span_index : Z) (doc_span : DocSpan) :
  0 <= DocSpan.length doc_span <= max_len - len query_tokens - 3 ->
  feature_step tokenizer example_index example is_training max_len
    query_tokens tok_to_orig_index all_doc_tokens tok_start_position
    tok_end_position doc_spans (uid, features) (doc_span_index, doc_span)
  = ('(toks, tmap, tctx, segs) <-
       for_each (range 0 (DocSpan.length doc_span))
         (paragraph_step doc_spans doc_span_index doc_span tok_to_orig_index
            all_doc_tokens)
         ([cls_token] ++ query_tokens ++ [sep_token], [], [],
          [cls_token_segment_id]
            ++ map (fun _ => sequence_a_segment_id) query_tokens
            ++ [sequence_a_segment_id]) ;;
     '(start_position, end_position) <-
       labels_of example is_training doc_span query_tokens
         tok_start_position tok_end_position 0 ;;
     let ids := convert_tokens_to_ids tokenizer (toks ++ [sep_token]) in
     let pad := Z.to_nat (max_len - len ids) in
     Return (uid + 1,
             features ++ [
               {| unique_id := uid;
                  example_index := example_index;
                  tokens := toks ++ [sep_token];
                  token_to_orig_map := tmap;
                  token_is_max_context := tctx;
                  input_ids := ids ++ repeat 0 pad;
                  input_mask := repeat 1 (List.length ids) ++ repeat 0 pad;
                  segment_ids :=
                    (segs ++ [sequence_b_segment_id]) ++ repeat 0 pad;
                  paragraph_len := DocSpan.length doc_span;
                  f_start_position := start_position;
                  f_end_position := end_position |}])).
Proof.
  intros Hfit. unfold feature_step.
  destruct (for_each (range 0 (DocSpan.length doc_span))
              (paragraph_step doc_spans doc_span_index doc_span
                 tok_to_orig_index all_doc_tokens)
              ([cls_token] ++ query_tokens ++ [sep_token], [], [],
               [cls_token_segment_id]
                 ++ map (fun _ => sequence_a_segment_id) query_tokens
                 ++ [sequence_a_segment_id]))
    as [[[[toks tmap] tctx] segs]|e|] eqn:Hpar; [|reflexivity..].
  pose proof (paragraph_loop_lengths _ _ _ _ _ _ _ _ _ _ _ _ _ _ Hpar)
    as [Htoks Hsegs].
  rewrite length_range in Htoks, Hsegs.
  rewrite !length_app in Htoks. rewrite !length_app, length_map in Hsegs.
  cbn [List.length] in Htoks, Hsegs.
  pose proof (one_id (toks ++ [sep_token])) as Hn.
  rewrite length_app in Hn. cbn [List.length] in Hn.
  simpl bind. rewrite pad_loop_eq.
  unfold assert, len in *.
  rewrite !length_app, !repeat_length, Hn. simpl List.length.
  repeat match goal with
  | |- context [Z.eqb ?a ?b] =>
      replace (Z.eqb a b) with true by (symmetry; apply Z.eqb_eq; lia)
  end.
  simpl bind. reflexivity.
Qed.

(** What the parts of the pipeline may raise: never [AssertionError]. *)

Lemma example_of_raises (d_tokens : list str) (char_to_word_offset : list Z)
    (q_text : str) (q_id : Z) (impossible is_training : bool) (s : Z)
    (t : str_or_list) (e : exn) :
  example_of tokenizer d_tokens char_to_word_offset q_text q_id impossible
    is_training s t = Raise e ->
  e <> AssertionError.
Proof.
  unfold example_of, index.
  destruct is_training; [|discriminate].
  destruct impossible; cbn [negb]; [discriminate|].
  destruct (getitem char_to_word_offset s); cbn [bind];
    [|intros [= <-]; discriminate].
  destruct (getitem char_to_word_offset (s + len_of t - 1)); cbn [bind];
    [|intros [= <-]; discriminate].
  destruct t as [t|ts]; cbn [bind]; [|intros [= <-]; discriminate].
  destruct (find _ _ =? -1); [|discriminate].
  rewrite logger_is_unbound. cbn [bind]. intros [= <-]. discriminate.
Qed.

Lemma qa_examples_of_raises (doc_text question_text : str_or_list)
    (answer_start : list int_or_list) (answer_text : list str_or_list)
    (is_training : bool) (qa_id : option (list Z))
    (is_impossible : option (list bool)) (e : exn) :
  qa_examples_of tokenizer doc_text question_text answer_start answer_text
    is_training qa_id is_impossible = Raise e ->
  e <> AssertionError.
Proof.
  unfold qa_examples_of. intros H. apply for_append_raise in H.
  destruct H as ([[[[[d_text q_text] a_start] a_text] q_id] impossible]
                 & _ & H).
  unfold examples_of_question in H.
  destruct (whitespace_split d_text) as [d_tokens char_to_word_offset].
  apply bind_raise in H. destruct H as [H|(answers & _ & H)].
  - unfold answers_of in H. destruct a_start as [z|starts]; [discriminate|].
    destruct (negb (len starts =? len_of a_text));
      [injection H as <-; discriminate|].
    destruct ((len starts >? 1) && is_training && negb impossible);
      [injection H as <-; discriminate|discriminate].
  - apply for_append_raise in H. destruct H as ([s t] & _ & H).
    apply bind_raise in H. destruct H as [H|(ex & _ & H)]; [|discriminate].
    exact (example_of_raises _ _ _ _ _ _ _ _ _ H).
Qed.

Lemma tok_positions_of_raises (example : QAExample) (is_training : bool)
    (orig_to_tok_index : list Z) (all_doc_tokens : list str) (e : exn) :
  tok_positions_of tokenizer example is_training orig_to_tok_index
    all_doc_tokens = Raise e ->
  e <> AssertionError.
Proof.
  unfold tok_positions_of, index, as_int.
  destruct (is_training && is_impossible example); [discriminate|].
  destruct (is_training && negb (is_impossible example)); [|discriminate].
  destruct (start_position example) as [sp|]; cbn [bind];
    [|intros [= <-]; discriminate].
  destruct (getitem orig_to_tok_index sp) as [ts|]; cbn [bind];
    [|intros [= <-]; discriminate].
  destruct (end_position example) as [ep|]; cbn [bind];
    [|intros [= <-]; discriminate].
  destruct (ep <? len (doc_tokens example) - 1).
  - destruct (getitem orig_to_tok_index (ep + 1)) as [te|]; cbn [bind];
      [|intros [= <-]; discriminate].
    destruct (orig_answer_text example); cbn [bind];
      [|intros [= <-]; discriminate].
    destruct (_improve_answer_span _ _ _ _ _). discriminate.
  - cbn [bind]. destruct (orig_answer_text example); cbn [bind];
      [|intros [= <-]; discriminate].
    destruct (_improve_answer_span _ _ _ _ _). discriminate.
Qed.

Lemma labels_of_raises (example : QAExample) (is_training : bool)
    (doc_span : DocSpan) (query_tokens : list str)
    (tok_start_position tok_end_position : option Z) (cls_index : Z)
    (e : exn) :
  labels_of example is_training doc_span query_tokens tok_start_position
    tok_end_position cls_index = Raise e ->
  e <> AssertionError.
Proof.
  unfold labels_of, as_int.
  destruct (is_training && negb (is_impossible example)).
  - destruct tok_start_position as [ts|]; cbn [bind];
      [|intros [= <-]; discriminate].
    destruct (DocSpan.start doc_span <=? ts); cbn [bind negb].
    + destruct tok_end_position as [te|]; cbn [bind];
        [|intros [= <-]; discriminate].
      destruct (te <=? DocSpan.start doc_span + DocSpan.length doc_span - 1);
        cbn [bind negb]; destruct (is_training && _); discriminate.
    + destruct (is_training && true); discriminate.
  - cbn [bind]. destruct (is_training && is_impossible example); discriminate.
Qed.

Lemma paragraph_loop_raises (doc_spans : list DocSpan) (doc_span_index : Z)
    (doc_span : DocSpan) (tok_to_orig_index : list Z)
    (all_doc_tokens : list str) (indices : list Z)
    (st : list str * dict Z * dict bool * list Z) (e : exn) :
  for_each indices
    (paragraph_step doc_spans doc_span_index doc_span tok_to_orig_index
       all_doc_tokens) st = Raise e ->
  e <> AssertionError.
Proof.
  intros H. apply for_each_raise in H.
  destruct H as ([[[toks tmap] tctx] segs] & i & _ & H).
  unfold paragraph_step, index in H.
  destruct (getitem tok_to_orig_index (DocSpan.start doc_span + i));
    cbn [bind] in H; [|injection H as <-; discriminate].
  destruct (getitem all_doc_tokens (DocSpan.start doc_span + i));
    cbn [bind] in H; [discriminate|injection H as <-; discriminate].
Qed.

Lemma example_step_raises (is_training : bool)
    (max_query_length max_len doc_stride : Z) (st : Z * list QAFeatures)
    (item : Z * QAExample) (e : exn) :
  example_step tokenizer is_training max_query_length max_len doc_stride st
    item = Raise e ->
  e <> AssertionError.
Proof.
  destruct item as [example_index example]. unfold example_step.
  destruct (subtokens_of tokenizer (doc_tokens example))
    as [[tok_to_orig_index orig_to_tok_index] all_doc_tokens].
  intros H. apply bind_raise in H. destruct H as [H|([tsp tep] & _ & H)];
    [exact (tok_positions_of_raises _ _ _ _ _ H)|].
  apply bind_raise in H. destruct H as [H|(doc_spans & Hspans & H)].
  { unfold doc_spans_of in H. destruct (window_loop _ _ _ _ _); discriminate. }
  apply for_each_raise in H.
  destruct H as ([uid features] & [doc_span_index doc_span] & Hin & H).
  apply enumerate_in in Hin.
  destruct (doc_spans_of_bounds _ _ _ _ Hspans doc_span Hin) as (_ & Hfit & _).
  rewrite feature_step_padded in H by lia.
  apply bind_raise in H. destruct H as [H|([[[toks tmap] tctx] segs] & _ & H)];
    [exact (paragraph_loop_raises _ _ _ _ _ _ _ _ H)|].
  apply bind_raise in H. destruct H as [H|([sp ep] & _ & H)];
    [exact (labels_of_raises _ _ _ _ _ _ _ _ H)|discriminate].
Qed.

(** The assertions of lines 630-632 never fail. *)
Lemma tokenize_qa_asserts_pass (doc_text question_text : str_or_list)
    (answer_start : list int_or_list) (answer_text : list str_or_list)
    (is_training : bool) (max_query_length max_len doc_stride : Z)
    (qa_id : option (list Z)) (is_impossible : option (list bool)) :
  tokenize_qa tokenizer doc_text question_text answer_start answer_text
    is_training max_query_length max_len doc_stride qa_id is_impossible
  <> Raise AssertionError.
Proof.
  unfold tokenize_qa. intros H.
  apply bind_raise in H. destruct H as [H|(qa_examples & _ & H)];
    [now apply qa_examples_of_raises in H|].
  apply bind_raise in H. destruct H as [H|([uid features] & _ & H)];
    [|discriminate].
  apply for_each_raise in H. destruct H as (st & item & _ & H).
  now apply example_step_raises in H.
Qed.

End Padding.

(** ** The call returns, in both modes *)

Lemma getitem_from_end {A} (l : list A) (i : Z) :
  l <> [] -> -1 <= i <= len l - 1 -> exists x, getitem l i = Some x.
Proof.
  intros Hl Hi. destruct (Z_lt_ge_dec i 0) as [Hneg|Hpos].
  - assert (i = -1) as -> by lia.
    destruct l as [|y l]; [contradiction|].
    destruct (getitem_in_range (y :: l) (len (y :: l) - 1)) as (x & Hx).
    { unfold len. cbn [List.length]. lia. }
    exists x. unfold getitem in *. cbn [Z.ltb Z.compare] in *.
    replace (-1 + len (y :: l)) with (len (y :: l) - 1) by lia.
    destruct (len (y :: l) - 1 <? 0) eqn:E; [|exact Hx].
    apply Z.ltb_lt in E. unfold len in E. cbn [List.length] in E. lia.
  - apply getitem_in_range. lia.
Qed.

(** What a mode asks of an example: in both modes that its question
    leaves room for a document token, and in training mode that the
    document of an answerable question has a word, line 533 reading
    [orig_to_tok_index[example.start_position]]. *)
Definition has_room (tokenizer : BertTokenizer) (is_training : bool)
    (max_query_length max_len : Z) (example : QAExample) : Prop :=
  len (example_query tokenizer max_query_length example) + 3 < max_len
  /\ (is_training = true -> is_impossible example = false ->
      doc_tokens example <> []).

Section Returning.

Context (tokenizer : BertTokenizer) {fl : PyFloat}.

Hypothesis one_id : one_id_per_token tokenizer.

Lemma tok_positions_of_returns (example : QAExample) (is_training : bool)
    (orig_to_tok_index : list Z) (all_doc_tokens : list str) :
  (is_training = true -> training_example tokenizer example) ->
  (is_training = true -> is_impossible example = false ->
   doc_tokens example <> []) ->
  List.length orig_to_tok_index = List.length (doc_tokens example) ->
  exists tsp tep,
    tok_positions_of tokenizer example is_training orig_to_tok_index
      all_doc_tokens = Return (tsp, tep)
    /\ (is_training = true -> is_impossible example = false ->
        exists ts te, tsp = Some ts /\ tep = Some te).
Proof.
  intros Hex Hwords Hlen. unfold tok_positions_of.
  destruct is_training; cbn [andb];
    [|exists None, None; split; [reflexivity|discriminate]].
  specialize (Hex eq_refl). specialize (Hwords eq_refl).
  unfold training_example in Hex.
  destruct (is_impossible example); cbn [negb].
  { exists (Some (-1)), (Some (-1)). split; [reflexivity|discriminate]. }
  specialize (Hwords eq_refl).
  destruct Hex as (sp & ep & answer & -> & -> & -> & Hsp & Hep & _).
  assert (Hne : orig_to_tok_index <> []).
  { intros ->. destruct (doc_tokens example); [now apply Hwords|discriminate]. }
  assert (Hl : len orig_to_tok_index = len (doc_tokens example))
    by (unfold len; now rewrite Hlen).
  destruct (getitem_from_end orig_to_tok_index sp Hne) as (ts & Hts); [lia|].
  unfold index, as_int. cbn [bind]. rewrite Hts. cbn [bind].
  destruct (Z.ltb_spec ep (len (doc_tokens example) - 1)) as [Hlt|Hge].
  - destruct (getitem_in_range orig_to_tok_index (ep + 1)) as (te & Hte);
      [lia|].
    rewrite Hte. cbn [bind].
    destruct (_improve_answer_span tokenizer all_doc_tokens ts (te - 1)
                answer) as [ts' te'] eqn:E.
    exists (Some ts'), (Some te'). split; [reflexivity|eauto].
  - cbn [bind].
    destruct (_improve_answer_span tokenizer all_doc_tokens ts
                (len all_doc_tokens - 1) answer) as [ts' te'] eqn:E.
    exists (Some ts'), (Some te'). split; [reflexivity|eauto].
Qed.

Lemma labels_of_returns (example : QAExample) (is_training : bool)
    (doc_span : DocSpan) (query_tokens : list str)
    (tok_start_position tok_end_position : option Z) (cls_index : Z) :
  (is_training = true -> is_impossible example = false ->
   exists ts te, tok_start_position = Some ts /\ tok_end_position = Some te) ->
  exists labels,
    labels_of example is_training doc_span query_tokens tok_start_position
      tok_end_position cls_index = Return labels.
Proof.
  intros Hpos. unfold labels_of, as_int.
  destruct is_training; cbn [andb]; [|eexists; reflexivity].
  destruct (is_impossible example); cbn [negb bind]; [eexists; reflexivity|].
  destruct (Hpos eq_refl eq_refl) as (ts & te & -> & ->). cbn [bind].
  destruct (DocSpan.start doc_span <=? ts); cbn [bind negb];
    [|eexists; reflexivity].
  destruct (te <=? DocSpan.start doc_span + DocSpan.length doc_span - 1);
    cbn [bind negb]; eexists; reflexivity.
Qed.

(** A window that lies inside the document and fits gives one feature of
    the fixed width, whatever the mode. *)
Lemma feature_step_pads (example_index : Z) (example : QAExample)
    (is_training : bool) (max_len : Z) (query_tokens : list str)
    (tok_to_orig_index : list Z) (all_doc_tokens : list str)
    (tok_start_position tok_end_position : option Z)
    (doc_spans : list DocSpan) (uid : Z) (features : list QAFeatures)
    (doc_span_index : Z) (doc_span : DocSpan) :
  List.length tok_to_orig_index = List.length all_doc_tokens ->
  0 <= DocSpan.start doc_span ->
  0 <= DocSpan.length doc_span <= max_len - len query_tokens - 3 ->
  DocSpan.start doc_span + DocSpan.length doc_span <= len all_doc_tokens ->
  (is_training = true -> is_impossible example = false ->
   exists ts te, tok_start_position = Some ts /\ tok_end_position = Some te) ->
  exists f,
    feature_step tokenizer example_index example is_training max_len
      query_tokens tok_to_orig_index all_doc_tokens tok_start_position
      tok_end_position doc_spans (uid, features) (doc_span_index, doc_span)
    = Return (uid + 1, features ++ [f])
    /\ fixed_width tokenizer max_len f.
Proof.
  intros Hlen Hstart Hfit Hin Hpos.
  assert (Hret : exists st',
             feature_step tokenizer example_index example is_training max_len
               query_tokens tok_to_orig_index all_doc_tokens
               tok_start_position tok_end_position doc_spans (uid, features)
               (doc_span_index, doc_span) = Return st').
  { rewrite (feature_step_padded tokenizer one_id) by exact Hfit.
    destruct (paragraph_loop_returns doc_spans doc_span_index doc_span
                tok_to_orig_index all_doc_tokens
                (range 0 (DocSpan.length doc_span)))
      with (st := ([cls_token] ++ query_tokens ++ [sep_token],
                   @nil (Z * Z), @nil (Z * bool),
                   [cls_token_segment_id]
                     ++ map (fun _ => sequence_a_segment_id) query_tokens
                     ++ [sequence_a_segment_id]))
      as ([[[toks tmap] tctx] segs] & Hpar).
    { intros i Hi. apply in_range in Hi. unfold len in *. lia. }
    rewrite Hpar. cbn [bind].
    destruct (labels_of_returns example is_training doc_span query_tokens
                tok_start_position tok_end_position 0 Hpos)
      as ([sp ep] & ->).
    cbn [bind]. eexists. reflexivity. }
  destruct Hret as (st' & Hst').
  destruct (feature_step_fixed_width tokenizer _ _ _ _ _ _ _ _ _ _ _ _ _ _ _
              Hst') as (f & -> & Hw).
  exists f. split; [exact Hst'|exact Hw].
Qed.

Lemma example_step_pads (is_training : bool)
    (max_query_length max_len doc_stride : Z) (uid : Z)
    (features : list QAFeatures) (example_index : Z) (example : QAExample) :
  0 < doc_stride ->
  (is_training = true -> training_example tokenizer example) ->
  has_room tokenizer is_training max_query_length max_len example ->
  Forall (fixed_width tokenizer max_len) features ->
  exists uid' features',
    example_step tokenizer is_training max_query_length max_len doc_stride
      (uid, features) (example_index, example) = Return (uid', features')
    /\ Forall (fixed_width tokenizer max_len) features'.
Proof.
  intros Hstride Hex [Hroom Hwords] Hfeatures. unfold example_step.
  unfold example_query in Hroom.
  pose proof (subtokens_of_spec tokenizer (doc_tokens example)) as Hspec.
  destruct (subtokens_of tokenizer (doc_tokens example))
    as [[tok_to_orig_index orig_to_tok_index] all_doc_tokens].
  destruct Hspec as (_ & Hlen & Hoti & _).
  set (query_tokens :=
         query_tokens_of tokenizer (question_text example) max_query_length)
    in *.
  destruct (tok_positions_of_returns example is_training orig_to_tok_index
              all_doc_tokens Hex Hwords Hoti) as (tsp & tep & -> & Hpos).
  cbn [bind].
  destruct (doc_spans_of_returns (len all_doc_tokens)
              (max_len - len query_tokens - 3) doc_stride)
    as (doc_spans & Hspans); [right; lia|].
  rewrite Hspans. cbn [bind].
  destruct (for_each_returns
              (fun st : Z * list QAFeatures =>
                 Forall (fixed_width tokenizer max_len) (snd st))
              (enumerate doc_spans)
              (feature_step tokenizer example_index example is_training
                 max_len query_tokens tok_to_orig_index all_doc_tokens tsp tep
                 doc_spans)) with (s := (uid, features))
    as ([uid' features'] & H & Hall); [|exact Hfeatures|eauto].
  intros [u feats] [i sp] Hin Hfeats. cbn [snd] in Hfeats.
  apply enumerate_in in Hin.
  destruct (doc_spans_of_bounds _ _ _ _ Hspans sp Hin) as (H1 & H2 & H3).
  destruct (feature_step_pads example_index example is_training max_len
              query_tokens tok_to_orig_index all_doc_tokens tsp tep doc_spans
              u feats i sp) as (f & Hf & Hw); auto; try lia.
  eexists. split; [exact Hf|]. cbn [snd]. apply Forall_app. split; auto.
Qed.

(** Once the examples are built, the call returns one feature per window,
    every one of the fixed width. *)
Lemma tokenize_qa_pads (doc_text question_text : str_or_list)
    (answer_start : list int_or_list) (answer_text : list str_or_list)
    (is_training : bool) (max_query_length max_len doc_stride : Z)
    (qa_id : option (list Z)) (is_impossible : option (list bool))
    (qa_examples : list QAExample) :
  0 < doc_stride ->
  qa_examples_of tokenizer doc_text question_text answer_start answer_text
    is_training qa_id is_impossible = Return qa_examples ->
  Forall (has_room tokenizer is_training max_query_length max_len)
    qa_examples ->
  exists features,
    tokenize_qa tokenizer doc_text question_text answer_start answer_text
      is_training max_query_length max_len doc_stride qa_id is_impossible
    = Return (features, qa_examples)
    /\ Forall (fixed_width tokenizer max_len) features.
Proof.
  intros Hstride Hex Hroom. unfold tokenize_qa. rewrite Hex. cbn [bind].
  assert (Htrain : is_training = true ->
                   Forall (training_example tokenizer) qa_examples).
  { intros ->. exact (qa_examples_training tokenizer _ _ _ _ _ _ _ Hex). }
  destruct (for_each_returns
              (fun st : Z * list QAFeatures =>
                 Forall (fixed_width tokenizer max_len) (snd st))
              (enumerate qa_examples)
              (example_step tokenizer is_training max_query_length max_len
                 doc_stride)) with (s := (1000000000, @nil QAFeatures))
    as ([uid features] & -> & Hall); [|constructor|cbn; eauto].
  intros [u feats] [i example] Hin Hfeats. cbn [snd] in Hfeats.
  apply enumerate_in in Hin.
  rewrite Forall_forall in Hroom. specialize (Hroom _ Hin).
  destruct (example_step_pads is_training max_query_length max_len doc_stride
              u feats i example Hstride) as (u' & feats' & H & Hw); auto.
  { intros Ht. specialize (Htrain Ht). rewrite Forall_forall in Htrain. auto. }
  eexists. split; [exact H|exact Hw].
Qed.

End Returning.

(** C6: every feature that [tokenize_qa] returns has
    [len(input_ids) == len(input_mask) == len(segment_ids) == max_len],
    with [input_ids], [input_mask] and [segment_ids] padded on the right
    with 0s up to [max_len] and [input_mask] equal to 1 on the positions of
    the tokens and 0 on the padding, whatever the length of the input.
    This holds of every call that returns, whatever the tokenizer; and
    with a tokenizer that gives one id per token the padding loop does
    bring every window to [max_len]: the assertions of lines 630-632
    never fail in either mode, and once the examples are built, with a
    positive stride and room for a document token after every question
    (and, in training mode, a word in the document of an answerable
    question), the call returns its features, every one of them of the
    fixed width, the windows shorter than [max_len] included. *)
Theorem features_fixed_width (tokenizer : BertTokenizer) {fl : PyFloat}
    (doc_text question_text : str_or_list)
    (answer_start : list int_or_list) (answer_text : list str_or_list)
    (is_training : bool) (max_query_length max_len doc_stride : Z)
    (qa_id : option (list Z)) (is_impossible : option (list bool)) :
  (forall features qa_examples,
     tokenize_qa tokenizer doc_text question_text answer_start answer_text
       is_training max_query_length max_len doc_stride qa_id is_impossible
     = Return (features, qa_examples) ->
     Forall (fixed_width tokenizer max_len) features)
  /\ (one_id_per_token tokenizer ->
      tokenize_qa tokenizer doc_text question_text answer_start answer_text
        is_training max_query_length max_len doc_stride qa_id is_impossible
      <> Raise AssertionError)
  /\ (one_id_per_token tokenizer ->
      0 < doc_stride ->
      forall qa_examples,
        qa_examples_of tokenizer doc_text question_text answer_start
          answer_text is_training qa_id is_impossible = Return qa_examples ->
        Forall (has_room tokenizer is_training max_query_length max_len)
          qa_examples ->
        exists features,
          tokenize_qa tokenizer doc_text question_text answer_start
            answer_text is_training max_query_length max_len doc_stride qa_id
            is_impossible
          = Return (features, qa_examples)
          /\ Forall (fixed_width tokenizer max_len) features).
Proof.
  split; [|split].
  - intros features qa_examples H.
    exact (returned_features_fixed_width tokenizer _ _ _ _ _ _ _ _ _ _ _ _ H).
  - intros one_id. apply (tokenize_qa_asserts_pass tokenizer one_id).
  - intros one_id Hstride qa_examples Hex Hroom.
    exact (tokenize_qa_pads tokenizer one_id _ _ _ _ _ _ _ _ _ _ _ Hstride
             Hex Hroom).
Qed.

(** ** The three theorems at concrete inputs *)

Module SampleExamples.

(** The example of [Samples.inference]: no positions in inference mode. *)
Definition asked : QAExample :=
  {| qa_id := 0;
     doc_tokens := fst (whitespace_split Samples.document);
     question_text := Samples.question;
     orig_answer_text := Str (lit "1895");
     start_position := None;
     end_position := None;
     is_impossible := false |}.

(** The example of [MoreSamples.training]: the answer starts and ends in
    the sixth word of the document. *)
Definition answered : QAExample :=
  {| qa_id := 0;
     doc_tokens := fst (whitespace_split Samples.document);
     question_text := Samples.question;
     orig_answer_text := Str (lit "1895");
     start_position := Some 5;
     end_position := Some 5;
     is_impossible := false |}.

End SampleExamples.

(** The second window of [Samples.inference] has 18 tokens and is padded
    with two 0s. *)
Lemma features_fixed_width_witness :
  exists features,
    Samples.inference = Return (features, [SampleExamples.asked])
    /\ Forall (fixed_width Toy.tokenizer 20) features
    /\ map (fun f => (len (tokens f), input_ids f, input_mask f,
                      segment_ids f)) features
       = [(20,
           [91; 87; 121; 119; 74; 83; 98; 63; 91; 84; 108; 119; 74; 83; 40;
            49; 45; 49; 41; 91],
           [1; 1; 1; 1; 1; 1; 1; 1; 1; 1; 1; 1; 1; 1; 1; 1; 1; 1; 1; 1],
           [0; 0; 0; 0; 0; 0; 0; 0; 0; 1; 1; 1; 1; 1; 1; 1; 1; 1; 1; 1]);
          (18,
           [91; 87; 121; 119; 74; 83; 98; 63; 91; 74; 83; 40; 49; 45; 49;
            41; 46; 91; 0; 0],
           [1; 1; 1; 1; 1; 1; 1; 1; 1; 1; 1; 1; 1; 1; 1; 1; 1; 1; 0; 0],
           [0; 0; 0; 0; 0; 0; 0; 0; 0; 1; 1; 1; 1; 1; 1; 1; 1; 1; 0; 0])].
Proof.
  destruct (proj2 (proj2 (features_fixed_width Toy.tokenizer (fl := binary64)
                            (StrList [Samples.document])
                            (StrList [Samples.question]) [IntList [27]]
                            [StrList [lit "1895"]] false 64 20 3 None None))
              toy_one_id_per_token ltac:(lia) [SampleExamples.asked])
    as (features & Hret & Hwidth).
  - vm_compute. reflexivity.
  - constructor; [|constructor].
    split; [vm_compute; reflexivity|discriminate].
  - exists features. split; [exact Hret|]. split; [exact Hwidth|].
    clear Hwidth. vm_compute in Hret. injection Hret as <-.
    vm_compute. reflexivity.
Defined.

Lemma training_examples_witness :
  exists features,
    MoreSamples.training = Return (features, [SampleExamples.answered])
    /\ [SampleExamples.answered]
       = flat_map
           (fun q =>
              let '(_, _, a_start, a_text, _, _) := q in
              map (training_example_of q) (answers_list a_start a_text))
           (questions_of (StrList [Samples.document])
              (StrList [Samples.question]) [IntList [27]]
              [StrList [lit "1895"]] None None)
    /\ Forall (training_example Toy.tokenizer) [SampleExamples.answered].
Proof.
  assert (H : {features | MoreSamples.training
                          = Return (features, [SampleExamples.answered])}).
  { vm_compute. eexists. reflexivity. }
  destruct H as [features H]. exists features. split; [exact H|].
  exact (training_examples Toy.tokenizer (fl := binary64)
           (StrList [Samples.document]) (StrList [Samples.question])
           [IntList [27]] [StrList [lit "1895"]] 64 20 3 None None
           features [SampleExamples.answered] H).
Defined.

(** The answer is the sixteenth token of the first feature and the
    thirteenth of the second. *)
Lemma training_labels_witness :
  exists features,
    MoreSamples.training = Return (features, [SampleExamples.answered])
    /\ map (fun f => (example_index f, (f_start_position f, f_end_position f)))
         features
       = [(0, (Some 15, Some 15)); (0, (Some 12, Some 12))]
    /\ flat_map
         (fun '(k, example) =>
            map (fun doc_span =>
                   (k, expected_labels Toy.tokenizer 64 example doc_span))
                (example_windows Toy.tokenizer 64 20 3
                   example))
         (enumerate [SampleExamples.answered])
       = [(0, (Some 15, Some 15)); (0, (Some 12, Some 12))].
Proof.
  assert (H : {features | MoreSamples.training
                          = Return (features, [SampleExamples.answered])}).
  { vm_compute. eexists. reflexivity. }
  destruct H as [features H]. exists features. split; [exact H|].
  destruct (training_labels Toy.tokenizer (fl := binary64)
              (StrList [Samples.document]) (StrList [Samples.question])
              [IntList [27]] [StrList [lit "1895"]] 64 20 3 None None
              features [SampleExamples.answered] H) as [Hlabels _].
  assert (E : flat_map
                (fun '(k, example) =>
                   map (fun doc_span =>
                          (k, expected_labels Toy.tokenizer 64 example
                                doc_span))
                       (example_windows Toy.tokenizer 64 20 3
                          example))
                (enumerate [SampleExamples.answered])
              = [(0, (Some 15, Some 15)); (0, (Some 12, Some 12))])
    by (vm_compute; reflexivity).
  split; [|exact E]. rewrite Hlabels. exact E.
Defined.
